(** * pilotguru: the multi-model training loop of [python/optimize.py]

    A shallow embedding of [optimize.py] (loss adapters, [AverageLosses],
    [DataBatchToVariables], [TrainModels]) and the properties of its
    specification.

    Conventions of the embedding.
    - A Python [float] is an IEEE binary64 value: Rocq's primitive [float].
    - A Python [int] is a [Z]; lengths and list positions are [nat].
    - A Python exception is a value of [PyError]; a computation that can
      raise returns a [result].
    - Side effects (optimizer steps, mode switches, files written, log
      lines) are recorded in order in a trace of [Event]s. *)

From Stdlib Require Import String Ascii ZArith Bool Floats List Lia.
From Stdlib Require Decimal DecimalString DecimalNat.
Import ListNotations.

Set Implicit Arguments.

(* ================================================================== *)
(** * The Python run time the source relies on *)
(* ================================================================== *)

Module Py.

(** The exceptions the statements of [optimize.py] can raise. *)
Inductive PyError : Type :=
| AssertionError      (* a failed [assert] *)
| IndexError          (* a subscript out of range *)
| ZeroDivisionError   (* [/] with a zero divisor *)
| OverflowError       (* an [int] too large for a [float] *)
| RuntimeError.       (* raised inside torch (shape mismatch) *)

Inductive result (A : Type) : Type :=
| Ok (a : A)
| Raise (e : PyError).
Arguments Ok {A} a.
Arguments Raise {A} e.

Definition rbind {A B} (r : result A) (k : A -> result B) : result B :=
  match r with
  | Ok a => k a
  | Raise e => Raise e
  end.

(** [l[i]] for a non-negative [i]. *)
Definition index {A} (l : list A) (i : nat) : result A :=
  match nth_error l i with
  | Some a => Ok a
  | None => Raise IndexError
  end.

(** [l[-1]]. *)
Definition index_last {A} (l : list A) : result A :=
  match l with
  | [] => Raise IndexError
  | _ :: _ => index l (length l - 1)
  end.

(** [l[i] = v] for an [i] in range (the only use in the source). *)
Fixpoint set_index {A} (l : list A) (i : nat) (v : A) : list A :=
  match l, i with
  | [], _ => []
  | _ :: t, O => v :: t
  | h :: t, S j => h :: set_index t j v
  end.

(** [float('inf')]. *)
Definition inf : float := infinity.

(** [float(n)] for an [int]: the nearest binary64 value, ties to even;
    [OverflowError] when the nearest value is out of range. *)
Definition float_of_int (n : Z) : result float :=
  let f := SF2Prim (binary_normalize prec emax n 0 false) in
  if is_infinity f then Raise OverflowError else Ok f.

(** [x / y] for a [float] [x] and an [int] [y]. *)
Definition truediv_float_int (x : float) (y : Z) : result float :=
  rbind (float_of_int y) (fun fy =>
  if (fy =? 0)%float then Raise ZeroDivisionError else Ok (x / fy)%float).

(** [x / y] for an [int] [x] and a [float] [y]. *)
Definition truediv_int_float (x : Z) (y : float) : result float :=
  rbind (float_of_int x) (fun fx =>
  if (y =? 0)%float then Raise ZeroDivisionError else Ok (fx / y)%float).

(** [x * y] for a [float] [x] and an [int] [y]. *)
Definition mul_float_int (x : float) (y : Z) : result float :=
  rbind (float_of_int y) (fun fy => Ok (x * fy)%float).

(** [sum(l)] for a non-empty list of floats: the start value is the int
    [0], which the first addition converts to [0.0]; the additions go
    left to right.  (For the empty list Python returns the int [0]; every
    list summed in the source has one entry per model and [nets[0]] is
    evaluated first, so it is never empty there.) *)
Definition sum_float (l : list float) : float :=
  fold_left (fun a x => (a + x)%float) l 0%float.

(** [sum(l)] for a list of ints. *)
Definition sum_int (l : list Z) : Z :=
  fold_left Z.add l 0%Z.

(** [str(n)] for a non-negative int. *)
Definition str (n : nat) : string :=
  DecimalString.NilEmpty.string_of_uint (Nat.to_uint n).

End Py.
Import Py.

Notation "x <-? r ;; k" := (rbind r (fun x => k))
  (at level 61, r at next level, right associativity).

(* ================================================================== *)
(** * Metric aggregation and batch splitting *)
(* ================================================================== *)

Module Metrics.

(** [x / y if y > 0 else float('inf')] *)
Definition average_loss (x : float) (y : Z) : result float :=
  if (y >? 0)%Z then truediv_float_int x y else Ok inf.

(** [AverageLosses]: the comprehension over [zip(total_losses,
    total_examples)], evaluated left to right; [zip] stops at the end of
    the shorter list. *)
Fixpoint AverageLosses (total_losses : list float) (total_examples : list Z)
  : result (list float) :=
  match total_losses, total_examples with
  | x :: xs, y :: ys =>
      q <-? average_loss x y ;;
      r <-? AverageLosses xs ys ;;
      Ok (q :: r)
  | _, _ => Ok []
  end.

(** [sum(running_losses) / sum(examples)], the pooled average of lines
    119 and 146. *)
Definition pooled_average (losses : list float) (examples : list Z)
  : result float :=
  truediv_float_int (sum_float losses) (sum_int examples).

End Metrics.
Import Metrics.

(* ================================================================== *)
(** * The tensor operations of torch that the source calls *)
(* ================================================================== *)

Module Torch.

(** A dense tensor: its sizes and its elements in row-major order.  The
    element type is taken as binary64 (a [DoubleTensor]). *)
Record Tensor : Type := mkTensor {
  shape : list nat;
  data : list float
}.

Definition numel (s : list nat) : nat := fold_right Nat.mul 1 s.

Definition wf (t : Tensor) : Prop := length (data t) = numel (shape t).

(** [t.size()[0]] *)
Definition size0 (t : Tensor) : result Z :=
  d <-? index (shape t) 0 ;; Ok (Z.of_nat d).

(** The first [n] consecutive blocks of [k] elements of [d]. *)
Fixpoint chunks (n k : nat) (d : list float) : list (list float) :=
  match n with
  | O => []
  | S n' => firstn k d :: chunks n' k (skipn k d)
  end.

Fixpoint sequence_opt {A} (l : list (option A)) : option (list A) :=
  match l with
  | [] => Some []
  | Some a :: t => option_map (cons a) (sequence_opt t)
  | None :: _ => None
  end.

(** Expansion of row-major data from sizes [src] to sizes [tgt] of the
    same rank: a dimension keeps its size or has size 1 and is repeated. *)
Fixpoint expand_data (src tgt : list nat) (d : list float)
  : option (list float) :=
  match src, tgt with
  | [], [] => Some d
  | s :: ss, t :: ts =>
      if (s =? t)%nat then
        option_map (@concat float)
          (sequence_opt (map (expand_data ss ts) (chunks s (numel ss) d)))
      else if (s =? 1)%nat then
        option_map (fun r => concat (repeat r t)) (expand_data ss ts d)
      else None
  | _, _ => None
  end.

(** [t.expand(tgt)]: new dimensions are added in front. *)
Definition expand (t : Tensor) (tgt : list nat) : result Tensor :=
  let k := length tgt - length (shape t) in
  if (length tgt <? length (shape t))%nat then Raise RuntimeError
  else match expand_data (shape t) (skipn k tgt) (data t) with
       | Some r => Ok (mkTensor tgt (concat (repeat r (numel (firstn k tgt)))))
       | None => Raise RuntimeError
       end.

(** [t.expand_as(other)] *)
Definition expand_as (t other : Tensor) : result Tensor :=
  expand t (shape other).

(** The broadcast of two size lists, both written innermost first. *)
Fixpoint broadcast_rev (a b : list nat) : option (list nat) :=
  match a, b with
  | [], _ => Some b
  | _, [] => Some a
  | x :: a', y :: b' =>
      if (x =? y)%nat then option_map (cons x) (broadcast_rev a' b')
      else if (x =? 1)%nat then option_map (cons y) (broadcast_rev a' b')
      else if (y =? 1)%nat then option_map (cons x) (broadcast_rev a' b')
      else None
  end.

Definition broadcast_shapes (s1 s2 : list nat) : result (list nat) :=
  match broadcast_rev (rev s1) (rev s2) with
  | Some r => Ok (rev r)
  | None => Raise RuntimeError
  end.

Fixpoint zip_with (f : float -> float -> float) (a b : list float)
  : list float :=
  match a, b with
  | x :: a', y :: b' => f x y :: zip_with f a' b'
  | _, _ => []
  end.

(** An elementwise binary operation with broadcasting. *)
Definition binary (f : float -> float -> float) (a b : Tensor)
  : result Tensor :=
  s <-? broadcast_shapes (shape a) (shape b) ;;
  a' <-? expand a s ;;
  b' <-? expand b s ;;
  Ok (mkTensor s (zip_with f (data a') (data b'))).

Definition unary (f : float -> float) (a : Tensor) : Tensor :=
  mkTensor (shape a) (map f (data a)).

(** [torch.add], [torch.mul], [torch.neg]. *)
Definition add := binary PrimFloat.add.
Definition mul := binary PrimFloat.mul.
Definition neg := unary PrimFloat.opp.

(** [torch.pow(t, 2.0)]: the square of every element. *)
Definition pow2 := unary (fun x => (x * x)%float).

(** The number of elements as a float. *)
Definition float_of_size (n : nat) : float :=
  SF2Prim (binary_normalize prec emax (Z.of_nat n) 0 false).

(** The arithmetic mean of a list, summed left to right; [nan] for the
    empty list (0/0). *)
Definition mean_list (d : list float) : float :=
  (fold_left PrimFloat.add d 0 / float_of_size (length d))%float.

(** [torch.mean(t)]: a tensor of one element. *)
Definition mean (t : Tensor) : Tensor :=
  mkTensor [1] [mean_list (data t)].

(** [t.data[0]] of a one-dimensional tensor. *)
Definition data0 (t : Tensor) : result float := index (data t) 0.

End Torch.
Import Torch.

(* ================================================================== *)
(** * Loss adapters *)
(* ================================================================== *)

Module Loss.

(** [SingleLabelLoss(base_loss).forward] *)
Definition SingleLabelLoss {T W R}
  (base_loss : T -> T -> W -> result R)
  (predicted labels : list T) (weights : W) : result R :=
  if negb (length predicted =? 1)%nat then Raise AssertionError
  else if negb (length labels =? 1)%nat then Raise AssertionError
  else
    p <-? index predicted 0 ;;
    l <-? index labels 0 ;;
    base_loss p l weights.

(** [UnweightedLoss(base_loss).forward] *)
Definition UnweightedLoss {T W R}
  (base_loss : T -> T -> result R)
  (predicted labels : T) (weights : W) : result R :=
  base_loss predicted labels.

(** [WeightedMSELoss().forward] *)
Definition WeightedMSELoss (predicted labels weights : Tensor)
  : result Tensor :=
  s <-? add predicted (neg labels) ;;
  let diff_squares := pow2 s in
  w <-? expand_as weights labels ;;
  p <-? mul diff_squares w ;;
  Ok (mean p).

End Loss.

(* ================================================================== *)
(** * Batch transfer *)
(* ================================================================== *)

Module Batch.

(** [Variable(x).cuda()]: the same tensor value on the accelerator. *)
Definition Variable_cuda (x : Tensor) : Tensor := x.

(** [DataBatchToVariables] *)
Definition DataBatchToVariables (batch : list Tensor)
  (num_inputs num_labels : nat)
  : result (list Tensor * list Tensor * Tensor) :=
  if negb (length batch =? num_inputs + num_labels + 1)%nat
  then Raise AssertionError
  else
    let input_vars := map Variable_cuda (firstn num_inputs batch) in
    let label_vars :=
      map Variable_cuda
        (firstn num_labels (skipn num_inputs batch)) in
    w <-? index_last batch ;;
    Ok (input_vars, label_vars, Variable_cuda w).

End Batch.
Import Batch.

(* ================================================================== *)
(** * The training loop engine: [TrainModels] *)
(* ================================================================== *)

Module Engine.

Section WithEnvironment.

(** The state of a model's learnable parameters ([net.state_dict()]). *)
Variable Params : Type.
(** The value of the [k]-th call of [random.uniform(0.0, 1.0)]. *)
Variable uniform : nat -> float.
(** The value of the [k]-th call of [time.time()]. *)
Variable clock : nat -> float.

(** A model object: its input and label names, its parameters, the mode
    flag toggled by [net.train()] and [net.eval()], its residency, and
    its forward function [net(input_vars)] (which may raise). *)
Record Net : Type := mkNet {
  input_names : list string;
  label_names : list string;
  params : Params;
  training : bool;
  on_cuda : bool;
  net_forward : Params -> bool -> list Tensor -> result (list Tensor)
}.

(** [TrainSettings = namedtuple('TrainSettings', ['loss', 'optimizer',
    'epochs'])].  The optimizer is represented by its effect on the
    parameters of its model: the parameters after [loss_value.backward()]
    on a batch followed by [optimizer.step()]. *)
Record TrainSettings : Type := mkTrainSettings {
  loss : list Tensor -> list Tensor -> Tensor -> result Tensor;
  optimizer : Params -> list Tensor -> list Tensor -> Tensor -> Params;
  epochs : Z
}.

(** The dict built on lines 148-153. *)
Record EpochMetrics : Type := mkEpochMetrics {
  train_loss : float;
  val_loss : float;
  epoch_duration_sec : float;
  examples_per_sec : float
}.

(** The observable effects, in the order they happen. *)
Inductive Event : Type :=
| EvConfigure (log_dir : string)     (* tensorboard_logger.configure *)
| EvZeroGrad (i : nat)               (* train_settings[i].optimizer.zero_grad() *)
| EvForward (i : nat) (train_mode : bool)   (* nets[i](input_vars) *)
| EvBackward (i : nat)               (* loss_value.backward() *)
| EvStep (i : nat)                   (* train_settings[i].optimizer.step() *)
| EvEval (i : nat)                   (* nets[i].eval() *)
| EvTrain (i : nat)                  (* nets[i].train() *)
| EvCpu (i : nat)                    (* nets[i].cpu() *)
| EvCuda (i : nat)                   (* nets[i].cuda() *)
| EvSave (path : string) (state : Params)   (* torch.save(state_dict, path) *)
| EvPrint (epoch : nat) (m : EpochMetrics) (marker : string)
| EvLogValue (name : string) (value : float) (epoch : nat).

(** The mutable objects a run works on: the models (in the order of the
    list [nets], taken as pairwise distinct objects) and the positions in
    the two external streams. *)
Record World : Type := mkWorld {
  nets : list Net;
  rand_calls : nat;
  time_calls : nat
}.

(** A statement: from a world to the world after it, the events it
    caused, and its value or the exception it raised. *)
Definition M (A : Type) : Type := World -> World * list Event * result A.

Definition ret {A} (a : A) : M A := fun w => (w, [], Ok a).

Definition bind {A B} (m : M A) (k : A -> M B) : M B :=
  fun w =>
    match m w with
    | (w1, ev1, Ok a) =>
        match k a w1 with
        | (w2, ev2, r) => (w2, ev1 ++ ev2, r)
        end
    | (w1, ev1, Raise e) => (w1, ev1, Raise e)
    end.

Definition lift {A} (r : result A) : M A := fun w => (w, [], r).

Definition emit (e : Event) : M unit := fun w => (w, [e], Ok tt).

Notation "x <- m ;; k" := (bind m (fun x => k))
  (at level 61, m at next level, right associativity).
Notation "m ;;; k" := (bind m (fun _ => k))
  (at level 61, right associativity).

(** [for a in l: s = f(s, a)] *)
Fixpoint foldM {S A} (f : S -> A -> M S) (l : list A) (s : S) : M S :=
  match l with
  | [] => ret s
  | a :: t => s' <- f s a ;; foldM f t s'
  end.

(** [for a in l: f(a)] *)
Definition forM_ {A} (l : list A) (f : A -> M unit) : M unit :=
  foldM (fun _ a => f a) l tt.

Definition when (b : bool) (m : M unit) : M unit :=
  if b then m else ret tt.

(** ** Primitive statements *)

Definition random_uniform : M float :=
  fun w => (mkWorld (nets w) (S (rand_calls w)) (time_calls w), [],
            Ok (uniform (rand_calls w))).

Definition time_time : M float :=
  fun w => (mkWorld (nets w) (rand_calls w) (S (time_calls w)), [],
            Ok (clock (time_calls w))).

(** [len(nets)], the range of [enumerate(nets)]. *)
Definition num_nets : M nat := fun w => (w, [], Ok (length (nets w))).

Definition get_net (i : nat) : M Net := fun w => (w, [], index (nets w) i).

(** A method call that changes model [i] (a position that comes from
    [enumerate(nets)]). *)
Definition update_net (i : nat) (f : Net -> Net) : M unit :=
  fun w =>
    match nth_error (nets w) i with
    | Some n =>
        (mkWorld (set_index (nets w) i (f n)) (rand_calls w) (time_calls w),
         [], Ok tt)
    | None => (w, [], Raise IndexError)
    end.

Definition with_params (p : Params) (n : Net) : Net :=
  mkNet (input_names n) (label_names n) p (training n) (on_cuda n)
        (net_forward n).
Definition with_training (b : bool) (n : Net) : Net :=
  mkNet (input_names n) (label_names n) (params n) b (on_cuda n)
        (net_forward n).
Definition with_cuda (b : bool) (n : Net) : Net :=
  mkNet (input_names n) (label_names n) (params n) (training n) b
        (net_forward n).

(** [outputs = net(input_vars)] *)
Definition net_call (i : nat) (input_vars : list Tensor)
  : M (list Tensor) :=
  n <- get_net i ;;
  emit (EvForward i (training n)) ;;;
  lift (net_forward n (params n) (training n) input_vars).

Definition net_eval (i : nat) : M unit :=
  update_net i (with_training false) ;;; emit (EvEval i).
Definition net_train (i : nat) : M unit :=
  update_net i (with_training true) ;;; emit (EvTrain i).
Definition net_cpu (i : nat) : M unit :=
  update_net i (with_cuda false) ;;; emit (EvCpu i).
Definition net_cuda (i : nat) : M unit :=
  update_net i (with_cuda true) ;;; emit (EvCuda i).

(** [torch.save(net.state_dict(), path)] *)
Definition torch_save (i : nat) (path : string) : M unit :=
  n <- get_net i ;; emit (EvSave path (params n)).

(** [net.cpu(); torch.save(net.state_dict(), path); net.cuda()] *)
Definition save_checkpoint (i : nat) (path : string) : M unit :=
  net_cpu i ;;; torch_save i path ;;; net_cuda i.

Definition best_path (out_prefix : string) (i : nat) : string :=
  (out_prefix ++ "-" ++ str i ++ "-best.pth")%string.
Definition last_path (out_prefix : string) (i : nat) : string :=
  (out_prefix ++ "-" ++ str i ++ "-last.pth")%string.

(** [input_vars[0].size()[0]] *)
Definition batch_size_of (input_vars : list Tensor) : result Z :=
  v0 <-? index input_vars 0 ;; size0 v0.

(** The per-model accumulators of one pass: summed losses and example
    counts. *)
Definition Acc : Type := (list float * list Z)%type.

(** Lines 111-113 and 136-138: the accumulation of one batch for model
    [net_idx]. *)
Definition accumulate (acc : Acc) (net_idx : nat)
  (input_vars : list Tensor) (loss_value : Tensor) : result Acc :=
  let '(losses, examples) := acc in
  batch_size <-? batch_size_of input_vars ;;
  c <-? index examples net_idx ;;
  let examples := set_index examples net_idx (c + batch_size)%Z in
  r <-? index losses net_idx ;;
  l0 <-? data0 loss_value ;;
  p <-? mul_float_int l0 batch_size ;;
  Ok (set_index losses net_idx (r + p)%float, examples).

Section Run.

(** A data source is given by the batches one iteration over it yields;
    every epoch iterates it afresh. *)
Variable train_loader val_loader : list (list Tensor).
Variable train_settings : list TrainSettings.
Variable out_prefix : string.
Variable batch_use_prob : float.
Variable print_log : bool.
Variable log_dir : string.

(** Lines 101-113: model [net_idx] on one training batch. *)
Definition train_net (input_vars label_vars : list Tensor)
  (weights_var : Tensor) (acc : Acc) (net_idx : nat) : M Acc :=
  u <- random_uniform ;;
  if (u <? batch_use_prob)%float then
    outputs <- net_call net_idx input_vars ;;
    ts <- lift (index train_settings net_idx) ;;
    loss_value <- lift (loss ts outputs label_vars weights_var) ;;
    emit (EvBackward net_idx) ;;;
    update_net net_idx
      (fun n => with_params
         (optimizer ts (params n) input_vars label_vars weights_var) n) ;;;
    emit (EvStep net_idx) ;;;
    emit (EvZeroGrad net_idx) ;;;
    lift (accumulate acc net_idx input_vars loss_value)
  else ret acc.

(** Lines 96-113: one training batch. *)
Definition train_batch (num_inputs num_labels : nat) (acc : Acc)
  (training_batch : list Tensor) : M Acc :=
  v <- lift (DataBatchToVariables training_batch num_inputs num_labels) ;;
  let '(input_vars, label_vars, weights_var) := v in
  n <- num_nets ;;
  foldM (train_net input_vars label_vars weights_var) (seq 0 n) acc.

(** Lines 90-91 and 96-113: the training pass of one epoch, from fresh
    accumulators. *)
Definition train_phase (num_inputs num_labels : nat) : M Acc :=
  n <- num_nets ;;
  foldM (train_batch num_inputs num_labels) train_loader
        (repeat 0%float n, repeat 0%Z n).

(** Lines 132-138: model [net_idx] on one validation batch. *)
Definition val_net (input_vars label_vars : list Tensor)
  (weights_var : Tensor) (acc : Acc) (net_idx : nat) : M Acc :=
  outputs <- net_call net_idx input_vars ;;
  ts <- lift (index train_settings net_idx) ;;
  loss_value <- lift (loss ts outputs label_vars weights_var) ;;
  lift (accumulate acc net_idx input_vars loss_value).

(** Lines 127-138: one validation batch. *)
Definition val_batch (num_inputs num_labels : nat) (acc : Acc)
  (batch : list Tensor) : M Acc :=
  v <- lift (DataBatchToVariables batch num_inputs num_labels) ;;
  let '(input_vars, label_vars, weights_var) := v in
  n <- num_nets ;;
  foldM (val_net input_vars label_vars weights_var) (seq 0 n) acc.

(** Lines 121-141: the validation pass of one epoch. *)
Definition val_phase (num_inputs num_labels : nat) : M Acc :=
  n <- num_nets ;;
  forM_ (seq 0 n) net_eval ;;;
  acc <- foldM (val_batch num_inputs num_labels) val_loader
               (repeat 0%float n, repeat 0%Z n) ;;
  forM_ (seq 0 n) net_train ;;;
  ret acc.

(** Lines 162-167: the "best" checkpoint of model [net_idx]. *)
Definition checkpoint_net (validation_avg_losses : list float)
  (min_validation_losses : list float) (net_idx : nat) : M (list float) :=
  v <- lift (index validation_avg_losses net_idx) ;;
  m <- lift (index min_validation_losses net_idx) ;;
  if (v <? m)%float then
    save_checkpoint net_idx (best_path out_prefix net_idx) ;;;
    ret (set_index min_validation_losses net_idx v)
  else ret min_validation_losses.

(** Lines 161-167. *)
Definition checkpoint_best (validation_avg_losses : list float)
  (min_validation_losses : list float) : M (list float) :=
  n <- num_nets ;;
  foldM (checkpoint_net validation_avg_losses) (seq 0 n)
        min_validation_losses.

(** The variables that live across epochs. *)
Record LoopState : Type := mkLoopState {
  train_log : list EpochMetrics;
  min_validation_losses : list float;
  min_validation_loss : float
}.

(** Lines 84-86: the log and the minima before the first epoch, for [n]
    models. *)
Definition initial_state (n : nat) : LoopState :=
  mkLoopState [] (repeat inf n) inf.

(** Lines 90-176: the body of the epoch loop. *)
Definition run_epoch (num_inputs num_labels : nat) (st : LoopState)
  (epoch : nat) : M LoopState :=
  forM_ (seq 0 (length train_settings)) (fun i => emit (EvZeroGrad i)) ;;;
  epoch_start_time <- time_time ;;
  acc <- train_phase num_inputs num_labels ;;
  let '(running_losses, train_examples_per_net) := acc in
  epoch_end_time <- time_time ;;
  let epoch_duration := (epoch_end_time - epoch_start_time)%float in
  examples_per_sec <-
    lift (truediv_int_float (sum_int train_examples_per_net) epoch_duration) ;;
  avg_losses <- lift (AverageLosses running_losses train_examples_per_net) ;;
  avg_loss <- lift (pooled_average running_losses train_examples_per_net) ;;
  vacc <- val_phase num_inputs num_labels ;;
  let '(validation_total_losses, validation_examples) := vacc in
  validation_avg_losses <-
    lift (AverageLosses validation_total_losses validation_examples) ;;
  validation_avg_loss <-
    lift (pooled_average validation_total_losses validation_examples) ;;
  let epoch_metrics :=
    mkEpochMetrics avg_loss validation_avg_loss epoch_duration
                   examples_per_sec in
  let train_log := train_log st ++ [epoch_metrics] in
  let improved := (validation_avg_loss <? min_validation_loss st)%float in
  let val_improved_marker := if improved then " **"%string else ""%string in
  let min_validation_loss :=
    if improved then validation_avg_loss else min_validation_loss st in
  mins <- checkpoint_best validation_avg_losses (min_validation_losses st) ;;
  when print_log (emit (EvPrint epoch epoch_metrics val_improved_marker)) ;;;
  when (negb (log_dir =? "")%string)
    (emit (EvLogValue "train_loss" avg_loss epoch) ;;;
     emit (EvLogValue "val_loss" validation_avg_loss epoch)) ;;;
  ret (mkLoopState train_log mins min_validation_loss).

(** Lines 178-181. *)
Definition save_last : M unit :=
  n <- num_nets ;;
  forM_ (seq 0 n)
    (fun net_id => save_checkpoint net_id (last_path out_prefix net_id)).

(** Lines 89-176: the epoch loop, [for epoch in range(n_epochs)]. *)
Definition run_epochs (num_inputs num_labels : nat) (n_epochs : Z)
  (st : LoopState) : M LoopState :=
  foldM (run_epoch num_inputs num_labels) (seq 0 (Z.to_nat n_epochs)) st.

(** The body of [TrainModels], on the models of the world. *)
Definition TrainModels_body : M (list EpochMetrics) :=
  when (negb (log_dir =? "")%string) (emit (EvConfigure log_dir)) ;;;
  n <- num_nets ;;
  let st0 := initial_state n in
  net0 <- get_net 0 ;;
  let num_inputs := length (input_names net0) in
  let num_labels := length (label_names net0) in
  ts0 <- lift (index train_settings 0) ;;
  st <- run_epochs num_inputs num_labels (epochs ts0) st0 ;;
  save_last ;;;
  ret (train_log st).

(** [TrainModels(nets, train_loader, val_loader, train_settings,
    out_prefix, batch_use_prob, print_log, log_dir)]: the models after
    the call, the events of the run, and the returned log or the
    exception raised. *)
Definition TrainModels (nets0 : list Net)
  : list Net * list Event * result (list EpochMetrics) :=
  match TrainModels_body (mkWorld nets0 0 0) with
  | (w, ev, r) => (nets w, ev, r)
  end.

End Run.
End WithEnvironment.

End Engine.

Unset Implicit Arguments.

Arguments Engine.EvConfigure {Params} log_dir.
Arguments Engine.EvZeroGrad {Params} i.
Arguments Engine.EvForward {Params} i train_mode.
Arguments Engine.EvBackward {Params} i.
Arguments Engine.EvStep {Params} i.
Arguments Engine.EvEval {Params} i.
Arguments Engine.EvTrain {Params} i.
Arguments Engine.EvCpu {Params} i.
Arguments Engine.EvCuda {Params} i.
Arguments Engine.EvPrint {Params} epoch m marker.
Arguments Engine.EvLogValue {Params} name value epoch.

(* ================================================================== *)
(** * The specification's reading of the metrics *)
(* ================================================================== *)

Module SpecWords.

(** "per-model running_loss[i] / example_count[i]; if example_count[i]
    == 0, returns +infinity for that model". *)
Definition quotient_or_inf (running_loss : float) (example_count : Z)
  : result float :=
  if (example_count =? 0)%Z then Ok inf
  else truediv_float_int running_loss example_count.

(** "Weighted-MSE: elementwise squared difference between predicted and
    labels, multiplied by weights, then the mean". *)
Fixpoint weighted_squares (predicted labels weights : list float)
  : list float :=
  match predicted, labels, weights with
  | p :: ps, l :: ls, w :: ws =>
      ((p + - l) * (p + - l) * w)%float :: weighted_squares ps ls ws
  | _, _, _ => []
  end.

End SpecWords.

(* ================================================================== *)
(** * A small concrete setting: two models on one-dimensional data *)
(* ================================================================== *)

Module Example.
Import Engine Loss.

Definition vec (l : list float) : Tensor := mkTensor [length l] l.

(** Batches of one input, one label and the weights. *)
Definition batch_a : list Tensor :=
  [vec [1; 2]; vec [0; 2]; vec [2; 1]]%float.
Definition batch_b : list Tensor :=
  [vec [1; 2; 3]; vec [1; 2; 4]; vec [1; 1; 1]]%float.

(** A model that returns its input; its parameters count the optimizer
    steps taken. *)
Definition a_net : Net nat :=
  mkNet ["x"%string] ["y"%string] 0 true true (fun _ _ x => Ok x).

(** The same model under other names. *)
Definition renamed_net : Net nat :=
  mkNet ["u"%string; "v"%string] [] 0 true true (fun _ _ x => Ok x).

Definition settings (n_epochs : Z) : TrainSettings nat :=
  mkTrainSettings (SingleLabelLoss WeightedMSELoss)
                  (fun p _ _ _ => S p) n_epochs.

Definition half (k : nat) : float := 0.5%float.
Definition ticks (k : nat) : float :=
  SF2Prim (binary_normalize prec emax (Z.of_nat k) 0 false).

(** Two models, two epochs, two training batches and one validation
    batch, with console lines. *)
Abbreviation a_run :=
  (TrainModels half ticks [batch_a; batch_b] [batch_b]
     [settings 2; settings 7] "out" 1 true "" [a_net; a_net]).

(** The same with an empty validation data source. *)
Abbreviation a_run_without_validation :=
  (TrainModels half ticks [batch_a; batch_b] []
     [settings 2; settings 7] "out" 1 true "" [a_net; a_net]).

(** The same with [batch_use_prob = 0.0]. *)
Abbreviation a_run_without_training :=
  (TrainModels half ticks [batch_a; batch_b] [batch_b]
     [settings 2; settings 7] "out" 0 true "" [a_net; a_net]).

End Example.

(* ================================================================== *)
(** * Vocabulary for the statements about runs *)
(* ================================================================== *)

Module Observations.
Import Engine.

(** The number of examples of a batch: the leading size of its first
    input tensor (0 when it has none). *)
Definition examples_in (num_inputs : nat) (batch : list Tensor) : Z :=
  match batch_size_of (firstn num_inputs batch) with
  | Ok n => n
  | Raise _ => 0%Z
  end.

(** The total number of examples of a data source. *)
Definition dataset_size (num_inputs : nat) (loader : list (list Tensor))
  : Z :=
  fold_right Z.add 0%Z (map (examples_in num_inputs) loader).

Section Events.
Variable Params : Type.

Definition is_step (i : nat) (e : Event Params) : bool :=
  match e with EvStep j => (i =? j)%nat | _ => false end.

Definition is_backward (i : nat) (e : Event Params) : bool :=
  match e with EvBackward j => (i =? j)%nat | _ => false end.

Definition is_forward (i : nat) (e : Event Params) : bool :=
  match e with EvForward j _ => (i =? j)%nat | _ => false end.

Definition is_save (path : string) (e : Event Params) : bool :=
  match e with EvSave p _ => (path =? p)%string | _ => false end.

(** An event that writes no file and no console line. *)
Definition is_quiet (e : Event Params) : bool :=
  match e with EvSave _ _ | EvPrint _ _ _ => false | _ => true end.

(** The events of a gradient step: backward pass and optimizer step. *)
Definition is_gradient_event (e : Event Params) : bool :=
  match e with EvBackward _ | EvStep _ => true | _ => false end.

(** A forward pass made in evaluation mode. *)
Definition is_eval_forward (e : Event Params) : Prop :=
  exists i, e = EvForward i false.

(** The epoch and the metrics of the console lines, in order. *)
Fixpoint printed (ev : list (Event Params)) : list (nat * EpochMetrics) :=
  match ev with
  | [] => []
  | EvPrint epoch m _ :: t => (epoch, m) :: printed t
  | _ :: t => printed t
  end.

Definition count (p : Event Params -> bool) (ev : list (Event Params))
  : nat :=
  length (filter p ev).

(** The events of [net.cpu(); torch.save(...); net.cuda()] for model [i]
    with parameters [p]. *)
Definition checkpoint_events (path : string) (i : nat) (p : Params)
  : list (Event Params) :=
  [EvCpu i; EvSave path p; EvCuda i].

End Events.

Arguments is_step {Params} i e.
Arguments is_backward {Params} i e.
Arguments is_forward {Params} i e.
Arguments is_save {Params} path e.
Arguments is_gradient_event {Params} e.
Arguments is_quiet {Params} e.
Arguments is_eval_forward {Params} e.
Arguments printed {Params} ev.
Arguments count {Params} p ev.
Arguments checkpoint_events {Params} path i p.

Section Statements.
Variable Params : Type.

(** Every run of [m] from a world with the invariant [Inv] ends in a
    world with it and causes only events with the property [P]. *)
Definition always (Inv : World Params -> Prop) (P : Event Params -> Prop)
  {A} (m : M Params A) : Prop :=
  forall w w' ev r, Inv w -> m w = (w', ev, r) -> Inv w' /\ Forall P ev.

(** An update of one model that keeps the invariant. *)
Definition update_keeps (Inv : World Params -> Prop) (i : nat)
  (f : Net Params -> Net Params) : Prop :=
  forall w n, Inv w -> nth_error (nets w) i = Some n ->
    Inv (mkWorld (set_index (nets w) i (f n)) (rand_calls w) (time_calls w)).

(** There are [k] models. *)
Definition count_is (k : nat) (w : World Params) : Prop :=
  length (nets w) = k.

(** Every model is in evaluation mode. *)
Definition all_eval (w : World Params) : Prop :=
  Forall (fun n => training n = false) (nets w).

(** Every model is in train mode. *)
Definition all_train (w : World Params) : Prop :=
  Forall (fun n => training n = true) (nets w).

(** The minima of [k] models, none of them a NaN. *)
Definition mins_ok (k : nat) (st : LoopState) : Prop :=
  length (min_validation_losses st) = k /\
  Forall (fun m => (m <=? m)%float = true) (min_validation_losses st).

(** An event that is neither a console line nor the write of a "last"
    checkpoint. *)
Definition not_last (out_prefix : string) (e : Event Params) : Prop :=
  printed [e] = [] /\
  forall i, is_save (last_path out_prefix i) e = false.

(** Two models that differ at most in their input and label names. *)
Definition same_model (n n' : Net Params) : Prop :=
  params n = params n' /\ training n = training n' /\
  on_cuda n = on_cuda n' /\ net_forward n = net_forward n'.

(** Two worlds whose models differ at most in their names. *)
Definition same_world (w w' : World Params) : Prop :=
  Forall2 same_model (nets w) (nets w') /\
  rand_calls w = rand_calls w' /\ time_calls w = time_calls w'.

(** Two settings that differ at most in their epoch count. *)
Definition same_settings (ts ts' : TrainSettings Params) : Prop :=
  loss ts = loss ts' /\ optimizer ts = optimizer ts'.

(** Two outcomes: the same exception, or values related by [Q]. *)
Definition result_rel {A} (Q : A -> A -> Prop) (r r' : result A) : Prop :=
  match r, r' with
  | Ok a, Ok a' => Q a a'
  | Raise e, Raise e' => e = e'
  | _, _ => False
  end.

(** From worlds that differ at most in names, [m] and [m'] cause the
    same events, end in such worlds again, and have related outcomes. *)
Definition sim_rel {A} (Q : A -> A -> Prop) (m m' : M Params A) : Prop :=
  forall w w' w1 ev r,
    same_world w w' -> m w = (w1, ev, r) ->
    exists w1' r', m' w' = (w1', ev, r') /\ same_world w1 w1' /\
                   result_rel Q r r'.

(** What lines 132-138 add to the summed loss of a model [n] with
    settings [ts]: [loss_value.data[0] * batch_size]. *)
Definition step_contribution (n : Net Params) (ts : TrainSettings Params)
  (input_vars label_vars : list Tensor) (weights_var : Tensor)
  : result float :=
  outputs <-? net_forward n (params n) (training n) input_vars ;;
  loss_value <-? loss ts outputs label_vars weights_var ;;
  batch_size <-? batch_size_of input_vars ;;
  l0 <-? data0 loss_value ;;
  mul_float_int l0 batch_size.

(** The same for a batch as the data source yields it. *)
Definition contribution (n : Net Params) (ts : TrainSettings Params)
  (num_inputs num_labels : nat) (batch : list Tensor) : result float :=
  v <-? DataBatchToVariables batch num_inputs num_labels ;;
  let '(input_vars, label_vars, weights_var) := v in
  step_contribution n ts input_vars label_vars weights_var.

(** The shape shared by lines 96-113 and lines 127-138: split the batch,
    then run [f] for every model in turn. *)
Definition pass_batch
  (f : list Tensor -> list Tensor -> Tensor -> Acc -> nat -> M Params Acc)
  (num_inputs num_labels : nat) (acc : Acc) (batch : list Tensor)
  : M Params Acc :=
  bind (lift (DataBatchToVariables batch num_inputs num_labels)) (fun v =>
  let '(input_vars, label_vars, weights_var) := v in
  bind (@num_nets Params) (fun n =>
  foldM (f input_vars label_vars weights_var) (seq 0 n) acc)).

End Statements.

Arguments always {Params} Inv P {A} m.
Arguments update_keeps {Params} Inv i f.
Arguments count_is {Params} k w.
Arguments all_eval {Params} w.
Arguments all_train {Params} w.
Arguments step_contribution {Params} n ts input_vars label_vars weights_var.
Arguments contribution {Params} n ts num_inputs num_labels batch.
Arguments same_model {Params} n n'.
Arguments same_world {Params} w w'.
Arguments same_settings {Params} ts ts'.
Arguments sim_rel {Params A} Q m m'.
Arguments not_last {Params} out_prefix e.
Arguments pass_batch {Params} f num_inputs num_labels acc batch.

Definition is_digit (c : ascii) : bool :=
  match c with
  | "0" | "1" | "2" | "3" | "4" | "5" | "6" | "7" | "8" | "9" => true
  | _ => false
  end%char.

Fixpoint all_digits (s : string) : bool :=
  match s with
  | EmptyString => true
  | String c t => is_digit c && all_digits t
  end.

(** The order of floats as a proposition. *)
Definition fle (a b : float) : Prop := (a <=? b)%float = true.

End Observations.

(* ================================================================== *)
(** * The weighted MSE loss in the words of the specification *)
(* ================================================================== *)

Module LossWords.
Import SpecWords.

(** "the mean over all elements of (predicted - label)^2 multiplied
    elementwise by the broadcast weights", for tensors of any sizes: the
    weights are broadcast to the label sizes, the three tensors are
    brought to the sizes that predicted and labels have in common, and
    the weighted squares are taken position by position; there is no
    value when the sizes do not fit. *)
Definition weighted_mse (predicted labels weights : Tensor) : result float :=
  w <-? expand_as weights labels ;;
  s <-? broadcast_shapes (shape predicted) (shape labels) ;;
  p' <-? expand predicted s ;;
  l' <-? expand labels s ;;
  w' <-? expand w s ;;
  Ok (mean_list (weighted_squares (data p') (data l') (data w'))).

End LossWords.

(* ================================================================== *)
(** * The call before its final loop *)
(* ================================================================== *)

Module BeforeLast.
Import Engine.

Section Run.
Variable Params : Type.
Variable uniform clock : nat -> float.
Variable train_loader val_loader : list (list Tensor).
Variable train_settings : list (TrainSettings Params).
Variable out_prefix : string.
Variable batch_use_prob : float.
Variable print_log : bool.
Variable log_dir : string.

Local Notation "x <- m ;; k" := (bind m (fun x => k))
  (at level 61, m at next level, right associativity).
Local Notation "m ;;; k" := (bind m (fun _ => k))
  (at level 61, right associativity).

(** Lines 81-176 of [TrainModels]: the statements of the call before
    the final loop of lines 178-181, that is the configuration of the
    logger, the initial values and the epoch loop; the result is the
    state the epoch loop ends in. *)
Definition TrainModels_epochs : M Params LoopState :=
  when (negb (log_dir =? "")%string) (emit (EvConfigure log_dir)) ;;;
  n <- @num_nets Params ;;
  let st0 := initial_state n in
  net0 <- get_net 0 ;;
  let num_inputs := length (input_names net0) in
  let num_labels := length (label_names net0) in
  ts0 <- lift (index train_settings 0) ;;
  run_epochs uniform clock train_loader val_loader train_settings
    out_prefix batch_use_prob print_log log_dir
    num_inputs num_labels (epochs ts0) st0.

End Run.

Arguments TrainModels_epochs {Params} uniform clock train_loader val_loader
  train_settings out_prefix batch_use_prob print_log log_dir.

End BeforeLast.

(* ================================================================== *)
(** * Vocabulary for the statements about whole runs *)
(* ================================================================== *)

Module Outcomes.
Import Engine Observations.

Section Events.
Variable Params : Type.

(** The events of lines 178-181 for the models [ns]: for each model in
    turn, to the host, the write of its "last" file with its parameters,
    and back to the accelerator. *)
Definition last_checkpoints (out_prefix : string) (ns : list (Net Params))
  : list (Event Params) :=
  concat (map (fun ip => checkpoint_events (last_path out_prefix (fst ip))
                                           (fst ip) (params (snd ip)))
              (combine (seq 0 (length ns)) ns)).

(** An event that does not write a "last" file. *)
Definition writes_no_last (out_prefix : string) (e : Event Params) : Prop :=
  forall i, is_save (last_path out_prefix i) e = false.

(** What [tensorboard_logger.configure] contributes to the events. *)
Definition configure_events (log_dir : string) : list (Event Params) :=
  if negb (log_dir =? "")%string then [EvConfigure log_dir] else [].

End Events.

Arguments last_checkpoints {Params} out_prefix ns.
Arguments writes_no_last {Params} out_prefix e.
Arguments configure_events {Params} log_dir.

End Outcomes.

Module Hooks.
Import Engine Observations.

Section Events.
Variable Params : Type.

(** An event of one of the two observability hooks: the tensorboard
    logger (lines 82, 175, 176) or the console line (line 171). *)
Definition is_hook (e : Event Params) : bool :=
  match e with
  | EvConfigure _ | EvPrint _ _ _ | EvLogValue _ _ _ => true
  | _ => false
  end.

(** The events of a run other than those of the hooks. *)
Definition without_hooks (ev : list (Event Params)) : list (Event Params) :=
  filter (fun e => negb (is_hook e)) ev.

(** From every world, [m'] ends in the same world with the same outcome
    as [m], and causes the same events apart from those of the hooks. *)
Definition same_but_hooks {A} (m m' : M Params A) : Prop :=
  forall w w1 ev r,
    m w = (w1, ev, r) ->
    exists ev', m' w = (w1, ev', r) /\ without_hooks ev' = without_hooks ev.

End Events.

Arguments is_hook {Params} e.
Arguments without_hooks {Params} ev.
Arguments same_but_hooks {Params A} m m'.

End Hooks.

Module Sink.
Import Engine Observations.

Section Events.
Variable Params : Type.

(** The values sent to [tensorboard_logger.log_value] under [name], each
    with its step, in order. *)
Fixpoint logged (name : string) (ev : list (Event Params))
  : list (nat * float) :=
  match ev with
  | [] => []
  | EvLogValue n v epoch :: t =>
      if (n =? name)%string then (epoch, v) :: logged name t
      else logged name t
  | _ :: t => logged name t
  end.

(** The directories given to [tensorboard_logger.configure], in order. *)
Fixpoint configured (ev : list (Event Params)) : list string :=
  match ev with
  | [] => []
  | EvConfigure d :: t => d :: configured t
  | _ :: t => configured t
  end.

End Events.

Arguments logged {Params} name ev.
Arguments configured {Params} ev.

End Sink.

(* ================================================================== *)
(** * Training one model alone *)
(* ================================================================== *)

Module Alone.
Import Engine Observations.

Section Model.
Variable Params : Type.

(** One model in a training pass: the model object, its summed loss, its
    example count and the optimizer steps it has taken. *)
Record ModelRun : Type := mkModelRun {
  run_net : Net Params;
  run_loss : float;
  run_examples : Z;
  run_steps : nat
}.

Variable uniform : nat -> float.
Variable train_settings : list (TrainSettings Params).
Variable batch_use_prob : float.
Variable num_inputs num_labels : nat.

(** Lines 97-98 and 103-113 for the model at position [net_idx], on its
    own: forward pass, loss, backward pass and optimizer step, then the
    statistics. *)
Definition model_step (net_idx : nat) (training_batch : list Tensor)
  (s : ModelRun) : result ModelRun :=
  v <-? DataBatchToVariables training_batch num_inputs num_labels ;;
  let '(input_vars, label_vars, weights_var) := v in
  let net := run_net s in
  outputs <-? net_forward net (params net) (training net) input_vars ;;
  ts <-? index train_settings net_idx ;;
  loss_value <-? loss ts outputs label_vars weights_var ;;
  let net' :=
    with_params
      (optimizer ts (params net) input_vars label_vars weights_var) net in
  batch_size <-? batch_size_of input_vars ;;
  l0 <-? data0 loss_value ;;
  p <-? mul_float_int l0 batch_size ;;
  Ok (mkModelRun net' (run_loss s + p)%float
                 (run_examples s + batch_size)%Z (S (run_steps s))).

(** The training pass of the model at position [net_idx] of [n] models,
    on its own: it takes the batches whose draw is below
    [batch_use_prob]; [r] is the number of the draw of the first model on
    the first batch, and each batch uses [n] draws. *)
Fixpoint train_alone (n net_idx r : nat) (loader : list (list Tensor))
  (s : ModelRun) : result ModelRun :=
  match loader with
  | [] => Ok s
  | training_batch :: rest =>
      s' <-? (if (uniform (r + net_idx) <? batch_use_prob)%float
              then model_step net_idx training_batch s
              else Ok s) ;;
      train_alone n net_idx (r + n) rest s'
  end.

(** In the world [w] and the accumulators [acc], position [i] holds the
    model, the summed loss and the count of [s]. *)
Definition slot (w : World Params) (acc : Acc) (i : nat) (s : ModelRun)
  : Prop :=
  nth_error (nets w) i = Some (run_net s) /\
  nth_error (fst acc) i = Some (run_loss s) /\
  nth_error (snd acc) i = Some (run_examples s).

End Model.

Arguments mkModelRun {Params} run_net run_loss run_examples run_steps.
Arguments run_net {Params} m.
Arguments run_loss {Params} m.
Arguments run_examples {Params} m.
Arguments run_steps {Params} m.
Arguments model_step {Params} train_settings num_inputs num_labels
  net_idx training_batch s.
Arguments train_alone {Params} uniform train_settings batch_use_prob
  num_inputs num_labels n net_idx r loader s.
Arguments slot {Params} w acc i s.

End Alone.

(* ================================================================== *)
(** * Signs of binary64 values *)
(* ================================================================== *)

Module Signs.

(** The sign bit of [x] is [s], or [x] is not a number. *)
Definition has_sign (s : bool) (x : spec_float) : bool :=
  match x with
  | S754_nan => true
  | S754_zero s' | S754_infinity s' | S754_finite s' _ _ => Bool.eqb s' s
  end.

(** [x] is not below zero: a zero of either sign, a positive number,
    [+inf] or not a number. *)
Definition not_below_zero (x : spec_float) : bool :=
  match x with
  | S754_nan | S754_zero _ => true
  | S754_infinity s | S754_finite s _ _ => negb s
  end.

End Signs.

(* ================================================================== *)
(** * Further example data *)
(* ================================================================== *)

Module Scenario.
Import Engine Loss Example.

(** A stream of draws that is below 0.5 at the calls 0, 3, 6, ... *)
Definition thirds (k : nat) : float :=
  if (k mod 3 =? 0)%nat then 0.25%float else 0.75%float.

(** A batch that is too short: one tensor, no label, no weights. *)
Definition short_batch : list Tensor := [vec [1]%float].

(** The run of two models for two epochs with the logger on and the
    console lines off. *)
Abbreviation a_logged_run :=
  (TrainModels half ticks [batch_a; batch_b] [batch_b]
     [settings 2; settings 7] "out" 1 false "tb" [a_net; a_net]).

(** The first epoch of the run of two models. *)
Abbreviation an_epoch :=
  (run_epoch half ticks [batch_a; batch_b] [batch_b]
     [settings 2; settings 7] "out" 1 true "" 1 1 (initial_state 2) 0
     (mkWorld [a_net; a_net] 0 0)).

End Scenario.

(* ================================================================== *)
(** * Properties of the metric aggregation *)
(* ================================================================== *)

Module MetricsFacts.
Import SpecWords.

Lemma rbind_Ok {A B} (r : result A) (k : A -> result B) (b : B) :
  rbind r k = Ok b -> exists a, r = Ok a /\ k a = Ok b.
Proof. destruct r as [a|e]; simpl; intros H; [eauto | discriminate]. Qed.

Lemma AverageLosses_cons x xs y ys :
  AverageLosses (x :: xs) (y :: ys) =
  rbind (average_loss x y) (fun q =>
  rbind (AverageLosses xs ys) (fun r => Ok (q :: r))).
Proof. reflexivity. Qed.

Lemma AverageLosses_length xs : forall ys qs,
  AverageLosses xs ys = Ok qs -> length qs = Nat.min (length xs) (length ys).
Proof.
  induction xs as [|x xs IH]; intros [|y ys] qs H; simpl in H;
    try (injection H as <-; reflexivity).
  apply rbind_Ok in H as (q & _ & H).
  apply rbind_Ok in H as (r & Hr & H).
  injection H as <-. simpl. f_equal. now apply IH.
Qed.

(** On counts that are not negative the guard [y > 0] of the source and
    the guard [== 0] of the specification select the same branch. *)
Lemma average_loss_quotient x y :
  (0 <= y)%Z -> average_loss x y = quotient_or_inf x y.
Proof.
  intros Hy. unfold average_loss, quotient_or_inf.
  destruct (Z.eqb_spec y 0) as [->|Hne]; [reflexivity|].
  destruct (Z.gtb_spec y 0); [reflexivity | lia].
Qed.

Lemma AverageLosses_elementwise xs : forall ys qs,
  length xs = length ys ->
  Forall (fun y => 0 <= y)%Z ys ->
  (AverageLosses xs ys = Ok qs <->
   length qs = length xs /\
   forall i x y, nth_error xs i = Some x -> nth_error ys i = Some y ->
     exists q, nth_error qs i = Some q /\ quotient_or_inf x y = Ok q).
Proof.
  induction xs as [|x xs IH]; intros [|y ys] qs Hlen Hpos;
    try discriminate Hlen.
  - simpl. split.
    + intros H. injection H as <-. split; [reflexivity|].
      intros [|i] ? ? ?; discriminate.
    + intros [Hq _]. destruct qs; [reflexivity | discriminate].
  - injection Hlen as Hlen. inversion Hpos as [|? ? Hy Hpos']; subst.
    rewrite AverageLosses_cons, average_loss_quotient by assumption.
    split.
    + intros H. apply rbind_Ok in H as (q & Hq & H).
      apply rbind_Ok in H as (r & Hr & H). injection H as <-.
      apply (IH ys r Hlen Hpos') in Hr as [Hrl Hr].
      split; [simpl; now f_equal|].
      intros [|i] x' y' Hx Hy'; simpl in *.
      * injection Hx as <-. injection Hy' as <-. eauto.
      * eauto.
    + intros [Hql Hq]. destruct qs as [|q r]; [discriminate|].
      injection Hql as Hql.
      destruct (Hq 0 x y eq_refl eq_refl) as (q' & Hq' & ->).
      injection Hq' as <-. simpl.
      assert (Hr : AverageLosses xs ys = Ok r).
      { apply (IH ys r Hlen Hpos'). split; [assumption|].
        intros i x' y' Hx Hy'. exact (Hq (S i) x' y' Hx Hy'). }
      now rewrite Hr.
Qed.

(** C6. [AverageLosses] is a function of its two arguments alone; on
    lists of equal length of summed losses and (non-negative) example
    counts it returns exactly the list of Python quotients
    [running_loss[i] / example_count[i]], with [+infinity] at every index
    whose count is 0; [AverageLosses([10.0], [5]) == [2.0]] and
    [AverageLosses([10.0], [0]) == [inf]]. *)
Theorem AverageLosses_spec :
  (forall xs ys qs,
     length xs = length ys ->
     Forall (fun y => 0 <= y)%Z ys ->
     (AverageLosses xs ys = Ok qs <->
      length qs = length xs /\
      forall i x y, nth_error xs i = Some x -> nth_error ys i = Some y ->
        exists q, nth_error qs i = Some q /\
                  (y = 0%Z -> q = inf) /\
                  quotient_or_inf x y = Ok q)) /\
  AverageLosses [10.0%float] [5%Z] = Ok [2.0%float] /\
  AverageLosses [10.0%float] [0%Z] = Ok [inf].
Proof.
  split; [|split; reflexivity].
  intros xs ys qs Hlen Hpos.
  rewrite (AverageLosses_elementwise xs ys qs Hlen Hpos).
  split; intros [Hl H]; (split; [exact Hl|]); intros i x y Hx Hy;
    destruct (H i x y Hx Hy) as (q & Hq & Hs).
  - exists q. repeat split; try assumption.
    intros ->. unfold quotient_or_inf in Hs. simpl in Hs. now injection Hs.
  - exists q. tauto.
Qed.

Lemma AverageLosses_spec_witness :
  AverageLosses [6.0%float; 1.0%float] [3%Z; 0%Z] = Ok [2.0%float; inf] <->
  length [2.0%float; inf] = length [6.0%float; 1.0%float] /\
  forall i x y,
    nth_error [6.0%float; 1.0%float] i = Some x ->
    nth_error [3%Z; 0%Z] i = Some y ->
    exists q, nth_error [2.0%float; inf] i = Some q /\
              (y = 0%Z -> q = inf) /\ quotient_or_inf x y = Ok q.
Proof.
  apply (proj1 AverageLosses_spec).
  - reflexivity.
  - repeat constructor; lia.
Defined.

Lemma AverageLosses_firstn xs : forall ys,
  AverageLosses xs ys =
  AverageLosses (firstn (Nat.min (length xs) (length ys)) xs)
                (firstn (Nat.min (length xs) (length ys)) ys).
Proof.
  induction xs as [|x xs IH]; intros [|y ys]; try reflexivity.
  simpl Nat.min. simpl firstn. rewrite !AverageLosses_cons.
  now rewrite <- IH.
Qed.

(** C10. On lists of different lengths [AverageLosses] does not fail on
    the mismatch: its outcome is the one on both lists cut to the
    shorter length, the entries beyond are ignored, and a returned list
    has the shorter length. *)
Theorem AverageLosses_unequal_lengths :
  (forall xs ys,
     AverageLosses xs ys =
     AverageLosses (firstn (Nat.min (length xs) (length ys)) xs)
                   (firstn (Nat.min (length xs) (length ys)) ys)) /\
  (forall xs ys qs,
     AverageLosses xs ys = Ok qs ->
     length qs = Nat.min (length xs) (length ys)) /\
  (forall xs ys extra, length xs = length ys ->
     AverageLosses (xs ++ extra) ys = AverageLosses xs ys) /\
  (forall xs ys extra, length xs = length ys ->
     AverageLosses xs (ys ++ extra) = AverageLosses xs ys) /\
  AverageLosses [10.0%float; 3.0%float] [5%Z] = Ok [2.0%float] /\
  AverageLosses [10.0%float] [5%Z; 0%Z; 7%Z] = Ok [2.0%float].
Proof.
  split; [exact AverageLosses_firstn|].
  split; [intros xs ys qs; apply AverageLosses_length|].
  split; [|split; [|split; reflexivity]].
  - intros xs ys extra Hlen.
    rewrite (AverageLosses_firstn (xs ++ extra) ys).
    rewrite length_app, <- Hlen, Nat.min_r by lia.
    rewrite firstn_app, Nat.sub_diag, firstn_O, app_nil_r.
    rewrite firstn_all. rewrite Hlen at 1. now rewrite firstn_all.
  - intros xs ys extra Hlen.
    rewrite (AverageLosses_firstn xs (ys ++ extra)).
    rewrite length_app, Hlen, Nat.min_l by lia.
    rewrite firstn_app, Nat.sub_diag, firstn_O, app_nil_r.
    rewrite firstn_all. rewrite <- Hlen. now rewrite firstn_all.
Qed.

Lemma AverageLosses_unequal_lengths_witness :
  AverageLosses ([10.0%float] ++ [3.0%float; 4.0%float]) [5%Z] =
  AverageLosses [10.0%float] [5%Z].
Proof.
  apply (proj1 (proj2 (proj2 AverageLosses_unequal_lengths))). reflexivity.
Defined.

(** The pooled average has no guard on the divisor: a zero total count
    raises. *)
Lemma pooled_average_zero losses examples :
  sum_int examples = 0%Z ->
  pooled_average losses examples = Raise ZeroDivisionError.
Proof. unfold pooled_average. intros ->. reflexivity. Qed.

Lemma pooled_average_nonzero losses examples q :
  pooled_average losses examples = Ok q ->
  sum_int examples <> 0%Z /\
  exists n, float_of_int (sum_int examples) = Ok n /\
            q = (sum_float losses / n)%float.
Proof.
  unfold pooled_average, truediv_float_int. intros H.
  apply rbind_Ok in H as (n & Hn & H).
  split.
  - intros Hz. rewrite Hz in Hn. vm_compute in Hn. injection Hn as <-.
    discriminate H.
  - exists n. split; [assumption|].
    destruct (n =? 0)%float; [discriminate | now injection H].
Qed.

End MetricsFacts.

(* ================================================================== *)
(** * Properties of the batch transfer *)
(* ================================================================== *)

Module BatchFacts.

Lemma map_Variable_cuda l : map Variable_cuda l = l.
Proof. unfold Variable_cuda. apply map_id. Qed.

Lemma index_last_app {A} (l : list A) (w : A) : index_last (l ++ [w]) = Ok w.
Proof.
  unfold index_last, index.
  destruct (l ++ [w]) eqn:E; [now destruct l|]. rewrite <- E.
  rewrite length_app. simpl.
  replace (length l + 1 - 1) with (length l) by lia.
  now rewrite nth_error_app2, Nat.sub_diag by lia.
Qed.

(** A list of [n + 1] elements is its first [n] elements and one more. *)
Lemma split_last {A} (n : nat) : forall l : list A,
  length l = n + 1 -> exists w, l = firstn n l ++ [w].
Proof.
  induction n as [|n IH]; intros [|a l] H; try discriminate H.
  - destruct l; [now exists a | discriminate H].
  - injection H as H. destruct (IH l H) as [w Hw].
    exists w. simpl. now rewrite <- Hw.
Qed.

(** C3. A batch of exactly [num_inputs + num_labels + 1] tensors is split
    into its first [num_inputs] elements, the next [num_labels] elements
    and its final element, which together are the whole batch; a batch
    of any other length fails the assertion. *)
Theorem DataBatchToVariables_spec (batch : list Tensor)
  (num_inputs num_labels : nat) :
  (length batch = num_inputs + num_labels + 1 ->
   exists inputs labels weights,
     DataBatchToVariables batch num_inputs num_labels
       = Ok (inputs, labels, weights) /\
     inputs = firstn num_inputs batch /\
     labels = firstn num_labels (skipn num_inputs batch) /\
     index_last batch = Ok weights /\
     batch = inputs ++ labels ++ [weights] /\
     length inputs = num_inputs /\ length labels = num_labels /\
     length inputs + length labels + 1 = length batch) /\
  (length batch <> num_inputs + num_labels + 1 ->
   DataBatchToVariables batch num_inputs num_labels = Raise AssertionError).
Proof.
  unfold DataBatchToVariables. split; intros H.
  - rewrite (proj2 (Nat.eqb_eq _ _) H). simpl negb. cbv iota.
    rewrite !map_Variable_cuda.
    pose proof (firstn_skipn num_inputs batch) as Hsplit.
    assert (Hin : length (firstn num_inputs batch) = num_inputs)
      by (rewrite length_firstn; lia).
    assert (Hrest : length (skipn num_inputs batch) = num_labels + 1)
      by (rewrite length_skipn; lia).
    destruct (split_last num_labels _ Hrest) as [w Hw].
    assert (Hlab : length (firstn num_labels (skipn num_inputs batch))
                   = num_labels)
      by (rewrite length_firstn; lia).
    assert (Hb : batch = firstn num_inputs batch
                         ++ firstn num_labels (skipn num_inputs batch) ++ [w])
      by (rewrite <- Hw; now symmetry).
    assert (Hlast : index_last batch = Ok w).
    { rewrite Hb at 1. rewrite app_assoc. apply index_last_app. }
    rewrite Hlast. simpl.
    exists (firstn num_inputs batch),
           (firstn num_labels (skipn num_inputs batch)), w.
    unfold Variable_cuda. repeat split; try assumption; try reflexivity.
    lia.
  - now rewrite (proj2 (Nat.eqb_neq _ _) H).
Qed.

Lemma DataBatchToVariables_spec_witness :
  (exists inputs labels weights,
     DataBatchToVariables Example.batch_a 1 1 = Ok (inputs, labels, weights) /\
     inputs = firstn 1 Example.batch_a /\
     labels = firstn 1 (skipn 1 Example.batch_a) /\
     index_last Example.batch_a = Ok weights /\
     Example.batch_a = inputs ++ labels ++ [weights] /\
     length inputs = 1 /\ length labels = 1 /\
     length inputs + length labels + 1 = length Example.batch_a) /\
  DataBatchToVariables Example.batch_a 2 1 = Raise AssertionError.
Proof.
  split.
  - apply (proj1 (DataBatchToVariables_spec Example.batch_a 1 1)).
    reflexivity.
  - apply (proj2 (DataBatchToVariables_spec Example.batch_a 2 1)).
    simpl. lia.
Defined.

End BatchFacts.

(* ================================================================== *)
(** * Properties of the tensor operations and of the weighted MSE loss *)
(* ================================================================== *)

Module LossFacts.
Import Loss SpecWords.

Lemma numel_app a b : numel (a ++ b) = numel a * numel b.
Proof.
  induction a as [|x a IH]; simpl; [lia|]. rewrite IH. lia.
Qed.

Lemma chunks_lengths n k : forall d,
  length d = n * k -> Forall (fun c => length c = k) (chunks n k d).
Proof.
  induction n as [|n IH]; intros d H; simpl; constructor.
  - rewrite length_firstn. simpl in H. lia.
  - apply IH. rewrite length_skipn. simpl in H. lia.
Qed.

Lemma chunks_concat n k : forall d,
  length d = n * k -> concat (chunks n k d) = d.
Proof.
  induction n as [|n IH]; intros d H; simpl.
  - simpl in H. now destruct d.
  - rewrite IH by (rewrite length_skipn; simpl in H; lia).
    apply firstn_skipn.
Qed.

Lemma chunks_count n k d : length (chunks n k d) = n.
Proof. revert d. induction n; intros d; simpl; [reflexivity | now f_equal]. Qed.

Lemma sequence_opt_map_same {A} (f : A -> option A) l :
  Forall (fun c => f c = Some c) l -> sequence_opt (map f l) = Some l.
Proof.
  induction 1 as [|c l Hc _ IH]; simpl; [reflexivity|].
  now rewrite Hc, IH.
Qed.

Lemma sequence_opt_map_Some {A B} (f : A -> option B) l : forall rs,
  sequence_opt (map f l) = Some rs -> Forall2 (fun c r => f c = Some r) l rs.
Proof.
  induction l as [|c l IH]; intros rs H; simpl in H.
  - injection H as <-. constructor.
  - destruct (f c) as [r|] eqn:Hc; [|discriminate].
    destruct (sequence_opt (map f l)) as [rs'|]; [|discriminate].
    injection H as <-. constructor; auto.
Qed.

Lemma concat_length_uniform {A} (k : nat) (l : list (list A)) :
  Forall (fun c => length c = k) l -> length (concat l) = length l * k.
Proof.
  induction 1 as [|c l Hc _ IH]; simpl; [reflexivity|].
  rewrite length_app, IH, Hc. reflexivity.
Qed.

Lemma concat_repeat_length {A} (r : list A) n :
  length (concat (repeat r n)) = n * length r.
Proof.
  rewrite (concat_length_uniform (length r)).
  - now rewrite repeat_length.
  - apply Forall_forall. intros c Hc. now rewrite (repeat_spec _ _ _ Hc).
Qed.

(** Expanding to the sizes a tensor already has leaves its data as it
    is. *)
Lemma expand_data_same s : forall d,
  length d = numel s -> expand_data s s d = Some d.
Proof.
  induction s as [|a ss IH]; intros d H; simpl; [reflexivity|].
  rewrite Nat.eqb_refl. simpl in H.
  rewrite sequence_opt_map_same.
  - simpl. now rewrite chunks_concat.
  - eapply Forall_impl; [|apply chunks_lengths; exact H].
    intros c Hc. now apply IH.
Qed.

(** Expanded data has as many elements as the target sizes say. *)
Lemma expand_data_length src : forall tgt d r,
  length d = numel src -> expand_data src tgt d = Some r ->
  length r = numel tgt.
Proof.
  induction src as [|s ss IH]; intros [|t ts] d r Hd H; simpl in H;
    try discriminate H.
  - injection H as <-. exact Hd.
  - simpl in Hd. destruct (Nat.eqb_spec s t) as [->|Hst].
    + destruct (sequence_opt _) as [rs|] eqn:Hrs; [|discriminate H].
      injection H as <-. apply sequence_opt_map_Some in Hrs.
      pose proof (chunks_lengths t (numel ss) d Hd) as Hch.
      assert (Hall : Forall (fun c => length c = numel ts) rs).
      { clear Hd. induction Hrs as [|c r' cs rs' Hc _ IHrs]; constructor.
        - inversion Hch; subst. eapply IH; eauto.
        - inversion Hch; subst. auto. }
      rewrite (concat_length_uniform _ _ Hall).
      rewrite <- (Forall2_length Hrs), chunks_count. reflexivity.
    + destruct (Nat.eqb_spec s 1) as [->|]; [|discriminate H].
      destruct (expand_data ss ts d) as [r'|] eqn:Hr'; [|discriminate H].
      injection H as <-. rewrite concat_repeat_length. simpl.
      f_equal. eapply IH; [|exact Hr']. lia.
Qed.

Lemma expand_wf t tgt r : wf t -> expand t tgt = Ok r ->
  shape r = tgt /\ wf r.
Proof.
  unfold expand, wf. intros Ht H.
  destruct (length tgt <? length (shape t)); [discriminate H|].
  destruct (expand_data _ _ _) as [d|] eqn:Hd; [|discriminate H].
  injection H as <-. simpl. split; [reflexivity|].
  rewrite concat_repeat_length, (expand_data_length _ _ _ _ Ht Hd).
  rewrite <- numel_app, firstn_skipn. reflexivity.
Qed.

Lemma expand_same t : wf t -> expand t (shape t) = Ok t.
Proof.
  unfold expand, wf. intros Ht.
  rewrite Nat.ltb_irrefl, Nat.sub_diag. simpl.
  rewrite expand_data_same by assumption. simpl.
  rewrite app_nil_r. now destruct t.
Qed.

Lemma broadcast_rev_same a : broadcast_rev a a = Some a.
Proof.
  induction a as [|x a IH]; simpl; [reflexivity|].
  now rewrite Nat.eqb_refl, IH.
Qed.

Lemma broadcast_shapes_same s : broadcast_shapes s s = Ok s.
Proof.
  unfold broadcast_shapes. now rewrite broadcast_rev_same, rev_involutive.
Qed.


Lemma zip_with_length f a : forall b,
  length a = length b -> length (zip_with f a b) = length a.
Proof.
  induction a as [|x a IH]; intros [|y b] H; simpl; try reflexivity;
    try discriminate H.
  f_equal. apply IH. now injection H.
Qed.

Lemma weighted_squares_fusion ps : forall ls ws,
  zip_with PrimFloat.mul
    (map (fun x => (x * x)%float)
         (zip_with PrimFloat.add ps (map PrimFloat.opp ls))) ws
  = weighted_squares ps ls ws.
Proof.
  induction ps as [|p ps IH]; intros [|l ls] [|w ws]; simpl;
    try reflexivity.
  now rewrite IH.
Qed.


End LossFacts.

(* ================================================================== *)
(** * Facts about floats, checkpoint paths and indexed lists *)
(* ================================================================== *)

Module BaseFacts.
Import Engine Observations.

Lemma SFcompare_refl x : x <> S754_nan -> SFcompare x x = Some Eq.
Proof.
  destruct x as [[|]|[|]| |[|] m e]; intros H; try reflexivity;
    try congruence; simpl; rewrite Z.compare_refl;
    change (Pos.compare_cont Eq) with Pos.compare;
    now rewrite Pos.compare_refl.
Qed.

Lemma SFleb_trans x y z :
  SFleb x y = true -> SFleb y z = true -> SFleb x z = true.
Proof.
  unfold SFleb, SFcompare.
  destruct x as [[|]|[|]| |[|] mx ex], y as [[|]|[|]| |[|] my ey],
           z as [[|]|[|]| |[|] mz ez];
    try reflexivity; try discriminate; try (intros _ H; discriminate H);
    change (Pos.compare_cont Eq) with Pos.compare;
    destruct (Z.compare_spec ex ey), (Z.compare_spec ey ez),
             (Z.compare_spec ex ez);
    try reflexivity; try discriminate; try (intros _ H; discriminate H);
    try lia; subst;
    destruct (Pos.compare_spec mx my), (Pos.compare_spec my mz),
             (Pos.compare_spec mx mz);
    simpl; try reflexivity; try discriminate;
    try (intros _ H; discriminate H); lia.
Qed.

Lemma fle_trans x y z : fle x y -> fle y z -> fle x z.
Proof. unfold fle. rewrite !leb_spec. apply SFleb_trans. Qed.

Lemma ltb_fle x y : (x <? y)%float = true -> fle x y.
Proof.
  unfold fle. rewrite ltb_spec, leb_spec. unfold SFltb, SFleb.
  destruct (SFcompare _ _) as [[| |]|]; congruence.
Qed.

(** The smaller side of a strict comparison is not a NaN. *)
Lemma ltb_fle_refl x y : (x <? y)%float = true -> fle x x.
Proof.
  unfold fle. rewrite ltb_spec, leb_spec. unfold SFltb, SFleb. intros H.
  rewrite SFcompare_refl; [reflexivity|].
  intros E. rewrite E in H. discriminate H.
Qed.

(** A sample that is not negative is never below a probability of 0. *)
Lemma ltb_zero_false x : (0 <=? x)%float = true -> (x <? 0)%float = false.
Proof.
  rewrite ltb_spec, leb_spec. unfold SFltb, SFleb.
  change (Prim2SF 0) with (S754_zero false).
  destruct (Prim2SF x) as [[|]|[|]| |[|] m e]; simpl; congruence.
Qed.

(** ** Checkpoint paths *)

Lemma append_inj_l (p a b : string) : (p ++ a = p ++ b)%string -> a = b.
Proof.
  induction p as [|c p IH]; simpl; intros H; [exact H|].
  injection H as H. auto.
Qed.

Lemma string_of_uint_digits d :
  all_digits (DecimalString.NilEmpty.string_of_uint d) = true.
Proof. induction d; simpl; auto. Qed.

Lemma str_digits n : all_digits (str n) = true.
Proof. apply string_of_uint_digits. Qed.

Lemma str_inj n m : str n = str m -> n = m.
Proof.
  unfold str. intros H.
  apply DecimalNat.Unsigned.to_uint_inj.
  pose proof (DecimalString.NilEmpty.usu (Nat.to_uint n)) as Hn.
  pose proof (DecimalString.NilEmpty.usu (Nat.to_uint m)) as Hm.
  rewrite H in Hn. congruence.
Qed.

(** Two runs of digits, each followed by a dash and a suffix, are equal
    only part by part. *)
Lemma digits_dash_split s1 : forall s2 t1 t2,
  all_digits s1 = true -> all_digits s2 = true ->
  (s1 ++ String "-" t1 = s2 ++ String "-" t2)%string ->
  s1 = s2 /\ t1 = t2.
Proof.
  induction s1 as [|c s1 IH]; intros [|c2 s2] t1 t2 H1 H2 H; simpl in *.
  - injection H as ->. auto.
  - injection H as <- _. discriminate H2.
  - injection H as -> _. discriminate H1.
  - injection H as -> H.
    apply andb_prop in H1 as [_ H1]. apply andb_prop in H2 as [_ H2].
    destruct (IH s2 t1 t2 H1 H2 H) as [-> ->]. auto.
Qed.

Lemma last_path_inj p i j : last_path p i = last_path p j -> i = j.
Proof.
  unfold last_path. intros H. apply append_inj_l in H.
  simpl in H. injection H as H.
  apply digits_dash_split in H as [H _]; auto using str_digits.
  now apply str_inj.
Qed.

Lemma best_path_inj p i j : best_path p i = best_path p j -> i = j.
Proof.
  unfold best_path. intros H. apply append_inj_l in H.
  simpl in H. injection H as H.
  apply digits_dash_split in H as [H _]; auto using str_digits.
  now apply str_inj.
Qed.

Lemma best_last_distinct p i j : best_path p i <> last_path p j.
Proof.
  unfold best_path, last_path. intros H. apply append_inj_l in H.
  simpl in H. injection H as H.
  apply digits_dash_split in H as [_ H]; auto using str_digits.
  discriminate H.
Qed.

(** ** Assignment by index *)

Lemma set_index_length {A} (l : list A) : forall i v,
  length (set_index l i v) = length l.
Proof.
  induction l as [|h t IH]; intros [|i] v; simpl; auto.
Qed.

Lemma nth_error_set_index {A} (l : list A) : forall i j v,
  nth_error (set_index l i v) j =
  if (i =? j)%nat && (i <? length l)%nat then Some v else nth_error l j.
Proof.
  induction l as [|h t IH]; intros i j v.
  - simpl. destruct i; simpl; now rewrite andb_false_r.
  - destruct i as [|i], j as [|j]; simpl; try reflexivity.
    rewrite IH. reflexivity.
Qed.

Lemma index_Ok {A} (l : list A) i a :
  index l i = Ok a <-> nth_error l i = Some a.
Proof.
  unfold index. destruct (nth_error l i); split; intros H;
    try discriminate; now injection H as ->.
Qed.

End BaseFacts.

(* ================================================================== *)
(** * Reasoning about statements of the engine *)
(* ================================================================== *)

Module MonadFacts.
Import Engine Observations.

Section WithParams.
Variable Params : Type.
Local Abbreviation M := (Engine.M Params).
Local Abbreviation World := (Engine.World Params).
Local Abbreviation Event := (Engine.Event Params).

(** A run of [x <- m ;; k x] either runs [m] to a value and then [k],
    or stops at the exception of [m]. *)
Lemma bind_cases {A B} (m : M A) (k : A -> M B) w w' ev r :
  bind m k w = (w', ev, r) ->
  (exists w1 ev1 a ev2,
      m w = (w1, ev1, Ok a) /\ k a w1 = (w', ev2, r) /\ ev = ev1 ++ ev2) \/
  (exists e, m w = (w', ev, Raise e) /\ r = Raise e).
Proof.
  unfold bind. destruct (m w) as [[w1 ev1] [a|e]].
  - destruct (k a w1) as [[w2 ev2] r2] eqn:Hk. intros H.
    injection H as <- <- <-. left. exists w1, ev1, a, ev2. auto.
  - intros H. injection H as <- <- <-. right. eauto.
Qed.

Lemma bind_Ok {A B} (m : M A) (k : A -> M B) w w' ev b :
  bind m k w = (w', ev, Ok b) ->
  exists w1 ev1 a ev2,
    m w = (w1, ev1, Ok a) /\ k a w1 = (w', ev2, Ok b) /\ ev = ev1 ++ ev2.
Proof.
  intros H. apply bind_cases in H as [H | (e & _ & H)];
    [exact H | discriminate H].
Qed.

Lemma bind_step {A B} (m : M A) (k : A -> M B) w w1 ev1 a :
  m w = (w1, ev1, Ok a) ->
  bind m k w = (let '(w2, ev2, r) := k a w1 in (w2, ev1 ++ ev2, r)).
Proof. unfold bind. now intros ->. Qed.

Lemma bind_stop {A B} (m : M A) (k : A -> M B) w w1 ev1 e :
  m w = (w1, ev1, Raise e) -> bind m k w = (w1, ev1, Raise e).
Proof. unfold bind. now intros ->. Qed.

Lemma lift_run {A} (r : result A) w w' ev r' :
  lift (Params:=Params) r w = (w', ev, r') -> w' = w /\ ev = [] /\ r' = r.
Proof. unfold lift. intros H. injection H as <- <- <-. auto. Qed.

Lemma foldM_cons {S A} (f : S -> A -> M S) a l s :
  foldM f (a :: l) s = bind (f s a) (fun s' => foldM f l s').
Proof. reflexivity. Qed.

Lemma foldM_app {S A} (f : S -> A -> M S) l1 : forall l2 s w,
  foldM f (l1 ++ l2) s w = bind (foldM f l1 s) (fun s' => foldM f l2 s') w.
Proof.
  induction l1 as [|a l1 IH]; intros l2 s w.
  - simpl. unfold bind, ret. destruct (foldM f l2 s w) as [[w2 ev2] r].
    reflexivity.
  - rewrite <- app_comm_cons, !foldM_cons. unfold bind.
    destruct (f s a w) as [[w1 ev1] [s1|e]]; [|reflexivity].
    rewrite IH. unfold bind.
    destruct (foldM f l1 s1 w1) as [[w2 ev2] [s2|e]]; [|reflexivity].
    destruct (foldM f l2 s2 w2) as [[w3 ev3] r]. now rewrite app_assoc.
Qed.

(** ** Properties every run of a statement keeps *)

Section Always.
(** An invariant of the world and a property of every event. *)
Variable Inv : World -> Prop.
Variable P : Event -> Prop.

Local Abbreviation always := (Observations.always Inv P).

Lemma always_ret {A} (a : A) : always (ret a).
Proof. intros w w' ev r Hw H. injection H as <- <- <-. auto. Qed.

Lemma always_lift {A} (x : result A) : always (lift x).
Proof. intros w w' ev r Hw H. injection H as <- <- <-. auto. Qed.

Lemma always_emit e : P e -> always (emit e).
Proof. intros He w w' ev r Hw H. injection H as <- <- <-. auto. Qed.

Lemma always_num_nets : always (@num_nets Params).
Proof. intros w w' ev r Hw H. injection H as <- <- <-. auto. Qed.

Lemma always_get_net i : always (@get_net Params i).
Proof. intros w w' ev r Hw H. injection H as <- <- <-. auto. Qed.

Lemma always_bind {A B} (m : M A) (k : A -> M B) :
  always m -> (forall a, always (k a)) -> always (bind m k).
Proof.
  intros Hm Hk w w' ev r Hw H.
  apply bind_cases in H as [(w1 & ev1 & a & ev2 & H1 & H2 & ->) | (e & H & _)].
  - destruct (Hm _ _ _ _ Hw H1) as [I1 P1].
    destruct (Hk a _ _ _ _ I1 H2) as [I2 P2].
    split; [assumption | apply Forall_app; auto].
  - eauto.
Qed.

Lemma always_foldM {S A} (f : S -> A -> M S) l :
  (forall s a, always (f s a)) -> forall s, always (foldM f l s).
Proof.
  intros Hf. induction l as [|a l IH]; intros s.
  - apply always_ret.
  - rewrite foldM_cons. apply always_bind; auto.
Qed.

Lemma always_forM_ {A} (l : list A) (f : A -> M unit) :
  (forall a, always (f a)) -> always (forM_ l f).
Proof. intros Hf. apply always_foldM. auto. Qed.

Lemma always_when b (m : M unit) : always m -> always (when b m).
Proof. intros Hm. destruct b; [exact Hm | apply always_ret]. Qed.

(** The invariant looks at the models only, not at the two external
    streams. *)
Hypothesis Inv_nets : forall w w', nets w' = nets w -> Inv w -> Inv w'.

Lemma always_random_uniform u : always (@random_uniform Params u).
Proof.
  intros w w' ev r Hw H. injection H as <- <- <-.
  split; [now apply (Inv_nets w) | constructor].
Qed.

Lemma always_time_time c : always (@time_time Params c).
Proof.
  intros w w' ev r Hw H. injection H as <- <- <-.
  split; [now apply (Inv_nets w) | constructor].
Qed.

Lemma always_update_net i f :
  update_keeps Inv i f -> always (update_net i f).
Proof.
  intros Hf w w' ev r Hw H. unfold update_net in H.
  destruct (nth_error (nets w) i) as [n|] eqn:E; injection H as <- <- <-;
    eauto.
Qed.

Lemma always_net_call i input_vars :
  (forall w n, Inv w -> nth_error (nets w) i = Some n ->
     P (EvForward i (training n))) ->
  always (net_call i input_vars).
Proof.
  intros HP w w' ev r Hw H. unfold net_call, bind, get_net, index in H.
  destruct (nth_error (nets w) i) as [n|] eqn:E; simpl in H;
    injection H as <- <- <-; eauto.
Qed.

Lemma always_torch_save i path :
  (forall w n, Inv w -> nth_error (nets w) i = Some n ->
     P (EvSave path (params n))) ->
  always (torch_save i path).
Proof.
  intros HP w w' ev r Hw H. unfold torch_save, bind, get_net, index in H.
  destruct (nth_error (nets w) i) as [n|] eqn:E; simpl in H;
    injection H as <- <- <-; eauto.
Qed.

End Always.

(** The number of models is an invariant of every update. *)
Lemma count_is_nets k (w w' : World) :
  nets w' = nets w -> count_is k w -> count_is k w'.
Proof. unfold count_is. congruence. Qed.

Lemma count_is_update k i (f : Net Params -> Net Params) :
  update_keeps (count_is k) i f.
Proof.
  intros w n Hw _. unfold count_is in *. simpl.
  now rewrite BaseFacts.set_index_length.
Qed.

End WithParams.

End MonadFacts.

(* ================================================================== *)
(** * The accumulation of one pass over a data source *)
(* ================================================================== *)

Module PassFacts.
Import Engine Observations BaseFacts MonadFacts MetricsFacts.

(** Case analysis on every comparison of naturals in the goal. *)
Ltac bool_cases :=
  repeat match goal with
  | |- context [(?a <=? ?b)%nat] => destruct (Nat.leb_spec a b)
  | |- context [(?a <? ?b)%nat] => destruct (Nat.ltb_spec a b)
  | |- context [(?a =? ?b)%nat] => destruct (Nat.eqb_spec a b)
  end.

Section WithParams.
Variable Params : Type.
Local Abbreviation M := (Engine.M Params).
Local Abbreviation World := (Engine.World Params).
Local Abbreviation Event := (Engine.Event Params).

Lemma accumulate_Ok acc net_idx input_vars loss_value acc' :
  accumulate acc net_idx input_vars loss_value = Ok acc' ->
  exists bs c,
    batch_size_of input_vars = Ok bs /\
    nth_error (snd acc) net_idx = Some c /\
    snd acc' = set_index (snd acc) net_idx (c + bs)%Z /\
    length (fst acc') = length (fst acc).
Proof.
  destruct acc as [losses examples]. unfold accumulate. intros H.
  apply rbind_Ok in H as (bs & Hbs & H).
  apply rbind_Ok in H as (c & Hc & H).
  apply rbind_Ok in H as (r & Hr & H).
  apply rbind_Ok in H as (l0 & Hl0 & H).
  apply rbind_Ok in H as (p & Hp & H).
  injection H as <-. exists bs, c. simpl.
  rewrite set_index_length. apply index_Ok in Hc. auto.
Qed.

(** The inputs handed to the models are the first [num_inputs] tensors of
    the batch. *)
Lemma DataBatchToVariables_inputs batch ni nl iv lv wv :
  DataBatchToVariables batch ni nl = Ok (iv, lv, wv) -> iv = firstn ni batch.
Proof.
  unfold DataBatchToVariables.
  destruct (negb _); [discriminate|]. intros H.
  apply rbind_Ok in H as (w & _ & H). injection H as <- _ _.
  apply BatchFacts.map_Variable_cuda.
Qed.

(** ** One batch, all models: the loop over [enumerate(nets)] *)

Section Inner.
(** The statement run for one model, the batch size [bs] it adds, and a
    family of event counters [p]. *)
Variable f : Acc -> nat -> M Acc.
Variable bs : Z.
Variable p : nat -> Event -> bool.

Hypothesis f_Ok : forall acc idx w w' ev acc',
  f acc idx w = (w', ev, Ok acc') ->
  length (nets w') = length (nets w) /\
  (exists c, nth_error (snd acc) idx = Some c /\
             snd acc' = set_index (snd acc) idx (c + bs)%Z) /\
  length (fst acc') = length (fst acc) /\
  forall i, count (p i) ev = if (i =? idx)%nat then 1 else 0.

Lemma inner_loop m : forall k acc w w' ev acc',
  foldM f (seq k m) acc w = (w', ev, Ok acc') ->
  length (nets w') = length (nets w) /\
  length (fst acc') = length (fst acc) /\
  (forall i, nth_error (snd acc') i =
             if (k <=? i)%nat && (i <? k + m)%nat
             then option_map (fun c => (c + bs)%Z) (nth_error (snd acc) i)
             else nth_error (snd acc) i) /\
  (forall i, count (p i) ev =
             if (k <=? i)%nat && (i <? k + m)%nat then 1 else 0).
Proof.
  induction m as [|m IH]; intros k acc w w' ev acc' H.
  - injection H as <- <- <-. repeat split; try reflexivity; intros i;
      bool_cases; simpl; try reflexivity; lia.
  - simpl seq in H. rewrite foldM_cons in H.
    apply bind_Ok in H as (w1 & ev1 & acc1 & ev2 & H1 & H2 & ->).
    apply f_Ok in H1 as (Hn1 & (c & Hc & Hs) & Hl1 & Hp1).
    apply IH in H2 as (Hn2 & Hl2 & Hs2 & Hp2).
    repeat split; try congruence.
    + intros i. rewrite Hs2, Hs, nth_error_set_index.
      assert (Hk : k < length (snd acc))
        by (apply nth_error_Some; congruence).
      bool_cases; subst; rewrite ?Hc; simpl; try reflexivity; lia.
    + intros i. unfold count in *.
      rewrite filter_app, length_app, Hp1, Hp2.
      bool_cases; simpl; try reflexivity; lia.
Qed.

(** Over all models the loop adds [bs] to every count and makes each
    counted event once per model. *)
Lemma inner_loop_all acc w w' ev acc' :
  length (snd acc) = length (nets w) ->
  foldM f (seq 0 (length (nets w))) acc w = (w', ev, Ok acc') ->
  length (nets w') = length (nets w) /\
  length (fst acc') = length (fst acc) /\
  snd acc' = map (fun c => (c + bs)%Z) (snd acc) /\
  (forall i, i < length (nets w) -> count (p i) ev = 1).
Proof.
  intros Hlen H. apply inner_loop in H as (Hn & Hl & Hs & Hp).
  repeat split; try assumption.
  - apply nth_error_ext. intros i. rewrite Hs, nth_error_map. simpl.
    destruct (Nat.ltb_spec i (length (nets w))) as [Hi|Hi]; [reflexivity|].
    assert (E : nth_error (snd acc) i = None)
      by (apply nth_error_None; lia).
    now rewrite E.
  - intros i Hi. rewrite Hp. simpl.
    now rewrite (proj2 (Nat.ltb_lt _ _) Hi).
Qed.

End Inner.

(** ** A whole pass: the loop over the batches of a data source *)

Section Pass.
(** The statement run for one model on one batch, and a family of event
    counters. *)
Variable f : list Tensor -> list Tensor -> Tensor -> Acc -> nat -> M Acc.
Variable p : nat -> Event -> bool.

Hypothesis f_Ok : forall iv lv wv acc idx w w' ev acc',
  f iv lv wv acc idx w = (w', ev, Ok acc') ->
  length (nets w') = length (nets w) /\
  (exists loss_value, accumulate acc idx iv loss_value = Ok acc') /\
  forall i, count (p i) ev = if (i =? idx)%nat then 1 else 0.

Lemma pass_batch_Ok ni nl acc b w w' ev acc' :
  length (snd acc) = length (nets w) ->
  pass_batch f ni nl acc b w = (w', ev, Ok acc') ->
  length (nets w') = length (nets w) /\
  length (fst acc') = length (fst acc) /\
  snd acc' = map (fun c => (c + examples_in ni b)%Z) (snd acc) /\
  (forall i, i < length (nets w) -> count (p i) ev = 1).
Proof.
  intros Hlen H. unfold pass_batch in H.
  apply bind_Ok in H as (w1 & ev1 & [[iv lv] wv] & ev2 & H1 & H2 & ->).
  apply lift_run in H1 as (-> & -> & Hb). symmetry in Hb.
  apply bind_Ok in H2 as (w2 & ev3 & n & ev4 & H2 & H3 & ->).
  injection H2 as <- <- <-. simpl.
  apply DataBatchToVariables_inputs in Hb. subst iv.
  apply (inner_loop_all (f (firstn ni b) lv wv) (examples_in ni b) p);
    [|assumption..].
  intros acc0 idx w0 w0' ev0 acc0' H0.
  apply f_Ok in H0 as (Hn & (loss_value & Ha) & Hp).
  apply accumulate_Ok in Ha as (bs & c & Hbs & Hc & Hs & Hl).
  repeat split; try assumption.
  exists c. split; [assumption|].
  unfold examples_in. now rewrite Hbs.
Qed.

Lemma pass_loop_Ok ni nl loader : forall acc w w' ev acc',
  length (snd acc) = length (nets w) ->
  foldM (pass_batch f ni nl) loader acc w = (w', ev, Ok acc') ->
  length (nets w') = length (nets w) /\
  length (fst acc') = length (fst acc) /\
  snd acc' = map (fun c => (c + dataset_size ni loader)%Z) (snd acc) /\
  (forall i, i < length (nets w) -> count (p i) ev = length loader).
Proof.
  induction loader as [|b loader IH]; intros acc w w' ev acc' Hlen H.
  - injection H as <- <- <-. repeat split; try reflexivity.
    unfold dataset_size. simpl. rewrite <- (map_id (snd acc)) at 1.
    apply map_ext. intros c. lia.
  - rewrite foldM_cons in H.
    apply bind_Ok in H as (w1 & ev1 & acc1 & ev2 & H1 & H2 & ->).
    apply pass_batch_Ok in H1 as (Hn1 & Hl1 & Hs1 & Hp1); [|assumption].
    apply IH in H2 as (Hn2 & Hl2 & Hs2 & Hp2);
      [|rewrite Hs1, length_map; congruence].
    repeat split; try congruence.
    + rewrite Hs2, Hs1, map_map. apply map_ext. intros c.
      unfold dataset_size. simpl. lia.
    + intros i Hi. unfold count in *. rewrite filter_app, length_app.
      rewrite Hp1 by assumption. rewrite Hp2 by congruence. reflexivity.
Qed.

(** From fresh accumulators every model ends with the size of the data
    source. *)
Lemma pass_fresh_Ok ni nl loader w w' ev acc' :
  foldM (pass_batch f ni nl) loader
        (repeat 0%float (length (nets w)), repeat 0%Z (length (nets w))) w
    = (w', ev, Ok acc') ->
  length (nets w') = length (nets w) /\
  length (fst acc') = length (nets w) /\
  snd acc' = repeat (dataset_size ni loader) (length (nets w)) /\
  (forall i, i < length (nets w) -> count (p i) ev = length loader).
Proof.
  intros H. apply pass_loop_Ok in H as (Hn & Hl & Hs & Hp);
    [|simpl; apply repeat_length].
  simpl in *. rewrite repeat_length in Hl. rewrite map_repeat in Hs.
  auto.
Qed.

End Pass.

End WithParams.
End PassFacts.

(* ================================================================== *)
(** * The training phase and the boundary values of [batch_use_prob] *)
(* ================================================================== *)

Module TrainFacts.
Import Engine Observations BaseFacts MonadFacts MetricsFacts PassFacts.

(** Decomposition of a statement into the cases of [always]. *)
Ltac always_tac leaf :=
  repeat (lazymatch goal with
  | |- always _ _ (bind _ _) => apply always_bind
  | |- always _ _ (ret _) => apply always_ret
  | |- always _ _ (lift _) => apply always_lift
  | |- always _ _ (emit _) => apply always_emit
  | |- always _ _ (@num_nets _) => apply always_num_nets
  | |- always _ _ (get_net _) => apply always_get_net
  | |- always _ _ (when _ _) => apply always_when
  | |- always _ _ (forM_ _ _) => apply always_forM_
  | |- always _ _ (foldM _ _ _) => apply always_foldM
  | |- always _ _ (random_uniform _) => apply always_random_uniform
  | |- always _ _ (time_time _) => apply always_time_time
  | |- always _ _ (update_net _ _) => apply always_update_net
  | |- always _ _ (net_call _ _) => apply always_net_call
  | |- always _ _ (torch_save _ _) => apply always_torch_save
  | |- always _ _ (match ?x with _ => _ end) => destruct x
  | |- always _ _ _ =>
      first [ solve [leaf]
            | progress unfold val_net, val_batch, val_phase, train_net,
                train_batch, train_phase, checkpoint_net, checkpoint_best,
                save_checkpoint, net_eval, net_train, net_cpu, net_cuda,
                run_epoch, run_epochs, save_last, TrainModels_body ]
  | |- _ => first [ solve [leaf] | intro ]
  end).

Section WithParams.
Variable Params : Type.
Local Abbreviation M := (Engine.M Params).
Local Abbreviation World := (Engine.World Params).
Local Abbreviation Event := (Engine.Event Params).

(** ** What the primitive statements do *)

Lemma emit_run (e : Event) w w' ev r :
  emit e w = (w', ev, r) -> w' = w /\ ev = [e] /\ r = Ok tt.
Proof. intros H. injection H as <- <- <-. auto. Qed.

Lemma net_call_Ok i iv (w w' : World) ev out :
  net_call i iv w = (w', ev, Ok out) ->
  w' = w /\
  exists n, nth_error (nets w) i = Some n /\
            ev = [EvForward i (training n)] /\
            net_forward n (params n) (training n) iv = Ok out.
Proof.
  unfold net_call, bind, get_net, index, emit, lift.
  destruct (nth_error (nets w) i) as [n|]; simpl; intros H;
    [|discriminate H].
  injection H as <- <- H. eauto.
Qed.

Lemma update_net_Ok i f (w w' : World) ev u :
  update_net i f w = (w', ev, Ok u) ->
  ev = [] /\ length (nets w') = length (nets w) /\
  exists n, nth_error (nets w) i = Some n /\
            nets w' = set_index (nets w) i (f n).
Proof.
  unfold update_net. destruct (nth_error (nets w) i) as [n|];
    intros H; [|discriminate H].
  injection H as <- <- _. simpl. rewrite set_index_length. eauto.
Qed.

(** ** A model that skips a batch *)

Section Train.
Variable uniform : nat -> float.
Variable train_settings : list (TrainSettings Params).
Variable batch_use_prob : float.

Lemma train_net_skipped iv lv wv acc idx (w : World) :
  (uniform (rand_calls w) <? batch_use_prob)%float = false ->
  train_net uniform train_settings batch_use_prob iv lv wv acc idx w
  = (mkWorld (nets w) (S (rand_calls w)) (time_calls w), [], Ok acc).
Proof.
  intros H. unfold train_net, bind, random_uniform. now rewrite H.
Qed.

(** ** A model that takes a batch *)

Lemma train_net_taken iv lv wv acc idx (w w' : World) ev acc' :
  (uniform (rand_calls w) <? batch_use_prob)%float = true ->
  train_net uniform train_settings batch_use_prob iv lv wv acc idx w
    = (w', ev, Ok acc') ->
  exists n loss_value,
    nth_error (nets w) idx = Some n /\
    ev = [EvForward idx (training n); EvBackward idx; EvStep idx;
          EvZeroGrad idx] /\
    length (nets w') = length (nets w) /\
    accumulate acc idx iv loss_value = Ok acc'.
Proof.
  intros Hu H. unfold train_net in H.
  apply bind_Ok in H as (w1 & ev1 & u & ev2 & H1 & H & ->).
  injection H1 as <- <- <-. rewrite Hu in H.
  apply bind_Ok in H as (w2 & ev3 & out & ev4 & H1 & H & ->).
  apply net_call_Ok in H1 as (-> & n & Hn & -> & _).
  apply bind_Ok in H as (w3 & ev5 & ts & ev6 & H1 & H & ->).
  apply lift_run in H1 as (-> & -> & _).
  apply bind_Ok in H as (w4 & ev7 & loss_value & ev8 & H1 & H & ->).
  apply lift_run in H1 as (-> & -> & _).
  apply bind_Ok in H as (w5 & ev9 & [] & ev10 & H1 & H & ->).
  apply emit_run in H1 as (-> & -> & _).
  apply bind_Ok in H as (w6 & ev11 & [] & ev12 & H1 & H & ->).
  apply update_net_Ok in H1 as (-> & Hlen & _).
  apply bind_Ok in H as (w7 & ev13 & [] & ev14 & H1 & H & ->).
  apply emit_run in H1 as (-> & -> & _).
  apply bind_Ok in H as (w8 & ev15 & [] & ev16 & H1 & H & ->).
  apply emit_run in H1 as (-> & -> & _).
  apply lift_run in H as (-> & -> & H).
  exists n, loss_value. simpl in *. auto.
Qed.

Lemma train_net_counts iv lv wv acc idx (w w' : World) ev acc'
  (p : nat -> Event -> bool) :
  (p = is_forward \/ p = is_backward \/ p = is_step) ->
  (forall k, (uniform k <? batch_use_prob)%float = true) ->
  train_net uniform train_settings batch_use_prob iv lv wv acc idx w
    = (w', ev, Ok acc') ->
  length (nets w') = length (nets w) /\
  (exists loss_value, accumulate acc idx iv loss_value = Ok acc') /\
  forall i, count (p i) ev = if (i =? idx)%nat then 1 else 0.
Proof.
  intros Hp Hu H.
  apply train_net_taken in H as (n & loss_value & Hn & -> & Hlen & Ha);
    [|apply Hu].
  repeat split; [assumption | eauto |].
  intros i. unfold count.
  destruct Hp as [-> | [-> | ->]]; simpl; destruct (i =? idx)%nat;
    reflexivity.
Qed.

Lemma train_nets_skipped iv lv wv :
  (forall k, (uniform k <? batch_use_prob)%float = false) ->
  forall l acc (w : World), exists w',
    foldM (train_net uniform train_settings batch_use_prob iv lv wv) l acc w
      = (w', [], Ok acc) /\ nets w' = nets w.
Proof.
  intros Hu. induction l as [|idx l IH]; intros acc w.
  - exists w. auto.
  - rewrite foldM_cons.
    erewrite bind_step by (apply train_net_skipped; apply Hu).
    destruct (IH acc (mkWorld (nets w) (S (rand_calls w)) (time_calls w)))
      as (w' & -> & Hw').
    exists w'. auto.
Qed.

Lemma train_batch_skipped ni nl acc b (w w' : World) ev r :
  (forall k, (uniform k <? batch_use_prob)%float = false) ->
  train_batch uniform train_settings batch_use_prob ni nl acc b w
    = (w', ev, r) ->
  nets w' = nets w /\ ev = [] /\ forall acc', r = Ok acc' -> acc' = acc.
Proof.
  intros Hu H. unfold train_batch in H.
  apply bind_cases in H
    as [(w1 & ev1 & [[iv lv] wv] & ev2 & H1 & H & ->) | (e & H & ->)].
  - apply lift_run in H1 as (-> & -> & _).
    apply bind_cases in H
      as [(w2 & ev3 & n & ev4 & H1 & H & ->) | (e & H & ->)];
      [|discriminate H].
    injection H1 as <- <- <-.
    destruct (train_nets_skipped iv lv wv Hu (seq 0 (length (nets w))) acc w)
      as (w2 & Hrun & Hw2).
    rewrite Hrun in H. injection H as <- <- <-.
    repeat split; auto. intros acc' E. now injection E.
  - apply lift_run in H as (-> & -> & _).
    repeat split; auto. intros acc' E. discriminate E.
Qed.

Lemma train_batches_skipped ni nl :
  (forall k, (uniform k <? batch_use_prob)%float = false) ->
  forall loader acc (w w' : World) ev r,
    foldM (train_batch uniform train_settings batch_use_prob ni nl)
          loader acc w = (w', ev, r) ->
    nets w' = nets w /\ ev = [] /\ forall acc', r = Ok acc' -> acc' = acc.
Proof.
  intros Hu. induction loader as [|b loader IH]; intros acc w w' ev r H.
  - injection H as <- <- <-. repeat split; auto.
    intros acc' E. now injection E.
  - rewrite foldM_cons in H.
    apply bind_cases in H
      as [(w1 & ev1 & acc1 & ev2 & H1 & H & ->) | (e & H & ->)].
    + apply train_batch_skipped in H1 as (Hw1 & -> & Hacc); [|assumption].
      rewrite (Hacc acc1 eq_refl) in H.
      apply IH in H as (Hw' & -> & Hacc').
      repeat split; auto. congruence.
    + apply train_batch_skipped in H as (Hw1 & -> & _); [|assumption].
      repeat split; auto. intros acc' E. discriminate E.
Qed.

Lemma train_phase_skipped loader ni nl (w w' : World) ev r :
  (forall k, (uniform k <? batch_use_prob)%float = false) ->
  train_phase uniform loader train_settings batch_use_prob ni nl w
    = (w', ev, r) ->
  nets w' = nets w /\ ev = [] /\
  forall acc', r = Ok acc' ->
    acc' = (repeat 0%float (length (nets w)), repeat 0%Z (length (nets w))).
Proof.
  intros Hu H. unfold train_phase in H.
  apply bind_cases in H
    as [(w1 & ev1 & n & ev2 & H1 & H & ->) | (e & H & ->)];
    [|discriminate H].
  injection H1 as <- <- <-.
  now apply train_batches_skipped in H.
Qed.

Lemma train_phase_taken loader ni nl (w w' : World) ev acc'
  (p : nat -> Event -> bool) :
  (p = is_forward \/ p = is_backward \/ p = is_step) ->
  (forall k, (uniform k <? batch_use_prob)%float = true) ->
  train_phase uniform loader train_settings batch_use_prob ni nl w
    = (w', ev, Ok acc') ->
  length (nets w') = length (nets w) /\
  length (fst acc') = length (nets w) /\
  snd acc' = repeat (dataset_size ni loader) (length (nets w)) /\
  (forall i, i < length (nets w) -> count (p i) ev = length loader).
Proof.
  intros Hp Hu H. unfold train_phase in H.
  apply bind_Ok in H as (w1 & ev1 & n & ev2 & H1 & H & ->).
  injection H1 as <- <- <-. simpl.
  apply (fun Hf => pass_fresh_Ok Params
           (train_net uniform train_settings batch_use_prob) p Hf
           ni nl loader w w' ev2 acc');
    [|exact H].
  intros. eapply train_net_counts; eauto.
Qed.

End Train.

Lemma AverageLosses_no_data n :
  AverageLosses (repeat 0%float n) (repeat 0%Z n) = Ok (repeat inf n).
Proof.
  induction n as [|n IH]; [reflexivity|].
  simpl repeat. rewrite AverageLosses_cons, IH. reflexivity.
Qed.

(** ** Properties of all events of a run *)

Section Run.
Variable uniform clock : nat -> float.
Variable train_loader val_loader : list (list Tensor).
Variable train_settings : list (TrainSettings Params).
Variable out_prefix : string.
Variable batch_use_prob : float.
Variable print_log : bool.
Variable log_dir : string.

(** No statement of the engine adds or removes a model. *)
Lemma TrainModels_body_count k :
  always (count_is k) (fun _ => True)
    (TrainModels_body uniform clock train_loader val_loader train_settings
       out_prefix batch_use_prob print_log log_dir).
Proof.
  always_tac ltac:(first [ exact I | apply count_is_nets
                         | apply count_is_update ]).
Qed.

(** With no model ever taking a batch, no run contains a backward pass
    or an optimizer step. *)
Lemma TrainModels_body_no_gradient :
  (forall k, (uniform k <? batch_use_prob)%float = false) ->
  always (fun _ => True) (fun e => is_gradient_event e = false)
    (TrainModels_body uniform clock train_loader val_loader train_settings
       out_prefix batch_use_prob print_log log_dir).
Proof.
  intros Hu.
  assert (Hskip : forall iv lv wv acc idx,
    always (fun _ : World => True)
           (fun e : Event => is_gradient_event e = false)
           (train_net uniform train_settings batch_use_prob iv lv wv acc idx)).
  { intros iv lv wv acc idx w w' ev r _ H.
    rewrite train_net_skipped in H by apply Hu.
    injection H as <- <- <-. auto. }
  always_tac ltac:(first [ reflexivity | exact I | apply Hskip
                         | intros; exact I ]).
Qed.

End Run.

(** C2. With samples of [random.uniform(0.0, 1.0)] in [0, 1): for
    [batch_use_prob = 0.0] the training phase causes no event at all and
    leaves the models as they are, its accumulators stay at zero, the
    per-model average training losses are all [+infinity], and no run of
    [TrainModels] contains a backward pass or an optimizer step; for
    [batch_use_prob = 1.0] every model makes one forward pass, one
    backward pass and one optimizer step per training batch, and its
    accumulated example count is the number of examples of the training
    data source. *)
Theorem batch_use_prob_boundaries
  (uniform clock : nat -> float)
  (train_loader val_loader : list (list Tensor))
  (train_settings : list (TrainSettings Params))
  (out_prefix : string) (print_log : bool) (log_dir : string) :
  (forall k, (0 <=? uniform k)%float = true /\
             (uniform k <? 1)%float = true) ->
  (forall ni nl (w w' : World) ev r,
     train_phase uniform train_loader train_settings 0 ni nl w
       = (w', ev, r) ->
     ev = [] /\ nets w' = nets w /\
     forall losses examples, r = Ok (losses, examples) ->
       losses = repeat 0%float (length (nets w)) /\
       examples = repeat 0%Z (length (nets w)) /\
       AverageLosses losses examples = Ok (repeat inf (length (nets w)))) /\
  (forall nets0 nets' ev r,
     TrainModels uniform clock train_loader val_loader train_settings
       out_prefix 0 print_log log_dir nets0 = (nets', ev, r) ->
     Forall (fun e => is_gradient_event e = false) ev) /\
  (forall ni nl (w w' : World) ev losses examples,
     train_phase uniform train_loader train_settings 1 ni nl w
       = (w', ev, Ok (losses, examples)) ->
     examples = repeat (dataset_size ni train_loader) (length (nets w)) /\
     forall i, i < length (nets w) ->
       count (is_forward i) ev = length train_loader /\
       count (is_backward i) ev = length train_loader /\
       count (is_step i) ev = length train_loader).
Proof.
  intros Hu.
  assert (H0 : forall k, (uniform k <? 0)%float = false)
    by (intros k; apply ltb_zero_false, Hu).
  assert (H1 : forall k, (uniform k <? 1)%float = true)
    by (intros k; apply Hu).
  split; [|split].
  - intros ni nl w w' ev r H.
    apply train_phase_skipped in H as (Hw & -> & Hacc); [|assumption].
    repeat split; try assumption;
      specialize (Hacc _ H); injection Hacc as -> ->; try reflexivity.
    apply AverageLosses_no_data.
  - intros nets0 nets' ev r H. unfold TrainModels in H.
    destruct (TrainModels_body _ _ _ _ _ _ _ _ _ _) as [[w1 ev1] r1] eqn:E.
    injection H as <- <- <-.
    now apply (TrainModels_body_no_gradient _ _ _ _ _ _ _ _ _ H0) in E.
  - intros ni nl w w' ev losses examples H. split.
    + apply (train_phase_taken _ _ _ _ _ _ _ _ _ _ is_step) in H;
        [|auto|assumption].
      apply H.
    + intros i Hi. repeat split.
      * apply (train_phase_taken _ _ _ _ _ _ _ _ _ _ is_forward) in H;
          [|auto|assumption].
        now apply H.
      * apply (train_phase_taken _ _ _ _ _ _ _ _ _ _ is_backward) in H;
          [|auto|assumption].
        now apply H.
      * apply (train_phase_taken _ _ _ _ _ _ _ _ _ _ is_step) in H;
          [|auto|assumption].
        now apply H.
Qed.

End WithParams.

(** The theorem at a run of two models on two batches of 2 and 3
    examples. *)
Lemma batch_use_prob_boundaries_witness :
  [5; 5]%Z = repeat (dataset_size 1 [Example.batch_a; Example.batch_b]) 2 /\
  forall i, i < 2 ->
    count (is_forward i)
      (snd (fst (train_phase Example.half
                   [Example.batch_a; Example.batch_b]
                   [Example.settings 1; Example.settings 1] 1 1 1
                   (mkWorld [Example.a_net; Example.a_net] 0 0)))) = 2 /\
    count (is_backward i)
      (snd (fst (train_phase Example.half
                   [Example.batch_a; Example.batch_b]
                   [Example.settings 1; Example.settings 1] 1 1 1
                   (mkWorld [Example.a_net; Example.a_net] 0 0)))) = 2 /\
    count (is_step i)
      (snd (fst (train_phase Example.half
                   [Example.batch_a; Example.batch_b]
                   [Example.settings 1; Example.settings 1] 1 1 1
                   (mkWorld [Example.a_net; Example.a_net] 0 0)))) = 2.
Proof.
  assert (Hu : forall k, (0 <=? Example.half k)%float = true /\
                         (Example.half k <? 1)%float = true)
    by (intros k; split; reflexivity).
  pose proof (proj2 (proj2
    (batch_use_prob_boundaries nat Example.half Example.ticks
       [Example.batch_a; Example.batch_b] [] 
       [Example.settings 1; Example.settings 1] "out" false "" Hu))) as H.
  destruct (train_phase Example.half [Example.batch_a; Example.batch_b]
              [Example.settings 1; Example.settings 1] 1 1 1
              (mkWorld [Example.a_net; Example.a_net] 0 0))
    as [[w' ev] r] eqn:E.
  assert (Er : r = Ok ([3%float; 3%float], [5; 5]%Z)).
  { vm_compute in E. now injection E as _ _ <-. }
  subst r. exact (H 1 1 _ _ _ _ _ E).
Defined.

End TrainFacts.

(* ================================================================== *)
(** * The validation phase *)
(* ================================================================== *)

Module ValFacts.
Import Engine Observations BaseFacts MonadFacts MetricsFacts PassFacts.
Import TrainFacts.

Section WithParams.
Variable Params : Type.
Local Abbreviation M := (Engine.M Params).
Local Abbreviation World := (Engine.World Params).
Local Abbreviation Event := (Engine.Event Params).

(** ** Switching the mode of every model *)

Section Mode.
Variable b : bool.
Variable E : nat -> Event.

Lemma set_mode_range m : forall k (w w' : World) ev u,
  foldM (fun (_ : unit) i =>
           bind (update_net i (with_training b)) (fun _ => emit (E i)))
        (seq k m) tt w = (w', ev, Ok u) ->
  ev = map E (seq k m) /\
  length (nets w') = length (nets w) /\
  forall i, nth_error (nets w') i =
            if (k <=? i)%nat && (i <? k + m)%nat
            then option_map (with_training b) (nth_error (nets w) i)
            else nth_error (nets w) i.
Proof.
  induction m as [|m IH]; intros k w w' ev u H.
  - injection H as <- <- _. repeat split; try reflexivity.
    intros i. bool_cases; simpl; try reflexivity; lia.
  - simpl seq in H. rewrite foldM_cons in H.
    apply bind_Ok in H as (w1 & ev1 & [] & ev2 & H1 & H2 & ->).
    apply bind_Ok in H1 as (w2 & ev3 & [] & ev4 & H1 & H3 & ->).
    apply update_net_Ok in H1 as (-> & Hlen & n & Hn & Hnets).
    apply emit_run in H3 as (-> & -> & _).
    apply IH in H2 as (-> & Hlen2 & Hnth).
    repeat split; [congruence|].
    intros i. rewrite Hnth, Hnets, nth_error_set_index.
    assert (Hk : k < length (nets w))
      by (apply nth_error_Some; congruence).
    bool_cases; subst; rewrite ?Hn; simpl; try reflexivity; lia.
Qed.

Lemma set_mode_all (w w' : World) ev u :
  foldM (fun (_ : unit) i =>
           bind (update_net i (with_training b)) (fun _ => emit (E i)))
        (seq 0 (length (nets w))) tt w = (w', ev, Ok u) ->
  ev = map E (seq 0 (length (nets w))) /\
  length (nets w') = length (nets w) /\
  Forall (fun n => training n = b) (nets w').
Proof.
  intros H. apply set_mode_range in H as (-> & Hlen & Hnth).
  repeat split; try assumption.
  apply Forall_forall. intros n Hin.
  apply In_nth_error in Hin as [i Hi].
  assert (Hlt : i < length (nets w')) by (apply nth_error_Some; congruence).
  rewrite Hnth in Hi. simpl in Hi.
  rewrite (proj2 (Nat.ltb_lt _ _)) in Hi by lia.
  destruct (nth_error (nets w) i) as [n0|]; [|discriminate Hi].
  injection Hi as <-. reflexivity.
Qed.

Lemma set_mode_all_nets (w w' : World) ev u :
  foldM (fun (_ : unit) i =>
           bind (update_net i (with_training b)) (fun _ => emit (E i)))
        (seq 0 (length (nets w))) tt w = (w', ev, Ok u) ->
  nets w' = map (with_training b) (nets w).
Proof.
  intros H. apply set_mode_range in H as (_ & Hlen & Hnth).
  apply nth_error_ext. intros i. rewrite Hnth, nth_error_map. simpl.
  destruct (Nat.ltb_spec i (length (nets w))) as [Hi|Hi]; [reflexivity|].
  now rewrite (proj2 (nth_error_None _ _) Hi).
Qed.

End Mode.

(** ** One model on one validation batch *)

Section Val.
Variable train_settings : list (TrainSettings Params).

Lemma val_net_Ok iv lv wv acc idx (w w' : World) ev acc' :
  val_net train_settings iv lv wv acc idx w = (w', ev, Ok acc') ->
  length (nets w') = length (nets w) /\
  (exists loss_value, accumulate acc idx iv loss_value = Ok acc') /\
  forall i, count (is_forward i) ev = if (i =? idx)%nat then 1 else 0.
Proof.
  intros H. unfold val_net in H.
  apply bind_Ok in H as (w2 & ev3 & out & ev4 & H1 & H & ->).
  apply net_call_Ok in H1 as (-> & n & Hn & -> & _).
  apply bind_Ok in H as (w3 & ev5 & ts & ev6 & H1 & H & ->).
  apply lift_run in H1 as (-> & -> & _).
  apply bind_Ok in H as (w4 & ev7 & loss_value & ev8 & H1 & H & ->).
  apply lift_run in H1 as (-> & -> & _).
  apply lift_run in H as (-> & -> & H).
  repeat split; [eauto|].
  intros i. unfold count. simpl. destruct (i =? idx)%nat; reflexivity.
Qed.

Lemma eval_forward_in_eval_world i (w : World) n :
  all_eval w -> nth_error (nets w) i = Some n ->
  is_eval_forward (EvForward (Params:=Params) i (training n)).
Proof.
  intros Hw Hn. exists i.
  unfold all_eval in Hw. rewrite Forall_forall in Hw.
  now rewrite (Hw n (nth_error_In _ _ Hn)).
Qed.

(** In a world whose models are all in evaluation mode the validation
    loop changes no mode and makes forward passes only, in evaluation
    mode. *)
Lemma val_loop_eval ni nl loader acc :
  always all_eval is_eval_forward
    (foldM (val_batch train_settings ni nl) loader acc).
Proof. always_tac ltac:(apply eval_forward_in_eval_world). Qed.

(** ** The summed losses of the validation pass *)

Lemma val_net_loss iv lv wv acc idx (w w' : World) ev acc' :
  val_net train_settings iv lv wv acc idx w = (w', ev, Ok acc') ->
  w' = w /\
  exists n ts c r,
    nth_error (nets w) idx = Some n /\
    nth_error train_settings idx = Some ts /\
    step_contribution n ts iv lv wv = Ok c /\
    nth_error (fst acc) idx = Some r /\
    fst acc' = set_index (fst acc) idx (r + c)%float.
Proof.
  intros H. unfold val_net in H.
  apply bind_Ok in H as (w2 & ev3 & out & ev4 & H1 & H & ->).
  apply net_call_Ok in H1 as (-> & n & Hn & -> & Hout).
  apply bind_Ok in H as (w3 & ev5 & ts & ev6 & H1 & H & ->).
  apply lift_run in H1 as (-> & -> & Hts). symmetry in Hts.
  apply bind_Ok in H as (w4 & ev7 & loss_value & ev8 & H1 & H & ->).
  apply lift_run in H1 as (-> & -> & Hloss). symmetry in Hloss.
  apply lift_run in H as (-> & -> & H). symmetry in H.
  split; [reflexivity|].
  destruct acc as [losses examples]. unfold accumulate in H.
  apply rbind_Ok in H as (bs & Hbs & H).
  apply rbind_Ok in H as (c0 & Hc0 & H).
  apply rbind_Ok in H as (r & Hr & H).
  apply rbind_Ok in H as (l0 & Hl0 & H).
  apply rbind_Ok in H as (p & Hp & H).
  injection H as <-. apply index_Ok in Hts, Hr.
  exists n, ts, p, r. repeat split; try assumption.
  unfold step_contribution. rewrite Hout. simpl.
  rewrite Hloss. simpl. rewrite Hbs. simpl. rewrite Hl0. simpl. exact Hp.
Qed.

Lemma val_inner_loss iv lv wv m : forall k acc (w w' : World) ev acc',
  foldM (val_net train_settings iv lv wv) (seq k m) acc w
    = (w', ev, Ok acc') ->
  w' = w /\
  forall i,
    if (k <=? i)%nat && (i <? k + m)%nat then
      exists n ts c r,
        nth_error (nets w) i = Some n /\
        nth_error train_settings i = Some ts /\
        step_contribution n ts iv lv wv = Ok c /\
        nth_error (fst acc) i = Some r /\
        nth_error (fst acc') i = Some (r + c)%float
    else nth_error (fst acc') i = nth_error (fst acc) i.
Proof.
  induction m as [|m IH]; intros k acc w w' ev acc' H.
  - injection H as <- <- <-. split; [reflexivity|].
    intros i. bool_cases; simpl; auto; lia.
  - simpl seq in H. rewrite foldM_cons in H.
    apply bind_Ok in H as (w1 & ev1 & acc1 & ev2 & H1 & H2 & ->).
    apply val_net_loss in H1
      as (-> & n & ts & c & r & Hn & Hts & Hc & Hr & Hacc1).
    apply IH in H2 as (-> & Hrest).
    split; [reflexivity|].
    assert (Hk : k < length (fst acc))
      by (apply nth_error_Some; congruence).
    intros i. specialize (Hrest i). rewrite Hacc1 in Hrest.
    rewrite nth_error_set_index in Hrest.
    destruct (Nat.eq_dec i k) as [->|Hne].
    + replace ((k <=? k)%nat && (k <? k + S m)%nat) with true
        by (bool_cases; simpl; try reflexivity; lia).
      replace ((S k <=? k)%nat && (k <? S k + m)%nat) with false in Hrest
        by (bool_cases; simpl; try reflexivity; lia).
      rewrite Nat.eqb_refl, (proj2 (Nat.ltb_lt _ _) Hk) in Hrest.
      exists n, ts, c, r. auto.
    + rewrite (proj2 (Nat.eqb_neq k i)) in Hrest by congruence.
      replace ((k <=? i)%nat && (i <? k + S m)%nat)
        with ((S k <=? i)%nat && (i <? S k + m)%nat)
        by (bool_cases; simpl; try reflexivity; lia).
      exact Hrest.
Qed.

Lemma val_batch_loss ni nl acc b (w w' : World) ev acc' :
  val_batch train_settings ni nl acc b w = (w', ev, Ok acc') ->
  w' = w /\
  forall i, i < length (nets w) ->
    exists n ts c r,
      nth_error (nets w) i = Some n /\
      nth_error train_settings i = Some ts /\
      contribution n ts ni nl b = Ok c /\
      nth_error (fst acc) i = Some r /\
      nth_error (fst acc') i = Some (r + c)%float.
Proof.
  intros H. unfold val_batch in H.
  apply bind_Ok in H as (w1 & ev1 & [[iv lv] wv] & ev2 & H1 & H2 & ->).
  apply lift_run in H1 as (-> & -> & Hb). symmetry in Hb.
  apply bind_Ok in H2 as (w2 & ev3 & n & ev4 & H2 & H3 & ->).
  injection H2 as <- <- <-.
  apply val_inner_loss in H3 as (-> & Hall).
  split; [reflexivity|]. intros i Hi. specialize (Hall i). simpl in Hall.
  rewrite (proj2 (Nat.ltb_lt _ _) Hi) in Hall.
  destruct Hall as (n & ts & c & r & Hn & Hts & Hc & Hr & Hacc).
  exists n, ts, c, r. repeat split; try assumption.
  unfold contribution. now rewrite Hb.
Qed.

Lemma val_loop_loss ni nl loader : forall acc (w w' : World) ev acc',
  foldM (val_batch train_settings ni nl) loader acc w = (w', ev, Ok acc') ->
  w' = w /\
  forall i n r0,
    nth_error (nets w) i = Some n ->
    nth_error (fst acc) i = Some r0 ->
    exists cs,
      nth_error (fst acc') i = Some (fold_left PrimFloat.add cs r0) /\
      Forall2 (fun b c => exists ts,
                 nth_error train_settings i = Some ts /\
                 contribution n ts ni nl b = Ok c) loader cs.
Proof.
  induction loader as [|b loader IH]; intros acc w w' ev acc' H.
  - injection H as <- <- <-. split; [reflexivity|].
    intros i n r0 _ Hr0. exists []. split; [exact Hr0 | constructor].
  - rewrite foldM_cons in H.
    apply bind_Ok in H as (w1 & ev1 & acc1 & ev2 & H1 & H2 & ->).
    apply val_batch_loss in H1 as (-> & Hone).
    apply IH in H2 as (-> & Hrest).
    split; [reflexivity|]. intros i n r0 Hn Hr0.
    assert (Hi : i < length (nets w))
      by (apply nth_error_Some; congruence).
    destruct (Hone i Hi) as (n' & ts & c & r & Hn' & Hts & Hc & Hr & Hacc1).
    assert (n' = n) by congruence. assert (r = r0) by congruence. subst.
    destruct (Hrest i n _ Hn Hacc1) as (cs & Hacc' & Hcs).
    exists (c :: cs). split; [exact Hacc'|].
    constructor; [eauto | assumption].
Qed.

(** From zero, the summed loss of every model is the sum, batch after
    batch, of what it contributes in evaluation mode. *)
Lemma val_phase_losses val_loader ni nl (w w' : World) ev losses examples :
  val_phase val_loader train_settings ni nl w
    = (w', ev, Ok (losses, examples)) ->
  forall i n, nth_error (nets w) i = Some n ->
    exists cs,
      nth_error losses i = Some (fold_left PrimFloat.add cs 0%float) /\
      Forall2 (fun b c => exists ts,
                 nth_error train_settings i = Some ts /\
                 contribution (with_training false n) ts ni nl b = Ok c)
              val_loader cs.
Proof.
  intros H i n Hn. unfold val_phase in H.
  apply bind_Ok in H as (w0 & ev0 & k & ev0' & H0 & H & ->).
  injection H0 as <- <- <-.
  apply bind_Ok in H as (w1 & ev1 & [] & ev2 & H1 & H & ->).
  apply set_mode_all_nets in H1.
  apply bind_Ok in H as (w2 & ev_pass & acc & ev3 & H2 & H & ->).
  apply bind_Ok in H as (w3 & ev4 & [] & ev5 & H3 & H & ->).
  injection H as _ _ ->.
  apply val_loop_loss in H2 as (_ & Hloss).
  apply (Hloss i (with_training false n) 0%float).
  - rewrite H1, nth_error_map, Hn. reflexivity.
  - simpl. apply nth_error_repeat. apply nth_error_Some. congruence.
Qed.

(** What a completed validation phase has done. *)
Lemma val_phase_Ok val_loader ni nl (w w' : World) ev
  losses examples :
  val_phase val_loader train_settings ni nl w
    = (w', ev, Ok (losses, examples)) ->
  exists ev_pass,
    ev = map EvEval (seq 0 (length (nets w))) ++ ev_pass
         ++ map EvTrain (seq 0 (length (nets w))) /\
    Forall is_eval_forward ev_pass /\
    (forall i, i < length (nets w) ->
       count (is_forward i) ev_pass = length val_loader) /\
    examples = repeat (dataset_size ni val_loader) (length (nets w)) /\
    length losses = length (nets w) /\
    length (nets w') = length (nets w) /\
    all_train w'.
Proof.
  intros H. unfold val_phase in H.
  apply bind_Ok in H as (w0 & ev0 & n & ev0' & H0 & H & ->).
  injection H0 as <- <- <-.
  apply bind_Ok in H as (w1 & ev1 & [] & ev2 & H1 & H & ->).
  apply set_mode_all in H1 as (-> & Hlen1 & Hmode1).
  apply bind_Ok in H as (w2 & ev_pass & acc & ev3 & H2 & H & ->).
  apply bind_Ok in H as (w3 & ev4 & [] & ev5 & H3 & H & ->).
  injection H as <- <- ->.
  pose proof (val_loop_eval ni nl val_loader _ w1 w2 ev_pass _ Hmode1 H2)
    as [_ Hpass].
  rewrite <- Hlen1 in H2.
  apply (fun Hf => pass_fresh_Ok Params (val_net train_settings) is_forward
           Hf ni nl val_loader w1 w2 ev_pass (losses, examples)) in H2;
    [|apply val_net_Ok].
  destruct H2 as (Hlen2 & Hl & Hs & Hcount).
  rewrite <- Hlen1, <- Hlen2 in H3.
  apply set_mode_all in H3 as (-> & Hlen3 & Hmode3).
  exists ev_pass. simpl in *.
  rewrite app_nil_r, Hlen2, Hlen1 in *.
  repeat split; try assumption; congruence.
Qed.

(** C8. A validation phase that completes has switched every model to
    evaluation mode first and back to train mode last; between the two,
    every event is a forward pass in evaluation mode and each model makes
    exactly one per validation batch (there is no sampling); the
    accumulators start at zero in every call: the example count of every
    model ends as the size of the validation data source, and its summed
    loss as the sum over the batches, in order, of
    [loss_value.data[0] * batch_size] of the model in evaluation mode. *)
Theorem validation_phase_spec val_loader ni nl (w w' : World) ev
  losses examples :
  val_phase val_loader train_settings ni nl w
    = (w', ev, Ok (losses, examples)) ->
  (exists ev_pass,
     ev = map EvEval (seq 0 (length (nets w))) ++ ev_pass
          ++ map EvTrain (seq 0 (length (nets w))) /\
     Forall is_eval_forward ev_pass /\
     (forall i, i < length (nets w) ->
        count (is_forward i) ev_pass = length val_loader) /\
     examples = repeat (dataset_size ni val_loader) (length (nets w)) /\
     length losses = length (nets w) /\
     length (nets w') = length (nets w) /\
     all_train w') /\
  (forall i n, nth_error (nets w) i = Some n ->
     exists cs,
       nth_error losses i = Some (fold_left PrimFloat.add cs 0%float) /\
       Forall2 (fun b c => exists ts,
                  nth_error train_settings i = Some ts /\
                  contribution (with_training false n) ts ni nl b = Ok c)
               val_loader cs).
Proof.
  intros H. split.
  - eapply val_phase_Ok; eassumption.
  - eapply val_phase_losses; eassumption.
Qed.

End Val.
End WithParams.

(** The theorem at a validation pass of two models over two batches of
    2 and 3 examples. *)
Lemma validation_phase_spec_witness :
  (exists ev_pass,
     [EvEval 0; EvEval 1; EvForward 0 false; EvForward 1 false;
      EvForward 0 false; EvForward 1 false; EvTrain 0; EvTrain 1]
     = map EvEval (seq 0 2) ++ ev_pass ++ map (@EvTrain nat) (seq 0 2) /\
     Forall is_eval_forward ev_pass /\
     (forall i, i < 2 -> count (is_forward i) ev_pass = 2) /\
     [5; 5]%Z
     = repeat (dataset_size 1 [Example.batch_a; Example.batch_b]) 2 /\
     length [3%float; 3%float] = 2 /\
     length [Example.a_net; Example.a_net] = 2 /\
     all_train (mkWorld [Example.a_net; Example.a_net] 0 0)) /\
  (forall i n, nth_error [Example.a_net; Example.a_net] i = Some n ->
     exists cs,
       nth_error [3%float; 3%float] i
       = Some (fold_left PrimFloat.add cs 0%float) /\
       Forall2 (fun b c => exists ts,
                  nth_error [Example.settings 1; Example.settings 1] i
                  = Some ts /\
                  contribution (with_training false n) ts 1 1 b = Ok c)
               [Example.batch_a; Example.batch_b] cs).
Proof.
  exact (validation_phase_spec nat
           [Example.settings 1; Example.settings 1]
           [Example.batch_a; Example.batch_b] 1 1
           (mkWorld [Example.a_net; Example.a_net] 0 0)
           (mkWorld [Example.a_net; Example.a_net] 0 0)
           [EvEval 0; EvEval 1; EvForward 0 false; EvForward 1 false;
            EvForward 0 false; EvForward 1 false; EvTrain 0; EvTrain 1]
           [3%float; 3%float] [5; 5]%Z eq_refl).
Defined.

End ValFacts.

(* ================================================================== *)
(** * The checkpoint policy *)
(* ================================================================== *)

Module CheckpointFacts.
Import Engine Observations BaseFacts MonadFacts MetricsFacts PassFacts.
Import TrainFacts ValFacts.

Section WithParams.
Variable Params : Type.
Local Abbreviation M := (Engine.M Params).
Local Abbreviation World := (Engine.World Params).
Local Abbreviation Event := (Engine.Event Params).

Lemma torch_save_Ok i path (w w' : World) ev u :
  torch_save i path w = (w', ev, Ok u) ->
  w' = w /\ exists n, nth_error (nets w) i = Some n /\
                      ev = [EvSave path (params n)].
Proof.
  unfold torch_save, bind, get_net, index, emit.
  destruct (nth_error (nets w) i) as [n|]; simpl; intros H;
    [|discriminate H].
  injection H as <- <- _. eauto.
Qed.

(** [net.cpu(); torch.save(...); net.cuda()] causes the three events of a
    checkpoint and changes no count. *)
Lemma save_checkpoint_Ok i path (w w' : World) ev u :
  save_checkpoint i path w = (w', ev, Ok u) ->
  length (nets w') = length (nets w) /\
  exists p, ev = checkpoint_events path i p.
Proof.
  intros H. unfold save_checkpoint, net_cpu, net_cuda in H.
  apply bind_Ok in H as (w1 & ev1 & [] & ev2 & H1 & H & ->).
  apply bind_Ok in H1 as (w2 & ev3 & [] & ev4 & H1 & H2 & ->).
  apply update_net_Ok in H1 as (-> & Hl1 & _).
  apply emit_run in H2 as (-> & -> & _).
  apply bind_Ok in H as (w3 & ev5 & [] & ev6 & H1 & H & ->).
  apply torch_save_Ok in H1 as (-> & n & Hn & ->).
  apply bind_Ok in H as (w4 & ev7 & [] & ev8 & H1 & H & ->).
  apply update_net_Ok in H1 as (-> & Hl2 & _).
  apply emit_run in H as (-> & -> & _).
  split; [congruence|]. exists (params n). reflexivity.
Qed.

Lemma is_save_refl path (p : Params) : is_save path (EvSave path p) = true.
Proof. simpl. apply String.eqb_refl. Qed.

Lemma count_save_checkpoint path path' i (p : Params) :
  count (is_save path) (checkpoint_events path' i p)
  = if (path =? path')%string then 1 else 0.
Proof. unfold count. simpl. now destruct (path =? path')%string. Qed.

Lemma count_save_In path (ev : list Event) :
  0 < count (is_save path) ev <-> exists p, In (EvSave path p) ev.
Proof.
  unfold count. induction ev as [|e ev IH]; simpl.
  - split; [lia | intros [p []]].
  - destruct (is_save path e) eqn:E.
    + split; [|simpl; lia]. intros _.
      destruct e; try discriminate E. simpl in E.
      apply String.eqb_eq in E as <-. eauto.
    + rewrite IH. split; intros [p Hp]; exists p; [now right|].
      destruct Hp as [-> | Hp]; [|assumption].
      rewrite is_save_refl in E. discriminate E.
Qed.

Section Policy.
Variable out_prefix : string.
Variable validation_avg_losses : list float.

Lemma checkpoint_net_Ok mins idx (w w' : World) ev mins' :
  checkpoint_net out_prefix validation_avg_losses mins idx w
    = (w', ev, Ok mins') ->
  length (nets w') = length (nets w) /\
  exists v m,
    nth_error validation_avg_losses idx = Some v /\
    nth_error mins idx = Some m /\
    mins' = (if (v <? m)%float then set_index mins idx v else mins) /\
    count (is_save (best_path out_prefix idx)) ev
    = (if (v <? m)%float then 1 else 0) /\
    forall path, path <> best_path out_prefix idx ->
                 count (is_save path) ev = 0.
Proof.
  intros H. unfold checkpoint_net in H.
  apply bind_Ok in H as (w1 & ev1 & v & ev2 & H1 & H & ->).
  apply lift_run in H1 as (-> & -> & Hv). symmetry in Hv.
  apply bind_Ok in H as (w2 & ev3 & m & ev4 & H1 & H & ->).
  apply lift_run in H1 as (-> & -> & Hm). symmetry in Hm.
  apply index_Ok in Hv, Hm.
  destruct (v <? m)%float eqn:Hlt.
  - apply bind_Ok in H as (w3 & ev5 & [] & ev6 & H1 & H & ->).
    injection H as <- <- <-.
    apply save_checkpoint_Ok in H1 as (Hlen & p & ->).
    split; [assumption|]. exists v, m. rewrite Hlt.
    cbn [app]. rewrite app_nil_r.
    repeat split; try assumption.
    + rewrite count_save_checkpoint, String.eqb_refl. reflexivity.
    + intros path Hp. rewrite count_save_checkpoint.
      now rewrite (proj2 (String.eqb_neq _ _) Hp).
  - injection H as <- <- <-. split; [reflexivity|].
    exists v, m. rewrite Hlt. auto.
Qed.

Lemma checkpoint_range m : forall k mins (w w' : World) ev mins',
  foldM (checkpoint_net out_prefix validation_avg_losses) (seq k m) mins w
    = (w', ev, Ok mins') ->
  length (nets w') = length (nets w) /\
  length mins' = length mins /\
  forall i,
    if (k <=? i)%nat && (i <? k + m)%nat then
      exists v m0,
        nth_error validation_avg_losses i = Some v /\
        nth_error mins i = Some m0 /\
        nth_error mins' i = Some (if (v <? m0)%float then v else m0) /\
        count (is_save (best_path out_prefix i)) ev
        = (if (v <? m0)%float then 1 else 0)
    else
      nth_error mins' i = nth_error mins i /\
      count (is_save (best_path out_prefix i)) ev = 0.
Proof.
  induction m as [|m IH]; intros k mins w w' ev mins' H.
  - injection H as <- <- <-. repeat split; try reflexivity.
    intros i. bool_cases; simpl; auto; lia.
  - simpl seq in H. rewrite foldM_cons in H.
    apply bind_Ok in H as (w1 & ev1 & mins1 & ev2 & H1 & H2 & ->).
    apply checkpoint_net_Ok in H1
      as (Hlen1 & v & m0 & Hv & Hm0 & Hmins1 & Hc1 & Hother).
    apply IH in H2 as (Hlen2 & Hl2 & Hrest).
    assert (Hl1 : length mins1 = length mins)
      by (rewrite Hmins1; destruct (v <? m0)%float;
          [apply set_index_length | reflexivity]).
    assert (Hk : k < length mins) by (apply nth_error_Some; congruence).
    repeat split; try congruence.
    intros i. specialize (Hrest i). unfold count in *.
    rewrite filter_app, length_app.
    destruct (Nat.eq_dec i k) as [->|Hne].
    + replace ((k <=? k)%nat && (k <? k + S m)%nat) with true
        by (bool_cases; simpl; try reflexivity; lia).
      replace ((S k <=? k)%nat && (k <? S k + m)%nat) with false in Hrest
        by (bool_cases; simpl; try reflexivity; lia).
      destruct Hrest as [Hn Hc]. exists v, m0.
      rewrite Hn, Hc, Hc1, Hmins1.
      repeat split; try assumption; [|destruct (v <? m0)%float; lia].
      destruct (v <? m0)%float; [|assumption].
      rewrite nth_error_set_index, Nat.eqb_refl.
      now rewrite (proj2 (Nat.ltb_lt _ _) Hk).
    + assert (Hp : best_path out_prefix i <> best_path out_prefix k)
        by (intros E; apply best_path_inj in E; contradiction).
      rewrite (Hother _ Hp). simpl.
      assert (Hsame : nth_error mins1 i = nth_error mins i).
      { rewrite Hmins1. destruct (v <? m0)%float; [|reflexivity].
        rewrite nth_error_set_index.
        now rewrite (proj2 (Nat.eqb_neq k i)) by congruence. }
      replace ((k <=? i)%nat && (i <? k + S m)%nat)
        with ((S k <=? i)%nat && (i <? S k + m)%nat)
        by (bool_cases; simpl; try reflexivity; lia).
      destruct ((S k <=? i)%nat && (i <? S k + m)%nat).
      * destruct Hrest as (v' & m' & ? & ? & ? & ?).
        exists v', m'. rewrite <- Hsame. auto.
      * rewrite <- Hsame. exact Hrest.
Qed.

(** Lines 161-167 for all models: the minimum of model [i] becomes the
    epoch's average when that is strictly smaller, and exactly then one
    "best" file of model [i] is written. *)
Lemma checkpoint_best_Ok mins (w w' : World) ev mins' :
  checkpoint_best out_prefix validation_avg_losses mins w
    = (w', ev, Ok mins') ->
  length (nets w') = length (nets w) /\
  length mins' = length mins /\
  forall i, i < length (nets w) ->
    exists v m,
      nth_error validation_avg_losses i = Some v /\
      nth_error mins i = Some m /\
      nth_error mins' i = Some (if (v <? m)%float then v else m) /\
      count (is_save (best_path out_prefix i)) ev
      = (if (v <? m)%float then 1 else 0).
Proof.
  intros H. unfold checkpoint_best in H.
  apply bind_Ok in H as (w0 & ev0 & n & ev1 & H0 & H & ->).
  injection H0 as <- <- <-.
  apply checkpoint_range in H as (Hlen & Hl & Hrange).
  repeat split; try assumption.
  intros i Hi. specialize (Hrange i). simpl in Hrange.
  now rewrite (proj2 (Nat.ltb_lt _ _) Hi) in Hrange.
Qed.

End Policy.
(** ** One epoch *)

Lemma printed_app (a b : list Event) : printed (a ++ b) = printed a ++ printed b.
Proof.
  induction a as [|e a IH]; simpl; [reflexivity|].
  destruct e; simpl; now rewrite ?IH.
Qed.

Lemma count_app (p : Event -> bool) a b :
  count p (a ++ b) = count p a + count p b.
Proof. unfold count. now rewrite filter_app, length_app. Qed.

Lemma quiet_printed (ev : list Event) :
  Forall (fun e => is_quiet e = true) ev -> printed ev = [].
Proof.
  induction 1 as [|e ev He _ IH]; [reflexivity|].
  destruct e; simpl; try assumption. discriminate He.
Qed.

Lemma quiet_count_save path (ev : list Event) :
  Forall (fun e => is_quiet e = true) ev -> count (is_save path) ev = 0.
Proof.
  unfold count. induction 1 as [|e ev He _ IH]; [reflexivity|].
  destruct e; simpl; try assumption. discriminate He.
Qed.

Lemma forM_emit (E : nat -> Event) l (w : World) :
  forM_ l (fun i => emit (E i)) w = (w, map E l, Ok tt).
Proof.
  unfold forM_. induction l as [|i l IH]; [reflexivity|].
  rewrite foldM_cons. erewrite bind_step by reflexivity.
  now rewrite IH.
Qed.

Section Epoch.
Variable uniform clock : nat -> float.
Variable train_loader val_loader : list (list Tensor).
Variable train_settings : list (TrainSettings Params).
Variable out_prefix : string.
Variable batch_use_prob : float.
Variable print_log : bool.
Variable log_dir : string.

Lemma train_phase_quiet k ni nl :
  always (count_is k) (fun e => is_quiet e = true)
    (train_phase uniform train_loader train_settings batch_use_prob ni nl).
Proof.
  always_tac ltac:(first [ reflexivity | apply count_is_nets
                         | apply count_is_update ]).
Qed.

Lemma val_phase_quiet k ni nl :
  always (count_is k) (fun e => is_quiet e = true)
    (val_phase val_loader train_settings ni nl).
Proof.
  always_tac ltac:(first [ reflexivity | apply count_is_nets
                         | apply count_is_update ]).
Qed.

(** What a completed epoch has done. *)
Lemma run_epoch_Ok ni nl st epoch (w w' : World) ev st' :
  run_epoch uniform clock train_loader val_loader train_settings out_prefix
    batch_use_prob print_log log_dir ni nl st epoch w = (w', ev, Ok st') ->
  exists ev_phases ev_ckpt w_pre ev_val w_val vacc vavg metrics marker acc,
    val_phase val_loader train_settings ni nl w_pre
      = (w_val, ev_val, Ok vacc) /\
    ev = ev_phases ++ ev_ckpt
         ++ (if print_log then [EvPrint epoch metrics marker] else [])
         ++ (if negb (log_dir =? "")%string
             then [EvLogValue "train_loss" (train_loss metrics) epoch;
                   EvLogValue "val_loss" (val_loss metrics) epoch]
             else []) /\
    Forall (fun e => is_quiet e = true) ev_phases /\
    length (nets w_val) = length (nets w) /\
    snd vacc = repeat (dataset_size ni val_loader) (length (nets w)) /\
    sum_int (snd acc) <> 0%Z /\
    sum_int (snd vacc) <> 0%Z /\
    pooled_average (fst acc) (snd acc) = Ok (train_loss metrics) /\
    pooled_average (fst vacc) (snd vacc) = Ok (val_loss metrics) /\
    AverageLosses (fst vacc) (snd vacc) = Ok vavg /\
    length vavg = length (nets w) /\
    checkpoint_best out_prefix vavg (min_validation_losses st) w_val
      = (w', ev_ckpt, Ok (min_validation_losses st')) /\
    train_log st' = train_log st ++ [metrics].
Proof.
  intros H. unfold run_epoch in H.
  apply bind_Ok in H as (w1 & ev1 & [] & ev1' & H1 & H & ->).
  rewrite forM_emit in H1. injection H1 as <- <-.
  apply bind_Ok in H as (w2 & ev2 & t0 & ev2' & H1 & H & ->).
  injection H1 as <- <- <-.
  apply bind_Ok in H as (w3 & ev3 & [rl te] & ev3' & Htrain & H & ->).
  apply bind_Ok in H as (w4 & ev4 & t1 & ev4' & H1 & H & ->).
  injection H1 as <- <- <-.
  apply bind_Ok in H as (w5 & ev5 & eps & ev5' & H1 & H & ->).
  apply lift_run in H1 as (-> & -> & Heps).
  apply bind_Ok in H as (w6 & ev6 & avg & ev6' & H1 & H & ->).
  apply lift_run in H1 as (-> & -> & Havg).
  apply bind_Ok in H as (w7 & ev7 & avgl & ev7' & H1 & H & ->).
  apply lift_run in H1 as (-> & -> & Havgl). symmetry in Havgl.
  apply bind_Ok in H as (w8 & ev8 & [vl ve] & ev8' & Hval & H & ->).
  apply bind_Ok in H as (w9 & ev9 & vavg & ev9' & H1 & H & ->).
  apply lift_run in H1 as (-> & -> & Hvavg). symmetry in Hvavg.
  apply bind_Ok in H as (w10 & ev10 & vavgl & ev10' & H1 & H & ->).
  apply lift_run in H1 as (-> & -> & Hvavgl). symmetry in Hvavgl.
  apply bind_Ok in H as (w11 & ev11 & mins & ev11' & Hck & H & ->).
  apply bind_Ok in H as (w12 & ev12 & [] & ev12' & Hprint & H & ->).
  apply bind_Ok in H as (w13 & ev13 & [] & ev13' & Hlog & H & ->).
  injection H as <- <- <-.
  set (metrics := mkEpochMetrics avgl vavgl _ eps) in *.
  set (marker := if (vavgl <? min_validation_loss st)%float
                 then " **"%string else ""%string) in *.
  assert (Hp : w12 = w11 /\
               ev12 = if print_log then [EvPrint epoch metrics marker]
                      else []).
  { destruct print_log; simpl in Hprint; injection Hprint as <- <-; auto. }
  destruct Hp as [-> ->].
  assert (Hl : w13 = w11 /\
               ev13 = if negb (log_dir =? "")%string
                      then [EvLogValue "train_loss" avgl epoch;
                            EvLogValue "val_loss" vavgl epoch]
                      else []).
  { destruct (negb (log_dir =? "")%string); simpl in Hlog;
      injection Hlog as <- <-; auto. }
  destruct Hl as [-> ->].
  destruct (train_phase_quiet (length (nets w)) ni nl _ _ _ _
              (eq_refl : count_is _ (mkWorld _ _ _)) Htrain)
    as [Hc3 Hq3].
  destruct (val_phase_quiet (length (nets w)) ni nl _ _ _ _
              (Hc3 : count_is _ (mkWorld _ _ _)) Hval)
    as [Hc8 Hq8].
  pose proof Hval as Hval'.
  apply val_phase_Ok in Hval'
    as (_ & _ & _ & _ & Hve & Hvl & _ & _).
  simpl in Hve, Hvl. unfold count_is in Hc3, Hc8. simpl in Hc3.
  rewrite Hc3 in Hve, Hvl.
  exists (map EvZeroGrad (seq 0 (length train_settings)) ++ ev3 ++ ev8),
         ev11, (mkWorld (nets w3) (rand_calls w3) (S (time_calls w3))),
         ev8, w8, (vl, ve), vavg, metrics, marker, (rl, te).
  simpl fst. simpl snd.
  split; [exact Hval|].
  repeat split; try assumption.
  - cbn [app]. rewrite !app_nil_r, <- !app_assoc. reflexivity.
  - apply Forall_app. split; [|now apply Forall_app].
    apply Forall_forall. intros e He. apply in_map_iff in He as (i & <- & _).
    reflexivity.
  - now apply pooled_average_nonzero in Havgl.
  - now apply pooled_average_nonzero in Hvavgl.
  - apply AverageLosses_length in Hvavg. rewrite Hvavg, Hvl, Hve.
    rewrite repeat_length. apply Nat.min_id.
Qed.

End Epoch.
End WithParams.
End CheckpointFacts.

(* ================================================================== *)
(** * Whole runs: the epoch loop and the final checkpoints *)
(* ================================================================== *)

Module RunFacts.
Import Engine Observations BaseFacts MonadFacts MetricsFacts PassFacts.
Import TrainFacts ValFacts CheckpointFacts.

Section WithParams.
Variable Params : Type.
Local Abbreviation M := (Engine.M Params).
Local Abbreviation World := (Engine.World Params).
Local Abbreviation Event := (Engine.Event Params).

Lemma not_last_count out_prefix (ev : list Event) :
  Forall (not_last out_prefix) ev ->
  forall i, count (is_save (last_path out_prefix i)) ev = 0.
Proof.
  intros H i. unfold count.
  induction H as [|e ev [_ He] _ IH]; [reflexivity|].
  simpl. now rewrite (He i).
Qed.

Lemma not_last_printed out_prefix (ev : list Event) :
  Forall (not_last out_prefix) ev -> printed ev = [].
Proof.
  induction 1 as [|e ev [He _] _ IH]; [reflexivity|].
  destruct e; simpl in *; try assumption. discriminate He.
Qed.

Lemma best_not_last out_prefix j (p : Params) :
  not_last out_prefix (EvSave (best_path out_prefix j) p).
Proof.
  split; [reflexivity|].
  intros i. simpl. apply String.eqb_neq. intros E. symmetry in E.
  exact (best_last_distinct _ _ _ E).
Qed.

(** The checkpoint policy writes "best" files only, and no console
    line. *)
Lemma checkpoint_best_not_last out_prefix avg mins :
  always (fun _ : World => True) (not_last out_prefix)
    (checkpoint_best out_prefix avg mins).
Proof.
  always_tac ltac:(first [ exact I | intros; exact I
                         | split; [reflexivity | intro; reflexivity]
                         | intros; apply best_not_last ]).
Qed.

Section Run.
Variable uniform clock : nat -> float.
Variable train_loader val_loader : list (list Tensor).
Variable train_settings : list (TrainSettings Params).
Variable out_prefix : string.
Variable batch_use_prob : float.
Variable print_log : bool.
Variable log_dir : string.

Local Abbreviation epoch_body :=
  (run_epoch uniform clock train_loader val_loader train_settings
     out_prefix batch_use_prob print_log log_dir).

(** ** One epoch: minima, files and log *)

Lemma run_epoch_step ni nl k st epoch (w w' : World) ev st' :
  count_is k w -> mins_ok k st ->
  epoch_body ni nl st epoch w = (w', ev, Ok st') ->
  count_is k w' /\ mins_ok k st' /\
  (exists metrics, train_log st' = train_log st ++ [metrics] /\
     printed ev = if print_log then [(epoch, metrics)] else []) /\
  (forall i, count (is_save (last_path out_prefix i)) ev = 0) /\
  exists w_pre ev_val w_val vacc vavg,
    val_phase val_loader train_settings ni nl w_pre
      = (w_val, ev_val, Ok vacc) /\
    AverageLosses (fst vacc) (snd vacc) = Ok vavg /\
    forall i, i < k ->
      exists v m,
        nth_error vavg i = Some v /\
        nth_error (min_validation_losses st) i = Some m /\
        nth_error (min_validation_losses st') i
        = Some (if (v <? m)%float then v else m) /\
        fle (if (v <? m)%float then v else m) m /\
        ((exists p, In (EvSave (best_path out_prefix i) p) ev)
         <-> (v <? m)%float = true).
Proof.
  intros Hw [Hlen Hnan] H. unfold count_is in Hw.
  apply run_epoch_Ok in H
    as (ev_phases & ev_ckpt & w_pre & ev_val & w_val & vacc & vavg & metrics
        & marker & acc & Hval & -> & Hquiet & Hwv & _ & _ & _ & _ & _
        & Havg & Havgl & Hck & Hlog).
  pose proof (checkpoint_best_not_last out_prefix vavg _ _ _ _ _ I Hck)
    as [_ Hnl].
  apply checkpoint_best_Ok in Hck as (Hw' & Hl' & Hpol).
  rewrite Hwv, Hw in *.
  assert (Hcount : forall path,
    count (is_save path)
      (ev_phases ++ ev_ckpt
       ++ (if print_log then [EvPrint epoch metrics marker] else [])
       ++ (if negb (log_dir =? "")%string
           then [EvLogValue "train_loss" (train_loss metrics) epoch;
                 EvLogValue "val_loss" (val_loss metrics) epoch]
           else []))
    = count (is_save path) ev_ckpt).
  { intros path. rewrite !count_app, (quiet_count_save _ _ _ Hquiet).
    destruct print_log, (negb (log_dir =? "")%string); unfold count; simpl;
      lia. }
  assert (Hkeep : forall i, i < k -> exists v m,
    nth_error vavg i = Some v /\
    nth_error (min_validation_losses st) i = Some m /\
    nth_error (min_validation_losses st') i
    = Some (if (v <? m)%float then v else m) /\
    fle m m /\
    count (is_save (best_path out_prefix i)) ev_ckpt
    = (if (v <? m)%float then 1 else 0)).
  { intros i Hi. destruct (Hpol i Hi) as (v & m & Hv & Hm & Hm' & Hc).
    exists v, m. repeat split; try assumption.
    rewrite Forall_forall in Hnan. apply Hnan.
    eapply nth_error_In; eassumption. }
  split; [exact Hw'|]. split; [|split; [|split]].
  - split; [congruence|]. apply Forall_forall. intros m' Hin.
    apply In_nth_error in Hin as [i Hi].
    assert (Hlt : i < k)
      by (rewrite <- Hlen, <- Hl'; apply nth_error_Some; congruence).
    destruct (Hkeep i Hlt) as (v & m & _ & _ & Hm' & Hmm & _).
    rewrite Hm' in Hi. injection Hi as <-.
    destruct (v <? m)%float eqn:E; [|exact Hmm].
    exact (ltb_fle_refl _ _ E).
  - exists metrics. split; [assumption|].
    rewrite !printed_app, (quiet_printed _ _ Hquiet),
      (not_last_printed _ _ Hnl).
    destruct print_log, (negb (log_dir =? "")%string); reflexivity.
  - intros i. rewrite Hcount. now apply not_last_count.
  - exists w_pre, ev_val, w_val, vacc, vavg.
    repeat split; try assumption.
    intros i Hi. destruct (Hkeep i Hi) as (v & m & Hv & Hm & Hm' & Hmm & Hc).
    exists v, m. repeat split; try assumption.
    + destruct (v <? m)%float eqn:E; [|exact Hmm].
      exact (ltb_fle _ _ E).
    + intros Hin. apply count_save_In in Hin.
      rewrite Hcount, Hc in Hin. destruct (v <? m)%float; [reflexivity|lia].
    + intros E. apply count_save_In. rewrite Hcount, Hc, E. lia.
Qed.

(** ** Any number of epochs *)

Lemma run_epochs_steps ni nl k : forall l st (w w' : World) ev st',
  count_is k w -> mins_ok k st ->
  foldM (epoch_body ni nl) l st w = (w', ev, Ok st') ->
  count_is k w' /\ mins_ok k st' /\
  (exists ms, train_log st' = train_log st ++ ms /\
     length ms = length l /\
     printed ev = if print_log then combine l ms else []) /\
  (forall i, count (is_save (last_path out_prefix i)) ev = 0) /\
  (forall i m m',
     nth_error (min_validation_losses st) i = Some m ->
     nth_error (min_validation_losses st') i = Some m' ->
     fle m' m).
Proof.
  induction l as [|e l IH]; intros st w w' ev st' Hw Hst H.
  - injection H as <- <- <-. repeat split; try assumption;
      try apply Hst.
    + exists []. rewrite app_nil_r. now destruct print_log.
    + intros i m m' Hm Hm'. rewrite Hm in Hm'. injection Hm' as <-.
      destruct Hst as [_ Hnan]. rewrite Forall_forall in Hnan.
      apply Hnan. eapply nth_error_In; eassumption.
  - rewrite foldM_cons in H.
    apply bind_Ok in H as (w1 & ev1 & st1 & ev2 & H1 & H2 & ->).
    apply (run_epoch_step ni nl k) in H1
      as (Hw1 & Hst1 & (m0 & Hlog1 & Hpr1) & Hlast1 & Hpol);
      [|assumption..].
    apply IH in H2 as (Hw2 & Hst2 & (ms & Hlog2 & Hlen2 & Hpr2) & Hlast2
                       & Hmono); [|assumption..].
    split; [assumption|]. split; [assumption|]. split; [|split].
    + exists (m0 :: ms). rewrite Hlog2, Hlog1, <- app_assoc.
      split; [reflexivity|]. split; [simpl; congruence|].
      rewrite printed_app, Hpr1, Hpr2. now destruct print_log.
    + intros i. now rewrite count_app, Hlast1, Hlast2.
    + intros i m m' Hm Hm'.
      destruct Hpol as (wp & evv & wv & vacc & vavg & _ & _ & Hpol).
      assert (Hi : i < k).
      { destruct Hst as [<- _]. apply nth_error_Some. congruence. }
      destruct (Hpol i Hi) as (v & m1 & _ & Hm1 & Hm1' & Hle & _).
      assert (Em : m1 = m) by congruence. subst m1.
      eapply fle_trans; [|exact Hle].
      exact (Hmono i _ _ Hm1' Hm').
Qed.

(** ** The "last" checkpoints *)

Lemma save_last_range m : forall k (w w' : World) ev u,
  foldM (fun (_ : unit) net_id =>
           save_checkpoint net_id (last_path out_prefix net_id))
        (seq k m) tt w = (w', ev, Ok u) ->
  length (nets w') = length (nets w) /\
  (exists ps, length ps = m /\
     ev = concat (map (fun ip => checkpoint_events
                                   (last_path out_prefix (fst ip))
                                   (fst ip) (snd ip))
                      (combine (seq k m) ps))) /\
  forall i, count (is_save (last_path out_prefix i)) ev
            = if (k <=? i)%nat && (i <? k + m)%nat then 1 else 0.
Proof.
  induction m as [|m IH]; intros k w w' ev u H.
  - injection H as <- <- _. repeat split; try reflexivity.
    + exists []. auto.
    + intros i. bool_cases; simpl; try reflexivity; lia.
  - simpl seq in H. rewrite foldM_cons in H.
    apply bind_Ok in H as (w1 & ev1 & [] & ev2 & H1 & H2 & ->).
    apply save_checkpoint_Ok in H1 as (Hlen1 & p & ->).
    apply IH in H2 as (Hlen2 & (ps & Hps & ->) & Hc).
    repeat split; [congruence | |].
    + exists (p :: ps). split; [simpl; congruence | reflexivity].
    + intros i. rewrite count_app, Hc, count_save_checkpoint.
      destruct (String.eqb_spec (last_path out_prefix i)
                                (last_path out_prefix k)) as [E|E].
      * apply last_path_inj in E. subst i.
        bool_cases; simpl; try reflexivity; lia.
      * assert (i <> k) by congruence.
        bool_cases; simpl; try reflexivity; lia.
Qed.

Lemma save_last_Ok (w w' : World) ev u :
  save_last out_prefix w = (w', ev, Ok u) ->
  length (nets w') = length (nets w) /\
  (exists ps, length ps = length (nets w) /\
     ev = concat (map (fun ip => checkpoint_events
                                   (last_path out_prefix (fst ip))
                                   (fst ip) (snd ip))
                      (combine (seq 0 (length (nets w))) ps))) /\
  forall i, i < length (nets w) ->
            count (is_save (last_path out_prefix i)) ev = 1.
Proof.
  intros H. unfold save_last in H.
  apply bind_Ok in H as (w0 & ev0 & n & ev1 & H0 & H & ->).
  injection H0 as <- <- <-.
  apply save_last_range in H as (Hlen & Hev & Hc).
  repeat split; try assumption.
  intros i Hi. rewrite Hc. simpl.
  now rewrite (proj2 (Nat.ltb_lt _ _) Hi).
Qed.

(** ** A completed run *)

Lemma TrainModels_Ok nets0 nets' ev log :
  TrainModels uniform clock train_loader val_loader train_settings
    out_prefix batch_use_prob print_log log_dir nets0 = (nets', ev, Ok log) ->
  exists ts0 net0 w1 w2 ev_run st ev_last,
    nth_error train_settings 0 = Some ts0 /\
    nth_error nets0 0 = Some net0 /\
    run_epochs uniform clock train_loader val_loader train_settings
      out_prefix batch_use_prob print_log log_dir
      (length (input_names net0)) (length (label_names net0)) (epochs ts0)
      (initial_state (length nets0)) (mkWorld nets0 0 0)
      = (w1, ev_run, Ok st) /\
    save_last out_prefix w1 = (w2, ev_last, Ok tt) /\
    nets' = nets w2 /\
    ev = (if negb (log_dir =? "")%string then [EvConfigure log_dir] else [])
         ++ ev_run ++ ev_last /\
    log = train_log st.
Proof.
  unfold TrainModels.
  destruct (TrainModels_body _ _ _ _ _ _ _ _ _ _) as [[w2 ev2] r] eqn:H.
  intros E. injection E as <- <- ->. unfold TrainModels_body in H.
  apply bind_Ok in H as (w0 & ev0 & [] & ev0' & H0 & H & ->).
  assert (Hc : w0 = mkWorld nets0 0 0 /\
               ev0 = if negb (log_dir =? "")%string
                     then [EvConfigure log_dir] else []).
  { destruct (negb (log_dir =? "")%string); simpl in H0;
      injection H0 as <- <-; auto. }
  destruct Hc as [-> ->].
  apply bind_Ok in H as (w3 & ev3 & n & ev3' & H1 & H & ->).
  injection H1 as <- <- <-.
  apply bind_Ok in H as (w4 & ev4 & net0 & ev4' & H1 & H & ->).
  unfold get_net in H1. injection H1 as <- <- Hnet0.
  apply bind_Ok in H as (w5 & ev5 & ts0 & ev5' & H1 & H & ->).
  apply lift_run in H1 as (-> & -> & Hts0). symmetry in Hts0.
  apply bind_Ok in H as (w6 & ev6 & st & ev6' & Hrun & H & ->).
  apply bind_Ok in H as (w7 & ev7 & [] & ev7' & Hlast & H & ->).
  injection H as <- <- <-.
  apply index_Ok in Hnet0, Hts0. simpl in *.
  exists ts0, net0, w6, w7, ev6, st, ev7.
  rewrite app_nil_r. repeat split; assumption.
Qed.

(** A run of [k1 + k2] epochs is a run of [k1] epochs followed by the
    epochs [k1], ..., [k1 + k2 - 1]. *)
Lemma run_epochs_split ni nl (k1 k2 : nat) st (w : World) :
  run_epochs uniform clock train_loader val_loader train_settings
    out_prefix batch_use_prob print_log log_dir ni nl
    (Z.of_nat (k1 + k2)) st w
  = bind (run_epochs uniform clock train_loader val_loader train_settings
            out_prefix batch_use_prob print_log log_dir ni nl
            (Z.of_nat k1) st)
         (fun st1 => foldM (epoch_body ni nl) (seq k1 k2) st1) w.
Proof.
  unfold run_epochs. rewrite !Nat2Z.id, seq_app. apply foldM_app.
Qed.

Lemma initial_state_ok n : mins_ok n (initial_state n).
Proof.
  split; simpl; [apply repeat_length|].
  apply Forall_forall. intros m Hm. apply repeat_spec in Hm. now subst m.
Qed.

Lemma printed_checkpoints (l : list (nat * Params)) :
  printed (concat (map (fun ip => checkpoint_events
                                    (last_path out_prefix (fst ip))
                                    (fst ip) (snd ip)) l)) = [].
Proof. induction l as [|ip l IH]; simpl; auto. Qed.

(** The log of a completed run and its console lines. *)
Lemma TrainModels_log nets0 nets' ev log :
  TrainModels uniform clock train_loader val_loader train_settings
    out_prefix batch_use_prob print_log log_dir nets0 = (nets', ev, Ok log) ->
  exists ts0 net0,
    nth_error train_settings 0 = Some ts0 /\
    nth_error nets0 0 = Some net0 /\
    length log = Z.to_nat (epochs ts0) /\
    printed ev = if print_log
                 then combine (seq 0 (Z.to_nat (epochs ts0))) log else [].
Proof.
  intros H. apply TrainModels_Ok in H
    as (ts0 & net0 & w1 & w2 & ev_run & st & ev_last & Hts0 & Hnet0 & Hrun
        & Hlast & _ & -> & ->).
  exists ts0, net0. split; [assumption|]. split; [assumption|].
  unfold run_epochs in Hrun.
  apply (run_epochs_steps _ _ (length nets0)) in Hrun
    as (_ & _ & (ms & Hlog & Hlen & Hpr) & _ & _);
    [|reflexivity|apply initial_state_ok].
  simpl in Hlog. subst ms. rewrite length_seq in Hlen.
  split; [assumption|].
  apply save_last_Ok in Hlast as (_ & (ps & _ & ->) & _).
  rewrite !printed_app, Hpr, printed_checkpoints, app_nil_r.
  now destruct (negb (log_dir =? "")%string).
Qed.

(** C4. The minimum of every model starts at [+infinity]; over any
    further epochs of a run it never increases; and in every epoch the
    new minimum of model [i] is the epoch's average validation loss of
    model [i] when that is strictly below the minimum so far, the old
    minimum otherwise, and a "best" file of model [i] is written in the
    epoch exactly in the first case. *)
Theorem checkpoint_monotonicity ni nl :
  (forall n i, i < n ->
     nth_error (min_validation_losses (initial_state n)) i = Some inf) /\
  (forall n_epochs l (w0 w1 w2 : World) ev1 ev2 st1 st2,
     run_epochs uniform clock train_loader val_loader train_settings
       out_prefix batch_use_prob print_log log_dir ni nl n_epochs
       (initial_state (length (nets w0))) w0 = (w1, ev1, Ok st1) ->
     foldM (epoch_body ni nl) l st1 w1 = (w2, ev2, Ok st2) ->
     forall i m1 m2,
       nth_error (min_validation_losses st1) i = Some m1 ->
       nth_error (min_validation_losses st2) i = Some m2 ->
       fle m2 m1) /\
  (forall n_epochs epoch (w0 w1 w2 : World) ev1 ev2 st1 st2,
     run_epochs uniform clock train_loader val_loader train_settings
       out_prefix batch_use_prob print_log log_dir ni nl n_epochs
       (initial_state (length (nets w0))) w0 = (w1, ev1, Ok st1) ->
     epoch_body ni nl st1 epoch w1 = (w2, ev2, Ok st2) ->
     exists w_pre ev_val w_val vacc validation_avg_losses,
       val_phase val_loader train_settings ni nl w_pre
         = (w_val, ev_val, Ok vacc) /\
       AverageLosses (fst vacc) (snd vacc) = Ok validation_avg_losses /\
       forall i, i < length (nets w0) ->
         exists v m,
           nth_error validation_avg_losses i = Some v /\
           nth_error (min_validation_losses st1) i = Some m /\
           nth_error (min_validation_losses st2) i
           = Some (if (v <? m)%float then v else m) /\
           fle (if (v <? m)%float then v else m) m /\
           ((exists p, In (EvSave (best_path out_prefix i) p) ev2)
            <-> (v <? m)%float = true)).
Proof.
  split; [|split].
  - intros n i Hi. simpl. rewrite nth_error_repeat; [reflexivity|assumption].
  - intros n_epochs l w0 w1 w2 ev1 ev2 st1 st2 H1 H2.
    unfold run_epochs in H1.
    apply (run_epochs_steps _ _ (length (nets w0))) in H1
      as (Hw1 & Hst1 & _); [|reflexivity|apply initial_state_ok].
    apply (run_epochs_steps _ _ (length (nets w0))) in H2
      as (_ & _ & _ & _ & Hmono); assumption.
  - intros n_epochs epoch w0 w1 w2 ev1 ev2 st1 st2 H1 H2.
    unfold run_epochs in H1.
    apply (run_epochs_steps _ _ (length (nets w0))) in H1
      as (Hw1 & Hst1 & _); [|reflexivity|apply initial_state_ok].
    apply (run_epoch_step _ _ (length (nets w0))) in H2
      as (_ & _ & _ & _ & Hpol); assumption.
Qed.

(** C5. In a completed run the events split into those up to the end of
    the epoch loop, among which no "last" file is written, and the final
    loop, which for each model in turn moves it to the host, writes
    [{out_prefix}-{i}-last.pth] and moves it back; so every model's
    "last" file is written exactly once, whatever "best" files were
    written. *)
Theorem last_checkpoint_once nets0 nets' ev log :
  TrainModels uniform clock train_loader val_loader train_settings
    out_prefix batch_use_prob print_log log_dir nets0 = (nets', ev, Ok log) ->
  exists ts0 net0 w1 st ev_run ev_last ps,
    nth_error train_settings 0 = Some ts0 /\
    nth_error nets0 0 = Some net0 /\
    run_epochs uniform clock train_loader val_loader train_settings
      out_prefix batch_use_prob print_log log_dir
      (length (input_names net0)) (length (label_names net0)) (epochs ts0)
      (initial_state (length nets0)) (mkWorld nets0 0 0)
      = (w1, ev_run, Ok st) /\
    ev = (if negb (log_dir =? "")%string then [EvConfigure log_dir] else [])
         ++ ev_run ++ ev_last /\
    (forall i, count (is_save (last_path out_prefix i)) ev_run = 0) /\
    length ps = length nets0 /\
    ev_last = concat (map (fun ip => checkpoint_events
                                       (last_path out_prefix (fst ip))
                                       (fst ip) (snd ip))
                          (combine (seq 0 (length nets0)) ps)) /\
    (forall i, i < length nets0 ->
       count (is_save (last_path out_prefix i)) ev = 1).
Proof.
  intros H. apply TrainModels_Ok in H
    as (ts0 & net0 & w1 & w2 & ev_run & st & ev_last & Hts0 & Hnet0 & Hrun
        & Hlast & _ & -> & _).
  pose proof Hrun as Hrun'. unfold run_epochs in Hrun'.
  apply (run_epochs_steps _ _ (length nets0)) in Hrun'
    as (Hw1 & _ & _ & Hnone & _); [|reflexivity|apply initial_state_ok].
  unfold count_is in Hw1.
  apply save_last_Ok in Hlast as (_ & (ps & Hps & Hev) & Hone).
  rewrite Hw1 in *.
  exists ts0, net0, w1, st, ev_run, ev_last, ps.
  repeat split; try assumption.
  intros i Hi. rewrite !count_app, Hnone, (Hone i Hi).
  destruct (negb (log_dir =? "")%string); reflexivity.
Qed.

End Run.
End WithParams.

(** The theorem at the first epoch of a run of two models: the minimum
    goes from [+infinity] to the average validation loss 1/3. *)
Lemma checkpoint_monotonicity_witness :
  fle (1 / 3)%float inf.
Proof.
  pose proof (proj1 (proj2
    (checkpoint_monotonicity nat Example.half Example.ticks
       [Example.batch_a; Example.batch_b] [Example.batch_b]
       [Example.settings 2; Example.settings 7] "out" 1 true "" 1 1))) as H.
  specialize (H 0%Z [0] (mkWorld [Example.a_net; Example.a_net] 0 0)
                (mkWorld [Example.a_net; Example.a_net] 0 0)).
  assert (E : exists w2 ev2 m,
    foldM (run_epoch Example.half Example.ticks
             [Example.batch_a; Example.batch_b] [Example.batch_b]
             [Example.settings 2; Example.settings 7] "out" 1 true "" 1 1)
          [0] (initial_state 2)
          (mkWorld [Example.a_net; Example.a_net] 0 0)
    = (w2, ev2, Ok (mkLoopState [m] [(1 / 3)%float; (1 / 3)%float]
                                (1 / 3)%float)))
    by (vm_compute; do 3 eexists; reflexivity).
  destruct E as (w2 & ev2 & m & E).
  exact (H w2 [] ev2 (initial_state 2) _ eq_refl E 0 inf (1 / 3)%float
           eq_refl eq_refl).
Defined.

(** The theorem at a run of two models for two epochs. *)
Lemma last_checkpoint_once_witness :
  exists nets' ev log,
    Example.a_run = (nets', ev, Ok log) /\
    forall i, i < 2 -> count (is_save (last_path "out" i)) ev = 1.
Proof.
  assert (E : exists nets' ev log, Example.a_run = (nets', ev, Ok log))
    by (vm_compute; do 3 eexists; reflexivity).
  destruct E as (nets' & ev & log & E).
  exists nets', ev, log. split; [exact E|].
  apply last_checkpoint_once in E
    as (ts0 & net0 & w1 & st & ev_run & ev_last & ps & _ & _ & _ & _ & _
        & _ & _ & H).
  exact H.
Defined.

End RunFacts.

(* ================================================================== *)
(** * What a run depends on: epoch counts and names *)
(* ================================================================== *)

Module DependenceFacts.
Import Engine Observations BaseFacts MonadFacts MetricsFacts PassFacts.
Import TrainFacts ValFacts CheckpointFacts RunFacts.

Section WithParams.
Variable Params : Type.
Local Abbreviation M := (Engine.M Params).
Local Abbreviation World := (Engine.World Params).
Local Abbreviation Event := (Engine.Event Params).

Lemma sim_ret {A} (a : A) : sim_rel eq (ret (Params:=Params) a) (ret a).
Proof.
  intros w w' w1 ev r Hw H. injection H as <- <- <-.
  exists w', (Ok a). repeat split; try apply Hw.
Qed.

Lemma sim_lift {A} (x : result A) :
  sim_rel eq (lift (Params:=Params) x) (lift x).
Proof.
  intros w w' w1 ev r Hw H. injection H as <- <- <-.
  exists w', x. repeat split; try apply Hw. now destruct x.
Qed.

Lemma sim_emit (e : Event) : sim_rel eq (emit e) (emit e).
Proof.
  intros w w' w1 ev r Hw H. injection H as <- <- <-.
  exists w', (Ok tt). repeat split; try apply Hw.
Qed.

Lemma sim_num_nets : sim_rel eq (@num_nets Params) (@num_nets Params).
Proof.
  intros w w' w1 ev r Hw H. injection H as <- <- <-.
  exists w', (Ok (length (nets w'))). repeat split; try apply Hw.
  simpl. destruct Hw as (H & _). exact (Forall2_length H).
Qed.

Lemma sim_random_uniform (uniform : nat -> float) :
  sim_rel eq (@random_uniform Params uniform) (random_uniform uniform).
Proof.
  intros w w' w1 ev r Hw H. injection H as <- <- <-.
  destruct Hw as (Hn & Hr & Ht).
  exists (mkWorld (nets w') (S (rand_calls w')) (time_calls w')),
         (Ok (uniform (rand_calls w'))).
  split; [reflexivity|]. unfold same_world. simpl.
  rewrite Hr, Ht. auto.
Qed.

Lemma sim_time_time (clock : nat -> float) :
  sim_rel eq (@time_time Params clock) (time_time clock).
Proof.
  intros w w' w1 ev r Hw H. injection H as <- <- <-.
  destruct Hw as (Hn & Hr & Ht).
  exists (mkWorld (nets w') (rand_calls w') (S (time_calls w'))),
         (Ok (clock (time_calls w'))).
  split; [reflexivity|]. unfold same_world. simpl.
  rewrite Hr, Ht. auto.
Qed.

(** Sequencing, with outcomes of the first statement related by [Q]. *)
Lemma sim_bind_rel {A B} (Q : A -> A -> Prop) (m m' : M A)
  (k k' : A -> M B) :
  sim_rel Q m m' -> (forall a a', Q a a' -> sim_rel eq (k a) (k' a')) ->
  sim_rel eq (bind m k) (bind m' k').
Proof.
  intros Hm Hk w w' w2 ev r Hw H.
  apply bind_cases in H
    as [(w1 & ev1 & a & ev2 & H1 & H2 & ->) | (e & H & ->)].
  - destruct (Hm _ _ _ _ _ Hw H1) as (w1' & r' & H1' & Hw1 & Hr).
    destruct r' as [a'|]; [|contradiction]. simpl in Hr.
    destruct (Hk a a' Hr _ _ _ _ _ Hw1 H2) as (w2' & r2 & H2' & Hw2 & Hr2).
    exists w2', r2. split; [|split; assumption].
    rewrite (bind_step _ _ _ _ _ _ _ H1'), H2'. reflexivity.
  - destruct (Hm _ _ _ _ _ Hw H) as (w1' & r' & H1' & Hw1 & Hr).
    destruct r' as [|e']; [contradiction|]. simpl in Hr. subst e'.
    exists w1', (Raise e). split; [|split; [assumption|reflexivity]].
    exact (bind_stop _ _ _ _ _ _ _ H1').
Qed.

Lemma sim_bind {A B} (m m' : M A) (k k' : A -> M B) :
  sim_rel eq m m' -> (forall a, sim_rel eq (k a) (k' a)) ->
  sim_rel eq (bind m k) (bind m' k').
Proof.
  intros Hm Hk. apply (sim_bind_rel eq); [assumption|].
  intros a a' <-. apply Hk.
Qed.

Lemma sim_foldM {S A} (f g : S -> A -> M S) l :
  (forall s a, sim_rel eq (f s a) (g s a)) ->
  forall s, sim_rel eq (foldM f l s) (foldM g l s).
Proof.
  intros Hf. induction l as [|a l IH]; intros s.
  - apply sim_ret.
  - rewrite !foldM_cons. apply sim_bind; auto.
Qed.

Lemma sim_forM_ {A} (l : list A) (f g : A -> M unit) :
  (forall a, sim_rel eq (f a) (g a)) -> sim_rel eq (forM_ l f) (forM_ l g).
Proof. intros Hf. apply sim_foldM. auto. Qed.

Lemma sim_when b (m m' : M unit) :
  sim_rel eq m m' -> sim_rel eq (when b m) (when b m').
Proof. intros Hm. destruct b; [exact Hm | apply sim_ret]. Qed.

Lemma Forall2_nth_error {A} (R : A -> A -> Prop) l l' i :
  Forall2 R l l' ->
  match nth_error l i, nth_error l' i with
  | Some a, Some a' => R a a'
  | None, None => True
  | _, _ => False
  end.
Proof.
  intros H. revert i. induction H as [|a a' l l' Ha _ IH]; intros [|i];
    simpl; auto.
  apply IH.
Qed.

Lemma Forall2_set_index {A} (R : A -> A -> Prop) l l' i v v' :
  Forall2 R l l' -> R v v' -> Forall2 R (set_index l i v) (set_index l' i v').
Proof.
  intros H Hv. revert i. induction H as [|a a' l l' Ha Ht IH]; intros [|i];
    simpl; constructor; auto.
Qed.

Lemma sim_update_net i (f f' : Net Params -> Net Params) :
  (forall n n', same_model n n' -> same_model (f n) (f' n')) ->
  sim_rel eq (update_net i f) (update_net i f').
Proof.
  intros Hf w w' w1 ev r Hw H. unfold update_net in *.
  destruct Hw as (Hn & Hr & Ht).
  pose proof (Forall2_nth_error _ _ _ i Hn) as Hi.
  destruct (nth_error (nets w) i) as [n|],
           (nth_error (nets w') i) as [n'|]; try contradiction;
    injection H as <- <- <-.
  - eexists _, _. split; [reflexivity|]. simpl.
    repeat split; try assumption. apply Forall2_set_index; auto.
  - exists w', (Raise IndexError). repeat split; assumption.
Qed.

Lemma sim_net_call i iv :
  sim_rel eq (net_call (Params:=Params) i iv) (net_call i iv).
Proof.
  intros w w' w1 ev r Hw H.
  unfold net_call, bind, get_net, index, emit, lift in *.
  pose proof (Forall2_nth_error _ _ _ i (proj1 Hw)) as Hi.
  destruct (nth_error (nets w) i) as [n|],
           (nth_error (nets w') i) as [n'|]; try contradiction;
    simpl in *; injection H as <- <- <-.
  - destruct Hi as (Hp & Ht & _ & Hf). rewrite Hp, Ht, Hf.
    eexists _, _. split; [reflexivity|]. split; [assumption|].
    now destruct (net_forward n' _ _ _).
  - exists w', (Raise IndexError). repeat split; apply Hw.
Qed.

Lemma sim_torch_save i path :
  sim_rel eq (torch_save (Params:=Params) i path) (torch_save i path).
Proof.
  intros w w' w1 ev r Hw H.
  unfold torch_save, bind, get_net, index, emit in *.
  pose proof (Forall2_nth_error _ _ _ i (proj1 Hw)) as Hi.
  destruct (nth_error (nets w) i) as [n|],
           (nth_error (nets w') i) as [n'|]; try contradiction;
    simpl in *; injection H as <- <- <-.
  - destruct Hi as (Hp & _). rewrite Hp.
    eexists _, _. split; [reflexivity|]. split; [assumption|]. reflexivity.
  - exists w', (Raise IndexError). repeat split; apply Hw.
Qed.

Lemma same_model_with_training b (n n' : Net Params) :
  same_model n n' -> same_model (with_training b n) (with_training b n').
Proof. intros (? & ? & ? & ?). repeat split; assumption. Qed.

Lemma same_model_with_cuda b (n n' : Net Params) :
  same_model n n' -> same_model (with_cuda b n) (with_cuda b n').
Proof. intros (? & ? & ? & ?). repeat split; assumption. Qed.

End WithParams.

(** Decomposition of two statements of the same shape. *)
Ltac sim_tac leaf :=
  repeat (lazymatch goal with
  | |- sim_rel eq (bind _ _) (bind _ _) => apply sim_bind
  | |- sim_rel eq (ret _) (ret _) => apply sim_ret
  | |- sim_rel eq (lift _) (lift _) => apply sim_lift
  | |- sim_rel eq (emit _) (emit _) => apply sim_emit
  | |- sim_rel eq (@num_nets _) (@num_nets _) => apply sim_num_nets
  | |- sim_rel eq (when _ _) (when _ _) => apply sim_when
  | |- sim_rel eq (forM_ _ _) (forM_ _ _) => apply sim_forM_
  | |- sim_rel eq (foldM _ _ _) (foldM _ _ _) => apply sim_foldM
  | |- sim_rel eq (random_uniform _) _ => apply sim_random_uniform
  | |- sim_rel eq (time_time _) _ => apply sim_time_time
  | |- sim_rel eq (update_net _ _) _ => apply sim_update_net
  | |- sim_rel eq (net_call _ _) _ => apply sim_net_call
  | |- sim_rel eq (torch_save _ _) _ => apply sim_torch_save
  | |- sim_rel eq (match ?x with _ => _ end) (match ?x with _ => _ end) =>
      destruct x
  | |- sim_rel eq _ _ =>
      first [ solve [leaf]
            | progress unfold val_net, val_batch, val_phase, train_net,
                train_batch, train_phase, checkpoint_net, checkpoint_best,
                save_checkpoint, net_eval, net_train, net_cpu, net_cuda,
                run_epoch, run_epochs, save_last ]
  | |- _ => first [ solve [leaf] | intro ]
  end).

Section Engine.
Variable Params : Type.
Local Abbreviation M := (Engine.M Params).
Local Abbreviation World := (Engine.World Params).
Local Abbreviation Event := (Engine.Event Params).

Variable uniform clock : nat -> float.
Variable train_loader val_loader : list (list Tensor).
Variable out_prefix : string.
Variable batch_use_prob : float.
Variable print_log : bool.
Variable log_dir : string.

(** Two lists of settings that differ at most in their epoch counts. *)
Variable s s' : list (TrainSettings Params).
Hypothesis same_s : Forall2 same_settings s s'.

(** A subscript of the settings on both sides. *)
Lemma sim_index_settings {B} i (k k' : TrainSettings Params -> M B) :
  (forall ts ts', same_settings ts ts' -> sim_rel eq (k ts) (k' ts')) ->
  sim_rel eq (bind (lift (index s i)) k) (bind (lift (index s' i)) k').
Proof.
  intros Hk. apply (sim_bind_rel Params same_settings); [|assumption].
  intros w w' w1 ev r Hw H. injection H as <- <- <-.
  exists w', (index s' i). split; [reflexivity|]. split; [assumption|].
  unfold index. pose proof (Forall2_nth_error _ _ _ i same_s) as Hi.
  destruct (nth_error s i), (nth_error s' i); try contradiction;
    simpl; auto.
Qed.

Lemma same_model_step (ts ts' : TrainSettings Params) iv lv wv n n' :
  same_settings ts ts' -> same_model n n' ->
  same_model (with_params (optimizer ts (params n) iv lv wv) n)
             (with_params (optimizer ts' (params n') iv lv wv) n').
Proof.
  intros (_ & Ho) (Hp & ? & ? & ?). rewrite Ho, Hp.
  repeat split; assumption.
Qed.

Lemma sim_train_net iv lv wv acc idx :
  sim_rel eq (train_net uniform s batch_use_prob iv lv wv acc idx)
             (train_net uniform s' batch_use_prob iv lv wv acc idx).
Proof.
  unfold train_net. apply sim_bind; [apply sim_random_uniform|].
  intros u. destruct (u <? batch_use_prob)%float; [|apply sim_ret].
  apply sim_bind; [apply sim_net_call|]. intros outputs.
  apply sim_index_settings. intros ts ts' Hts.
  rewrite (proj1 Hts).
  sim_tac ltac:(first [ now apply same_model_step ]).
Qed.

Lemma sim_val_net iv lv wv acc idx :
  sim_rel eq (val_net s iv lv wv acc idx) (val_net s' iv lv wv acc idx).
Proof.
  unfold val_net. apply sim_bind; [apply sim_net_call|]. intros outputs.
  apply sim_index_settings. intros ts ts' Hts.
  rewrite (proj1 Hts).
  sim_tac ltac:(idtac).
Qed.

Lemma sim_run_epoch ni nl st epoch :
  sim_rel eq
    (run_epoch uniform clock train_loader val_loader s out_prefix
       batch_use_prob print_log log_dir ni nl st epoch)
    (run_epoch uniform clock train_loader val_loader s' out_prefix
       batch_use_prob print_log log_dir ni nl st epoch).
Proof.
  unfold run_epoch. rewrite <- (Forall2_length same_s).
  sim_tac ltac:(first [ apply sim_train_net | apply sim_val_net
                      | apply same_model_with_training
                      | apply same_model_with_cuda ]).
Qed.

(** The epoch loop followed by the final checkpoints. *)
Lemma sim_epochs_and_last ni nl n_epochs n :
  sim_rel eq
    (bind (run_epochs uniform clock train_loader val_loader s out_prefix
             batch_use_prob print_log log_dir ni nl n_epochs
             (initial_state n))
          (fun st => bind (save_last out_prefix)
                          (fun _ => ret (train_log st))))
    (bind (run_epochs uniform clock train_loader val_loader s' out_prefix
             batch_use_prob print_log log_dir ni nl n_epochs
             (initial_state n))
          (fun st => bind (save_last out_prefix)
                          (fun _ => ret (train_log st)))).
Proof.
  apply sim_bind.
  - unfold run_epochs. apply sim_foldM. intros st e. apply sim_run_epoch.
  - intros st. sim_tac ltac:(first [ apply same_model_with_training
                                   | apply same_model_with_cuda ]).
Qed.

(** The statements before the epoch loop read the models and the
    settings at position 0 and change nothing. *)
Lemma TrainModels_body_unfold (settings : list (TrainSettings Params))
  (w : World) :
  TrainModels_body uniform clock train_loader val_loader settings
    out_prefix batch_use_prob print_log log_dir w
  = let cfg := if negb (log_dir =? "")%string
               then [EvConfigure log_dir] else [] in
    match index (nets w) 0, index settings 0 with
    | Ok net0, Ok ts0 =>
        let '(w2, ev2, r) :=
          bind (run_epochs uniform clock train_loader val_loader settings
                  out_prefix batch_use_prob print_log log_dir
                  (length (input_names net0)) (length (label_names net0))
                  (epochs ts0) (initial_state (length (nets w))))
               (fun st => bind (save_last out_prefix)
                               (fun _ => ret (train_log st))) w in
        (w2, cfg ++ ev2, r)
    | Ok _, Raise e => (w, cfg, Raise e)
    | Raise e, _ => (w, cfg, Raise e)
    end.
Proof.
  unfold TrainModels_body.
  unfold bind at 1. unfold when, emit, ret.
  destruct (negb (log_dir =? "")%string);
    (unfold bind at 1; unfold num_nets;
     unfold bind at 1; unfold get_net;
     destruct (index (nets w) 0) as [net0|e]; [|reflexivity];
     unfold bind at 1; unfold lift;
     destruct (index settings 0) as [ts0|e]; [|reflexivity];
     cbv zeta;
     match goal with
     | |- context [bind ?m ?k w] => destruct (bind m k w) as [[w2 ev2] r]
     end; reflexivity).
Qed.

End Engine.

(** C9. A completed run has consulted [train_settings[0].epochs] and the
    names of [nets[0]]; its log has exactly that many entries, and (with
    console logging on) the line of epoch [e] shows the metrics at
    position [e] of the log, for [e = 0, 1, ...] in this order.  The
    epoch counts of the other settings and the names of the other models
    are not consulted: runs that differ only there, and in the names of
    [nets[0]] but not their numbers, cause the same events and return
    the same log. *)
Theorem epochs_and_log (Params : Type) (uniform clock : nat -> float)
  (train_loader val_loader : list (list Tensor)) (out_prefix : string)
  (batch_use_prob : float) (print_log : bool) (log_dir : string) :
  (forall train_settings nets0 nets' ev log,
     TrainModels uniform clock train_loader val_loader train_settings
       out_prefix batch_use_prob print_log log_dir nets0
     = (nets', ev, Ok log) ->
     exists (ts0 : TrainSettings Params) net0,
       nth_error train_settings 0 = Some ts0 /\
       nth_error nets0 0 = Some net0 /\
       length log = Z.to_nat (epochs ts0) /\
       printed ev = if print_log
                    then combine (seq 0 (Z.to_nat (epochs ts0))) log
                    else []) /\
  (forall (s s' : list (TrainSettings Params)) nets0 nets0',
     Forall2 same_settings s s' ->
     option_map (fun ts => epochs ts) (nth_error s 0)
     = option_map (fun ts => epochs ts) (nth_error s' 0) ->
     Forall2 same_model nets0 nets0' ->
     option_map (fun n => (length (input_names n), length (label_names n)))
                (nth_error nets0 0)
     = option_map (fun n => (length (input_names n), length (label_names n)))
                  (nth_error nets0' 0) ->
     forall nets1 ev r,
       TrainModels uniform clock train_loader val_loader s
         out_prefix batch_use_prob print_log log_dir nets0 = (nets1, ev, r) ->
       exists nets1',
         TrainModels uniform clock train_loader val_loader s'
           out_prefix batch_use_prob print_log log_dir nets0'
         = (nets1', ev, r) /\
         Forall2 same_model nets1 nets1').
Proof.
  split; [intros; eapply TrainModels_log; eassumption|].
  intros s s' nets0 nets0' Hs He Hn Hnames nets1 ev r H.
  unfold TrainModels in *. rewrite TrainModels_body_unfold in *.
  cbn [nets] in *. unfold index in *.
  pose proof (Forall2_nth_error _ _ _ 0 Hn) as Hn0.
  pose proof (Forall2_nth_error _ _ _ 0 Hs) as Hs0.
  destruct (nth_error nets0 0) as [net0|], (nth_error nets0' 0) as [net0'|];
    try contradiction.
  - destruct (nth_error s 0) as [ts0|], (nth_error s' 0) as [ts0'|];
      try contradiction.
    + simpl in He, Hnames. injection He as He. injection Hnames as Hi Hl.
      rewrite <- He, <- Hi, <- Hl, <- (Forall2_length Hn).
      destruct (bind (run_epochs _ _ _ _ s _ _ _ _ _ _ _ _) _ _)
        as [[w2 ev2] r2] eqn:E.
      injection H as <- <- <-.
      assert (Hw : same_world (mkWorld nets0 0 0) (mkWorld nets0' 0 0))
        by (repeat split; assumption).
      destruct (sim_epochs_and_last Params uniform clock train_loader
                  val_loader out_prefix batch_use_prob print_log log_dir
                  s s' Hs _ _ _ _ _ _ _ _ _ Hw E)
        as (w2' & r' & -> & Hw2 & Hr).
      exists (nets w2'). split; [|apply Hw2].
      destruct r2, r'; simpl in Hr; try contradiction; now subst.
    + cbv zeta in *. injection H as <- <- <-.
      exists nets0'. auto.
  - cbv zeta in *. injection H as <- <- <-.
    exists nets0'. auto.
Qed.

(** The theorem at two runs: the second gives the second model other
    names and the second settings another epoch count. *)
Lemma epochs_and_log_witness :
  exists nets1 nets1' ev log,
    Example.a_run = (nets1, ev, Ok log) /\
    TrainModels Example.half Example.ticks
      [Example.batch_a; Example.batch_b] [Example.batch_b]
      [Example.settings 2; Example.settings 100] "out" 1 true ""
      [Example.a_net; Example.renamed_net]
    = (nets1', ev, Ok log) /\
    length log = 2 /\
    printed ev = combine (seq 0 2) log.
Proof.
  assert (E : exists nets1 ev log, Example.a_run = (nets1, ev, Ok log))
    by (vm_compute; do 3 eexists; reflexivity).
  destruct E as (nets1 & ev & log & E).
  pose proof (epochs_and_log nat Example.half Example.ticks
                [Example.batch_a; Example.batch_b] [Example.batch_b]
                "out" 1 true "") as [Hlog Hdep].
  assert (H1 : Forall2 same_settings
                 [Example.settings 2; Example.settings 7]
                 [Example.settings 2; Example.settings 100])
    by (repeat constructor).
  assert (H3 : Forall2 same_model [Example.a_net; Example.a_net]
                 [Example.a_net; Example.renamed_net])
    by (repeat constructor).
  destruct (Hdep _ _ _ _ H1 eq_refl H3 eq_refl _ _ _ E) as (nets1' & E' & _).
  exists nets1, nets1', ev, log.
  destruct (Hlog _ _ _ _ _ E) as (ts0 & net0 & Hts0 & _ & Hlen & Hpr).
  injection Hts0 as <-.
  repeat split; assumption.
Defined.

End DependenceFacts.

(* ================================================================== *)
(** * The pooled average on an empty window *)
(* ================================================================== *)

Module PooledFacts.
Import Engine Observations BaseFacts MonadFacts MetricsFacts PassFacts.
Import TrainFacts ValFacts CheckpointFacts RunFacts.

Lemma sum_int_zeros n : sum_int (repeat 0%Z n) = 0%Z.
Proof. unfold sum_int. induction n as [|n IH]; simpl; auto. Qed.

(** With an empty validation data source no epoch completes: line 146
    divides by the total count 0. *)
Lemma empty_validation_no_epoch (Params : Type) uniform clock train_loader
  (train_settings : list (TrainSettings Params)) out_prefix batch_use_prob
  print_log log_dir ni nl st epoch (w w' : World Params) ev st' :
  run_epoch uniform clock train_loader [] train_settings out_prefix
    batch_use_prob print_log log_dir ni nl st epoch w = (w', ev, Ok st') ->
  False.
Proof.
  intros H. apply run_epoch_Ok in H
    as (ev_phases & ev_ckpt & w_pre & ev_val & w_val & vacc & vavg & metrics
        & marker & acc & _ & _ & _ & _ & Hve & _ & Hnz & _).
  apply Hnz. rewrite Hve. apply sum_int_zeros.
Qed.

(** With [batch_use_prob = 0.0] no epoch completes either: line 119
    divides by the total count 0. *)
Lemma no_training_no_epoch (Params : Type) uniform clock train_loader
  val_loader (train_settings : list (TrainSettings Params)) out_prefix
  print_log log_dir ni nl st epoch (w w' : World Params) ev st' :
  (forall k, (0 <=? uniform k)%float = true) ->
  run_epoch uniform clock train_loader val_loader train_settings out_prefix
    0 print_log log_dir ni nl st epoch w = (w', ev, Ok st') ->
  False.
Proof.
  intros Hu H. unfold run_epoch in H.
  apply bind_Ok in H as (w1 & ev1 & [] & ev1' & _ & H & _).
  apply bind_Ok in H as (w2 & ev2 & t0 & ev2' & _ & H & _).
  apply bind_Ok in H as (w3 & ev3 & [rl te] & ev3' & Htrain & H & _).
  apply train_phase_skipped in Htrain as (_ & _ & Hacc);
    [|intros k; apply ltb_zero_false, Hu].
  specialize (Hacc _ eq_refl). injection Hacc as -> ->.
  apply bind_Ok in H as (w4 & ev4 & t1 & ev4' & _ & H & _).
  apply bind_Ok in H as (w5 & ev5 & eps & ev5' & _ & H & _).
  apply bind_Ok in H as (w6 & ev6 & avg & ev6' & _ & H & _).
  apply bind_Ok in H as (w7 & ev7 & avgl & ev7' & H1 & _ & _).
  apply lift_run in H1 as (_ & _ & Havgl). symmetry in Havgl.
  apply pooled_average_nonzero in Havgl as [Hnz _].
  apply Hnz, sum_int_zeros.
Qed.

(** C1. The pooled average is the sum of the losses divided by the sum
    of the counts, but unlike [AverageLosses] it has no guard: on the
    accumulators of an empty window, where [AverageLosses] returns
    [+infinity], it raises [ZeroDivisionError], and so does the run, in
    its first epoch, when the validation data source is empty or when
    [batch_use_prob] is 0.0. *)
Theorem pooled_average_unguarded :
  pooled_average [6.0%float; 6.0%float] [5%Z; 5%Z] = Ok (12 / 10)%float /\
  AverageLosses [0.0%float; 0.0%float] [0%Z; 0%Z] = Ok [inf; inf] /\
  pooled_average [0.0%float; 0.0%float] [0%Z; 0%Z]
  = Raise ZeroDivisionError /\
  snd Example.a_run_without_validation = Raise ZeroDivisionError /\
  snd Example.a_run_without_training = Raise ZeroDivisionError.
Proof. repeat split; vm_compute; reflexivity. Qed.

End PooledFacts.

(* ================================================================== *)
(** * The final checkpoints and the models a run returns *)
(* ================================================================== *)

Module FinalFacts.
Import Engine Observations Outcomes BaseFacts MonadFacts MetricsFacts PassFacts.
Import TrainFacts ValFacts CheckpointFacts RunFacts DependenceFacts.

Section WithParams.
Variable Params : Type.
Local Abbreviation M := (Engine.M Params).
Local Abbreviation World := (Engine.World Params).
Local Abbreviation Event := (Engine.Event Params).

Lemma set_index_middle {A} (pre : list A) a l v :
  set_index (pre ++ a :: l) (length pre) v = pre ++ v :: l.
Proof. induction pre as [|b pre IH]; simpl; [reflexivity | now rewrite IH]. Qed.

Lemma nth_error_middle {A} (pre : list A) a l :
  nth_error (pre ++ a :: l) (length pre) = Some a.
Proof. induction pre as [|b pre IH]; simpl; [reflexivity | exact IH]. Qed.

(** [net.cpu(); torch.save(net.state_dict(), path); net.cuda()] on the
    model at position [length pre]. *)
Lemma save_checkpoint_run path pre (n : Net Params) l r t :
  save_checkpoint (length pre) path (mkWorld (pre ++ n :: l) r t)
  = (mkWorld (pre ++ with_cuda true n :: l) r t,
     checkpoint_events path (length pre) (params n), Ok tt).
Proof.
  unfold save_checkpoint, net_cpu, net_cuda, torch_save, update_net, get_net,
    emit, index, bind. cbn [nets rand_calls time_calls].
  rewrite nth_error_middle, set_index_middle. cbn [nets].
  rewrite nth_error_middle. cbn [app nets rand_calls time_calls].
  rewrite nth_error_middle, set_index_middle. reflexivity.
Qed.

Section Last.
Variable out_prefix : string.

Lemma save_last_from l : forall pre r t,
  foldM (fun (_ : unit) net_id =>
           save_checkpoint net_id (last_path out_prefix net_id))
        (seq (length pre) (length l)) tt
        (mkWorld (Params:=Params) (pre ++ l) r t)
  = (mkWorld (pre ++ map (with_cuda true) l) r t,
     concat (map (fun ip => checkpoint_events
                              (last_path out_prefix (fst ip))
                              (fst ip) (params (snd ip)))
                 (combine (seq (length pre) (length l)) l)),
     Ok tt).
Proof.
  induction l as [|n l IH]; intros pre r t.
  - reflexivity.
  - cbn [length seq]. rewrite foldM_cons.
    erewrite bind_step by apply save_checkpoint_run.
    replace (pre ++ with_cuda true n :: l)
      with ((pre ++ [with_cuda true n]) ++ l)
      by (rewrite <- app_assoc; reflexivity).
    replace (S (length pre)) with (length (pre ++ [with_cuda true n]))
      by (rewrite length_app; simpl; lia).
    rewrite IH. cbn [map combine concat fst snd].
    rewrite <- app_assoc. reflexivity.
Qed.

(** Lines 178-181 never raise: every model ends on the accelerator, with
    its parameters written to its "last" file. *)
Lemma save_last_run (w : World) :
  save_last out_prefix w
  = (mkWorld (map (with_cuda true) (nets w)) (rand_calls w) (time_calls w),
     last_checkpoints out_prefix (nets w), Ok tt).
Proof.
  destruct w as [ns r t]. unfold save_last, bind, num_nets, forM_.
  cbn [nets rand_calls time_calls].
  pose proof (save_last_from ns [] r t) as H. cbn [length app] in H.
  rewrite H. reflexivity.
Qed.

Lemma last_checkpoints_on_cuda (ns : list (Net Params)) :
  last_checkpoints out_prefix (map (with_cuda true) ns)
  = last_checkpoints out_prefix ns.
Proof.
  unfold last_checkpoints. rewrite length_map. f_equal.
  generalize (seq 0 (length ns)). induction ns as [|n ns IH]; intros [|i s];
    try reflexivity.
  cbn [map combine fst snd]. now rewrite IH.
Qed.

Lemma writes_no_last_count (ev : list Event) :
  Forall (writes_no_last out_prefix) ev ->
  forall i, count (is_save (last_path out_prefix i)) ev = 0.
Proof.
  intros H i. unfold count.
  induction H as [|e ev He _ IH]; [reflexivity|].
  simpl. now rewrite (He i).
Qed.

Lemma best_writes_no_last j (p : Params) :
  writes_no_last out_prefix (EvSave (best_path out_prefix j) p).
Proof.
  intros i. simpl. apply String.eqb_neq. intros E. symmetry in E.
  exact (best_last_distinct _ _ _ E).
Qed.

End Last.

Section Run.
Variable uniform clock : nat -> float.
Variable train_loader val_loader : list (list Tensor).
Variable train_settings : list (TrainSettings Params).
Variable out_prefix : string.
Variable batch_use_prob : float.
Variable print_log : bool.
Variable log_dir : string.

Local Abbreviation run :=
  (TrainModels uniform clock train_loader val_loader train_settings
     out_prefix batch_use_prob print_log log_dir).

(** The epoch loop writes no "last" file, whatever its outcome. *)
Lemma run_epochs_writes_no_last ni nl n_epochs st :
  always (fun _ : World => True) (writes_no_last out_prefix)
    (run_epochs uniform clock train_loader val_loader train_settings
       out_prefix batch_use_prob print_log log_dir ni nl n_epochs st).
Proof.
  always_tac ltac:(first [ exact I | intros; exact I
                         | intro; reflexivity
                         | intros; apply best_writes_no_last ]).
Qed.

(** A run, by the outcome of the two subscripts of line 87 and line 89
    and of the epoch loop. *)
Lemma TrainModels_cases nets0 :
  run nets0 =
  match index nets0 0, index train_settings 0 with
  | Ok net0, Ok ts0 =>
      match run_epochs uniform clock train_loader val_loader train_settings
              out_prefix batch_use_prob print_log log_dir
              (length (input_names net0)) (length (label_names net0))
              (epochs ts0) (initial_state (length nets0))
              (mkWorld nets0 0 0) with
      | (w1, ev_run, Ok st) =>
          (map (with_cuda true) (nets w1),
           configure_events log_dir ++ ev_run
           ++ last_checkpoints out_prefix (nets w1),
           Ok (train_log st))
      | (w1, ev_run, Raise e) =>
          (nets w1, configure_events log_dir ++ ev_run, Raise e)
      end
  | Ok _, Raise e => (nets0, configure_events log_dir, Raise e)
  | Raise e, _ => (nets0, configure_events log_dir, Raise e)
  end.
Proof.
  unfold TrainModels. rewrite TrainModels_body_unfold.
  cbn [nets]. unfold configure_events.
  destruct (index nets0 0) as [net0|e]; [|reflexivity].
  destruct (index train_settings 0) as [ts0|e]; [|reflexivity].
  cbv zeta. unfold bind at 1.
  destruct (run_epochs _ _ _ _ _ _ _ _ _ _ _ _ _ _) as [[w1 ev_run] [st|e]];
    [|reflexivity].
  unfold bind at 1. rewrite save_last_run. unfold ret. cbv beta iota.
  cbn [nets]. rewrite app_nil_r. reflexivity.
Qed.

(** X5. A call with no model, or with no training settings, raises
    [IndexError] before the first epoch (at [nets[0]], line 87, or at
    [train_settings[0]], line 89): the models are as they were given,
    no checkpoint is written, and all that has happened is the
    configuration of the logger, when [log_dir] is not empty. *)
Theorem TrainModels_without_model_or_settings nets0 :
  nets0 = [] \/ train_settings = [] ->
  run nets0 = (nets0, configure_events log_dir, Raise IndexError).
Proof.
  intros H. rewrite TrainModels_cases.
  destruct H as [-> | ->]; [reflexivity|].
  unfold index. destruct (nth_error nets0 0); reflexivity.
Qed.

(** X6. When the epoch count of the first settings is zero or negative
    no epoch runs, and the call still writes the checkpoints: it returns
    the empty log, what happens is the configuration of the logger (when
    [log_dir] is not empty) and then the "last" checkpoint of every
    model, with the parameters the model was given, and every model
    ends on the accelerator. *)
Theorem TrainModels_without_epochs nets0 net0 ts0 :
  nth_error nets0 0 = Some net0 ->
  nth_error train_settings 0 = Some ts0 ->
  (epochs ts0 <= 0)%Z ->
  run nets0
  = (map (with_cuda true) nets0,
     configure_events log_dir ++ last_checkpoints out_prefix nets0, Ok []).
Proof.
  intros Hn Hs He. rewrite TrainModels_cases. unfold index.
  rewrite Hn, Hs. unfold run_epochs.
  replace (Z.to_nat (epochs ts0)) with 0 by lia. reflexivity.
Qed.

(** X16. A call that returns has as many models as it was given, all
    on the accelerator; its events end with the "last" checkpoints of
    all models in order, each with the parameters of the model as the
    call leaves it, and no "last" file is written before these. *)
Theorem last_checkpoints_hold_returned_parameters nets0 nets' ev log :
  run nets0 = (nets', ev, Ok log) ->
  length nets' = length nets0 /\
  Forall (fun n => on_cuda n = true) nets' /\
  exists ev_run,
    ev = configure_events log_dir ++ ev_run
         ++ last_checkpoints out_prefix nets' /\
    forall i, count (is_save (last_path out_prefix i)) ev_run = 0.
Proof.
  rewrite TrainModels_cases.
  destruct (index nets0 0) as [net0|e]; [|discriminate].
  destruct (index train_settings 0) as [ts0|e]; [|discriminate].
  destruct (run_epochs _ _ _ _ _ _ _ _ _ _ _ _ _ _)
    as [[w1 ev_run] [st|e]] eqn:E; [|discriminate].
  intros H. injection H as <- <- <-.
  pose proof (run_epochs_writes_no_last _ _ _ _ _ _ _ _ I E) as [_ Hnl].
  unfold run_epochs in E.
  apply (run_epochs_steps _ _ _ _ _ _ _ _ _ _ _ _ (length nets0)) in E
    as (Hc & _); [|reflexivity|apply initial_state_ok].
  unfold count_is in Hc.
  split; [now rewrite length_map|]. split.
  - apply Forall_forall. intros n Hin. apply in_map_iff in Hin as (n1 & <- & _).
    reflexivity.
  - exists ev_run. rewrite last_checkpoints_on_cuda.
    split; [reflexivity|]. now apply writes_no_last_count.
Qed.

End Run.
End WithParams.

(** The theorem at a call without models, with the logger on. *)
Lemma TrainModels_without_model_or_settings_witness :
  TrainModels Example.half Example.ticks [Example.batch_a] [Example.batch_b]
    [Example.settings 2] "out" 1 true "tb" ([] : list (Net nat))
  = ([], [EvConfigure "tb"], Raise IndexError).
Proof.
  apply (TrainModels_without_model_or_settings nat Example.half Example.ticks
           [Example.batch_a] [Example.batch_b] [Example.settings 2]
           "out" 1 true "tb" []).
  left. reflexivity.
Defined.

(** The theorem at a call with epoch count 0. *)
Lemma TrainModels_without_epochs_witness :
  TrainModels Example.half Example.ticks [Example.batch_a] [Example.batch_b]
    [Example.settings 0; Example.settings 7] "out" 1 true ""
    [Example.a_net; Example.a_net]
  = ([Example.a_net; Example.a_net],
     [EvCpu 0; EvSave "out-0-last.pth" 0; EvCuda 0;
      EvCpu 1; EvSave "out-1-last.pth" 0; EvCuda 1],
     Ok []).
Proof.
  apply (TrainModels_without_epochs nat Example.half Example.ticks
           [Example.batch_a] [Example.batch_b]
           [Example.settings 0; Example.settings 7] "out" 1 true ""
           [Example.a_net; Example.a_net] Example.a_net (Example.settings 0));
    [reflexivity | reflexivity | simpl; lia].
Defined.

(** The theorem at the run of two models for two epochs. *)
Lemma last_checkpoints_hold_returned_parameters_witness :
  exists nets' ev log,
    Example.a_run = (nets', ev, Ok log) /\
    length nets' = 2 /\
    Forall (fun n => on_cuda n = true) nets' /\
    exists ev_run,
      ev = configure_events "" ++ ev_run ++ last_checkpoints "out" nets' /\
      forall i, count (is_save (last_path "out" i)) ev_run = 0.
Proof.
  assert (E : exists nets' ev log, Example.a_run = (nets', ev, Ok log))
    by (vm_compute; do 3 eexists; reflexivity).
  destruct E as (nets' & ev & log & E).
  exists nets', ev, log. split; [exact E|].
  exact (last_checkpoints_hold_returned_parameters _ _ _ _ _ _ _ _ _ _ _ _ _ _
           E).
Defined.

End FinalFacts.

(* ================================================================== *)
(** * What a run leaves untouched *)
(* ================================================================== *)

Module FrameFacts.
Import Engine Observations Outcomes BaseFacts MonadFacts MetricsFacts PassFacts.
Import TrainFacts ValFacts CheckpointFacts RunFacts DependenceFacts.
Import FinalFacts.

Section WithParams.
Variable Params : Type.
Local Abbreviation M := (Engine.M Params).
Local Abbreviation World := (Engine.World Params).
Local Abbreviation Event := (Engine.Event Params).

(** ** A method call on every model in turn *)

Lemma update_all_from (f : Net Params -> Net Params) (E : nat -> Event) l :
  forall pre r t,
  foldM (fun (_ : unit) i => bind (update_net i f) (fun _ => emit (E i)))
        (seq (length pre) (length l)) tt (mkWorld (pre ++ l) r t)
  = (mkWorld (pre ++ map f l) r t, map E (seq (length pre) (length l)),
     Ok tt).
Proof.
  induction l as [|n l IH]; intros pre r t.
  - reflexivity.
  - cbn [length seq]. rewrite foldM_cons.
    assert (H1 : bind (update_net (length pre) f)
                      (fun _ => emit (E (length pre)))
                      (mkWorld (pre ++ n :: l) r t)
                 = (mkWorld ((pre ++ [f n]) ++ l) r t, [E (length pre)],
                    Ok tt)).
    { unfold bind, update_net, emit. cbn [nets rand_calls time_calls].
      rewrite nth_error_middle, set_index_middle, <- app_assoc.
      reflexivity. }
    rewrite (bind_step _ _ _ _ _ _ _ H1).
    replace (S (length pre)) with (length (pre ++ [f n]))
      by (rewrite length_app; simpl; lia).
    rewrite IH, <- app_assoc. reflexivity.
Qed.

Lemma update_all_run (f : Net Params -> Net Params) (E : nat -> Event)
  (w : World) :
  forM_ (seq 0 (length (nets w)))
        (fun i => bind (update_net i f) (fun _ => emit (E i))) w
  = (mkWorld (map f (nets w)) (rand_calls w) (time_calls w),
     map E (seq 0 (length (nets w))), Ok tt).
Proof.
  destruct w as [ns r t]. cbn [nets rand_calls time_calls].
  exact (update_all_from f E ns [] r t).
Qed.

Lemma map_set_index_same {A B} (g : A -> B) (l : list A) : forall i a v,
  nth_error l i = Some a -> g v = g a ->
  map g (set_index l i v) = map g l.
Proof.
  induction l as [|b l IH]; intros [|i] a v H Hg; simpl in *;
    try discriminate H; try reflexivity.
  - injection H as ->. now rewrite Hg.
  - f_equal. eapply IH; eassumption.
Qed.

(** ** The validation loop changes nothing *)

Section Val.
Variable train_settings : list (TrainSettings Params).

Lemma val_loop_frame ni nl loader acc (w0 : World) :
  always (fun w => w = w0) (fun e => is_gradient_event e = false)
    (foldM (val_batch train_settings ni nl) loader acc).
Proof. always_tac ltac:(first [ reflexivity | intros; reflexivity ]). Qed.

(** The validation phase, whatever its outcome. *)
Lemma val_phase_frame val_loader ni nl (w w' : World) ev r :
  val_phase val_loader train_settings ni nl w = (w', ev, r) ->
  nets w' = map (with_training (match r with Ok _ => true | Raise _ => false
                                end)) (nets w) /\
  rand_calls w' = rand_calls w /\ time_calls w' = time_calls w /\
  Forall (fun e => is_gradient_event e = false) ev.
Proof.
  unfold val_phase, net_eval, net_train. unfold bind at 1, num_nets.
  cbv beta iota.
  rewrite (bind_step _ _ _ _ _ _ _ (update_all_run _ _ w)).
  unfold bind at 1.
  destruct (foldM _ val_loader _ _) as [[w2 ev2] [acc|e]] eqn:E2;
    apply (val_loop_frame ni nl val_loader _ _ _ _ _ _ eq_refl) in E2
      as [-> Hev2].
  - pose proof (update_all_run (with_training true) EvTrain
                  (mkWorld (map (with_training false) (nets w))
                           (rand_calls w) (time_calls w))) as H3.
    cbn [nets rand_calls time_calls] in H3. rewrite length_map in H3.
    rewrite (bind_step _ _ _ _ _ _ _ H3). unfold ret.
    intros H. injection H as <- <- <-. cbn [nets rand_calls time_calls].
    rewrite map_map. repeat split.
    apply Forall_app. split; [|apply Forall_app; split].
    + apply Forall_forall. intros e He.
      apply in_map_iff in He as (i & <- & _). reflexivity.
    + exact Hev2.
    + cbn [app]. rewrite app_nil_r. apply Forall_forall. intros e He.
      apply in_map_iff in He as (i & <- & _). reflexivity.
  - intros H. injection H as <- <- <-. cbn [nets rand_calls time_calls].
    repeat split. apply Forall_app. split; [|exact Hev2].
    apply Forall_forall. intros e0 He.
    apply in_map_iff in He as (i & <- & _). reflexivity.
Qed.

(** X10. The validation pass (lines 121-141), whatever its outcome,
    changes nothing of the models but their mode: all are in training
    mode when it completes and in evaluation mode when it raises, with
    the parameters, gradients and devices they had.  It makes no draw,
    reads no clock, and causes no backward pass and no optimizer
    call. *)
Theorem validation_changes_modes_only val_loader ni nl (w w' : World) ev r :
  val_phase val_loader train_settings ni nl w = (w', ev, r) ->
  nets w' = map (with_training (match r with Ok _ => true | Raise _ => false
                                end)) (nets w) /\
  rand_calls w' = rand_calls w /\ time_calls w' = time_calls w /\
  Forall (fun e => is_gradient_event e = false) ev.
Proof. apply val_phase_frame. Qed.

End Val.

Section Run.
Variable uniform clock : nat -> float.
Variable train_loader val_loader : list (list Tensor).
Variable train_settings : list (TrainSettings Params).
Variable out_prefix : string.
Variable batch_use_prob : float.
Variable print_log : bool.
Variable log_dir : string.

(** ** The parameters a "best" file holds *)

(** With the parameters [ps] of the models: an event that writes no file
    other than the "best" file of a model, holding its parameters. *)
Local Abbreviation saves_best_of ps :=
  (fun e : Event =>
     match e with
     | EvSave path p =>
         exists i, path = best_path out_prefix i /\ nth_error ps i = Some p
     | _ => True
     end).

Lemma params_kept_cuda b (ps : list Params) i :
  update_keeps (fun w => map (fun n => params n) (nets w) = ps) i
               (with_cuda b).
Proof.
  intros w n <- Hn. cbn [nets]. now apply (map_set_index_same _ _ _ n).
Qed.

Lemma saved_best_params (ps : list Params) i (w : World) n :
  map (fun n => params n) (nets w) = ps ->
  nth_error (nets w) i = Some n ->
  saves_best_of ps (EvSave (best_path out_prefix i) (params n)).
Proof.
  intros <- Hn. exists i. split; [reflexivity|].
  now apply (map_nth_error (fun n => params n)).
Qed.

Lemma checkpoint_best_params avg mins ps :
  always (fun w : World => map (fun n => params n) (nets w) = ps)
         (saves_best_of ps)
         (checkpoint_best out_prefix avg mins).
Proof.
  always_tac ltac:(first [ exact I | intros; exact I
                         | apply params_kept_cuda
                         | intros; eapply saved_best_params; eassumption ]).
Qed.

(** X13. Every file written in the course of a completed epoch is the
    "best" checkpoint of some model [i], and it holds the parameters
    that model [i] has at the end of the epoch. *)
Theorem best_checkpoint_holds_epoch_parameters ni nl st epoch
  (w w' : World) ev st' :
  run_epoch uniform clock train_loader val_loader train_settings out_prefix
    batch_use_prob print_log log_dir ni nl st epoch w = (w', ev, Ok st') ->
  forall path p, In (EvSave path p) ev ->
    exists i n', path = best_path out_prefix i /\
                 nth_error (nets w') i = Some n' /\ params n' = p.
Proof.
  intros H path p Hin.
  apply run_epoch_Ok in H
    as (ev_phases & ev_ckpt & w_pre & ev_val & w_val & vacc & vavg & metrics
        & marker & acc & _ & -> & Hquiet & _ & _ & _ & _ & _ & _ & _ & _
        & Hck & _).
  apply (checkpoint_best_params _ _ _ _ _ _ _ eq_refl) in Hck as [Hps Hev].
  apply in_app_or in Hin as [Hin | Hin].
  { rewrite Forall_forall in Hquiet. apply Hquiet in Hin. discriminate Hin. }
  apply in_app_or in Hin as [Hin | Hin].
  - rewrite Forall_forall in Hev. apply Hev in Hin as (i & -> & Hp).
    rewrite <- Hps, nth_error_map in Hp.
    destruct (nth_error (nets w') i) as [n'|] eqn:En; [|discriminate Hp].
    injection Hp as Hp. exists i, n'. auto.
  - destruct print_log, (negb (log_dir =? "")%string); simpl in Hin;
      repeat (destruct Hin as [Hin | Hin]; [discriminate Hin|]);
      destruct Hin.
Qed.

End Run.
End WithParams.

(** The theorem at a validation phase of two models that raises on a
    batch that is too short. *)
Lemma validation_changes_modes_only_witness :
  exists w' ev,
    val_phase [Scenario.short_batch]
              [Example.settings 1; Example.settings 1] 1 1
              (mkWorld [Example.a_net; Example.a_net] 3 5)
    = (w', ev, Raise AssertionError) /\
    nets w' = map (with_training false) [Example.a_net; Example.a_net] /\
    rand_calls w' = 3 /\ time_calls w' = 5 /\
    Forall (fun e => is_gradient_event e = false) ev.
Proof.
  assert (E : exists w' ev,
    val_phase [Scenario.short_batch]
              [Example.settings 1; Example.settings 1] 1 1
              (mkWorld [Example.a_net; Example.a_net] 3 5)
    = (w', ev, Raise AssertionError))
    by (vm_compute; do 2 eexists; reflexivity).
  destruct E as (w' & ev & E).
  exists w', ev. split; [exact E|].
  exact (validation_changes_modes_only _ _ _ _ _ _ _ _ _ E).
Defined.

(** The theorem at the first epoch of the run of two models. *)
Lemma best_checkpoint_holds_epoch_parameters_witness :
  exists w' ev st',
    Scenario.an_epoch = (w', ev, Ok st') /\
    forall path p, In (EvSave path p) ev ->
      exists i n', path = best_path "out" i /\
                   nth_error (nets w') i = Some n' /\ params n' = p.
Proof.
  assert (E : exists w' ev st', Scenario.an_epoch = (w', ev, Ok st'))
    by (vm_compute; do 3 eexists; reflexivity).
  destruct E as (w' & ev & st' & E).
  exists w', ev, st'. split; [exact E|].
  exact (best_checkpoint_holds_epoch_parameters _ _ _ _ _ _ _ _ _ _ _ _ _ _
           _ _ _ _ E).
Defined.

End FrameFacts.

(* ================================================================== *)
(** * The observability hooks *)
(* ================================================================== *)

Module HookFacts.
Import Engine Observations Outcomes Hooks BaseFacts MonadFacts.
Import TrainFacts.

Section WithParams.
Variable Params : Type.
Local Abbreviation M := (Engine.M Params).
Local Abbreviation World := (Engine.World Params).
Local Abbreviation Event := (Engine.Event Params).

Lemma without_hooks_app (a b : list Event) :
  without_hooks (a ++ b) = without_hooks a ++ without_hooks b.
Proof. apply filter_app. Qed.

Lemma same_but_hooks_refl {A} (m : M A) : same_but_hooks m m.
Proof. intros w w1 ev r H. exists ev. auto. Qed.

Lemma same_but_hooks_bind {A B} (m m' : M A) (k k' : A -> M B) :
  same_but_hooks m m' -> (forall a, same_but_hooks (k a) (k' a)) ->
  same_but_hooks (bind m k) (bind m' k').
Proof.
  intros Hm Hk w w2 ev r H.
  apply bind_cases in H
    as [(w1 & ev1 & a & ev2 & H1 & H2 & ->) | (e & H & ->)].
  - destruct (Hm _ _ _ _ H1) as (ev1' & H1' & E1).
    destruct (Hk a _ _ _ _ H2) as (ev2' & H2' & E2).
    exists (ev1' ++ ev2'). split.
    + rewrite (bind_step _ _ _ _ _ _ _ H1'), H2'. reflexivity.
    + rewrite !without_hooks_app. congruence.
  - destruct (Hm _ _ _ _ H) as (ev' & H' & E).
    exists ev'. split; [|assumption].
    exact (bind_stop _ _ _ _ _ _ _ H').
Qed.

Lemma same_but_hooks_foldM {S A} (f g : S -> A -> M S) l :
  (forall s a, same_but_hooks (f s a) (g s a)) ->
  forall s, same_but_hooks (foldM f l s) (foldM g l s).
Proof.
  intros Hf. induction l as [|a l IH]; intros s.
  - apply same_but_hooks_refl.
  - rewrite !foldM_cons. apply same_but_hooks_bind; auto.
Qed.

(** Two statements that cause events of the hooks only and change
    nothing. *)
Lemma same_but_hooks_emits (evs evs' : list Event) :
  without_hooks evs = [] -> without_hooks evs' = [] ->
  same_but_hooks (fun w => (w, evs, Ok tt)) (fun w => (w, evs', Ok tt)).
Proof.
  intros H H' w w1 ev r E. injection E as <- <- <-.
  exists evs'. split; [reflexivity | congruence].
Qed.

Lemma same_but_hooks_when b b' (m m' : M unit) (evs evs' : list Event) :
  (forall w, m w = (w, evs, Ok tt)) -> (forall w, m' w = (w, evs', Ok tt)) ->
  without_hooks evs = [] -> without_hooks evs' = [] ->
  same_but_hooks (when b m) (when b' m').
Proof.
  intros Hm Hm' H H' w w1 ev r E.
  destruct b, b'; simpl in *; rewrite ?Hm, ?Hm' in *;
    injection E as <- <- <-; eexists; (split; [reflexivity|]);
    simpl; congruence.
Qed.

End WithParams.

(** Decomposition of two statements that differ in the hooks only. *)
Ltac hooks_tac :=
  repeat (lazymatch goal with
  | |- same_but_hooks (bind _ _) (bind _ _) =>
      apply same_but_hooks_bind; [|intro]
  | |- same_but_hooks (foldM _ _ _) (foldM _ _ _) =>
      apply same_but_hooks_foldM; intros
  | |- same_but_hooks (when _ _) (when _ _) =>
      eapply same_but_hooks_when; [intro; reflexivity..| reflexivity
                                  | reflexivity]
  | |- same_but_hooks (match ?x with _ => _ end)
                      (match ?x with _ => _ end) => destruct x
  | |- same_but_hooks ?m ?m => apply same_but_hooks_refl
  | |- same_but_hooks _ _ =>
      progress unfold run_epoch, run_epochs, TrainModels_body
  end).

Section Run.
Variable Params : Type.
Local Abbreviation World := (Engine.World Params).
Local Abbreviation Event := (Engine.Event Params).

Variable uniform clock : nat -> float.
Variable train_loader val_loader : list (list Tensor).
Variable train_settings : list (TrainSettings Params).
Variable out_prefix : string.
Variable batch_use_prob : float.

Lemma TrainModels_body_hooks print_log log_dir print_log' log_dir' :
  same_but_hooks
    (TrainModels_body uniform clock train_loader val_loader train_settings
       out_prefix batch_use_prob print_log log_dir)
    (TrainModels_body uniform clock train_loader val_loader train_settings
       out_prefix batch_use_prob print_log' log_dir').
Proof. hooks_tac. Qed.

Lemma TrainModels_body_no_hooks :
  always (fun _ : World => True) (fun e => is_hook e = false)
    (TrainModels_body uniform clock train_loader val_loader train_settings
       out_prefix batch_use_prob false "").
Proof.
  unfold TrainModels_body, run_epochs, run_epoch.
  cbn [when negb String.eqb].
  always_tac ltac:(first [ exact I | intros; exact I | reflexivity
                         | intros; reflexivity ]).
Qed.

(** X14. The console line and the tensorboard logger do not affect
    training (both are modelled as calls that return): with any other
    values of [print_log] and [log_dir] the call ends with the same
    models and the same outcome, the same log or the same exception,
    and causes the same events apart from those of the two hooks; with
    both switched off it causes exactly the events that are left. *)
Theorem hooks_do_not_affect_training print_log log_dir nets0 nets' ev r :
  TrainModels uniform clock train_loader val_loader train_settings
    out_prefix batch_use_prob print_log log_dir nets0 = (nets', ev, r) ->
  forall print_log' log_dir',
  exists ev',
    TrainModels uniform clock train_loader val_loader train_settings
      out_prefix batch_use_prob print_log' log_dir' nets0 = (nets', ev', r) /\
    without_hooks ev' = without_hooks ev /\
    (print_log' = false -> log_dir' = ""%string -> ev' = without_hooks ev).
Proof.
  unfold TrainModels. intros H print_log' log_dir'.
  destruct (TrainModels_body _ _ _ _ _ _ _ print_log log_dir _)
    as [[w1 ev1] r1] eqn:E.
  injection H as <- <- <-.
  destruct (TrainModels_body_hooks print_log log_dir print_log' log_dir'
              _ _ _ _ E) as (ev' & E' & Hev).
  exists ev'. rewrite E'. repeat split; [assumption|].
  intros -> ->. rewrite <- Hev.
  apply (TrainModels_body_no_hooks _ _ _ _ I) in E' as [_ Hnone].
  unfold without_hooks. clear -Hnone.
  induction Hnone as [|e ev He _ IH]; [reflexivity|].
  simpl. rewrite He. simpl. now f_equal.
Qed.

End Run.

(** The theorem at the run of two models for two epochs, against the
    same run with the logger on and the console lines off. *)
Lemma hooks_do_not_affect_training_witness :
  exists nets' ev log ev',
    Example.a_run = (nets', ev, Ok log) /\
    Scenario.a_logged_run = (nets', ev', Ok log) /\
    without_hooks ev' = without_hooks ev.
Proof.
  assert (E : exists nets' ev log, Example.a_run = (nets', ev, Ok log))
    by (vm_compute; do 3 eexists; reflexivity).
  destruct E as (nets' & ev & log & E).
  destruct (hooks_do_not_affect_training _ _ _ _ _ _ _ _ _ _ _ _ _ _ E
              false "tb"%string) as (ev' & E' & Hev & _).
  exists nets', ev, log, ev'. auto.
Defined.

End HookFacts.

(* ================================================================== *)
(** * The training pass, model by model *)
(* ================================================================== *)

Module AloneFacts.
Import Engine Observations Outcomes Alone BaseFacts MonadFacts MetricsFacts.
Import PassFacts TrainFacts CheckpointFacts.

Section WithParams.
Variable Params : Type.
Local Abbreviation M := (Engine.M Params).
Local Abbreviation World := (Engine.World Params).
Local Abbreviation Event := (Engine.Event Params).

Lemma update_net_inv i f (w w' : World) ev u :
  update_net i f w = (w', ev, Ok u) ->
  exists n, nth_error (nets w) i = Some n /\ ev = [] /\
    w' = mkWorld (set_index (nets w) i (f n)) (rand_calls w) (time_calls w).
Proof.
  unfold update_net. destruct (nth_error (nets w) i) as [n|];
    intros H; [|discriminate H].
  injection H as <- <- _. eauto.
Qed.

Section Train.
Variable uniform : nat -> float.
Variable train_settings : list (TrainSettings Params).
Variable batch_use_prob : float.
Variable ni nl : nat.

Local Abbreviation step := (model_step train_settings ni nl).
Local Abbreviation alone := (train_alone uniform train_settings batch_use_prob ni nl).

(** ** One model on one batch *)

Lemma train_net_slot b iv lv wv acc idx (w w' : World) ev acc' :
  DataBatchToVariables b ni nl = Ok (iv, lv, wv) ->
  train_net uniform train_settings batch_use_prob iv lv wv acc idx w
    = (w', ev, Ok acc') ->
  rand_calls w' = S (rand_calls w) /\ time_calls w' = time_calls w /\
  length (nets w') = length (nets w) /\
  forall i s, slot w acc i s ->
    exists s',
      (if (i =? idx)%nat
       then if (uniform (rand_calls w) <? batch_use_prob)%float
            then step i b s else Ok s
       else Ok s) = Ok s' /\
      slot w' acc' i s' /\
      run_steps s' = run_steps s + count (is_step i) ev.
Proof.
  intros Hb H.
  destruct (uniform (rand_calls w) <? batch_use_prob)%float eqn:Hu.
  - unfold train_net in H.
    apply bind_Ok in H as (w1 & ev1 & u & ev2 & H1 & H & ->).
    injection H1 as <- <- <-. rewrite Hu in H.
    apply bind_Ok in H as (w2 & ev3 & out & ev4 & H1 & H & ->).
    apply net_call_Ok in H1 as (-> & n & Hn & -> & Hout).
    apply bind_Ok in H as (w3 & ev5 & ts & ev6 & H1 & H & ->).
    apply lift_run in H1 as (-> & -> & Hts). symmetry in Hts.
    apply bind_Ok in H as (w4 & ev7 & loss_value & ev8 & H1 & H & ->).
    apply lift_run in H1 as (-> & -> & Hloss). symmetry in Hloss.
    apply bind_Ok in H as (w5 & ev9 & [] & ev10 & H1 & H & ->).
    apply emit_run in H1 as (-> & -> & _).
    apply bind_Ok in H as (w6 & ev11 & [] & ev12 & H1 & H & ->).
    apply update_net_inv in H1 as (n' & Hn' & -> & ->).
    apply bind_Ok in H as (w7 & ev13 & [] & ev14 & H1 & H & ->).
    apply emit_run in H1 as (-> & -> & _).
    apply bind_Ok in H as (w8 & ev15 & [] & ev16 & H1 & H & ->).
    apply emit_run in H1 as (-> & -> & _).
    apply lift_run in H as (-> & -> & Hacc). symmetry in Hacc.
    cbn [nets rand_calls time_calls] in *.
    rewrite Hn in Hn'. injection Hn' as <-.
    destruct acc as [losses examples]. unfold accumulate in Hacc.
    apply rbind_Ok in Hacc as (bs & Hbs & Hacc).
    apply rbind_Ok in Hacc as (c & Hc & Hacc).
    apply rbind_Ok in Hacc as (r & Hr & Hacc).
    apply rbind_Ok in Hacc as (l0 & Hl0 & Hacc).
    apply rbind_Ok in Hacc as (p & Hp & Hacc).
    injection Hacc as <-. apply index_Ok in Hc, Hr.
    assert (Hi1 : idx < length (nets w))
      by (apply nth_error_Some; congruence).
    assert (Hi2 : idx < length losses) by (apply nth_error_Some; congruence).
    assert (Hi3 : idx < length examples)
      by (apply nth_error_Some; congruence).
    repeat split; [apply set_index_length|].
    intros i s (Sn & Sl & Sc). cbn [fst snd] in *.
    destruct (Nat.eqb_spec i idx) as [->|Hne].
    + rewrite Hn in Sn. injection Sn as Sn.
      rewrite Hr in Sl. injection Sl as Sl.
      rewrite Hc in Sc. injection Sc as Sc.
      eexists. split; [|split].
      * unfold model_step. rewrite Hb. cbn [rbind]. rewrite <- Sn.
        rewrite Hout. cbn [rbind]. rewrite Hts. cbn [rbind].
        rewrite Hloss. cbn [rbind]. rewrite Hbs. cbn [rbind].
        rewrite Hl0. cbn [rbind]. rewrite Hp. cbn [rbind]. reflexivity.
      * unfold slot. cbn [nets fst snd run_net run_loss run_examples].
        rewrite !nth_error_set_index, Nat.eqb_refl.
        rewrite (proj2 (Nat.ltb_lt _ _) Hi1), (proj2 (Nat.ltb_lt _ _) Hi2),
          (proj2 (Nat.ltb_lt _ _) Hi3).
        cbn [andb]. rewrite <- Sl, <- Sc. auto.
      * cbn [run_steps]. unfold count. simpl. rewrite Nat.eqb_refl.
        simpl. lia.
    + exists s. split; [reflexivity|]. split.
      * unfold slot. cbn [nets fst snd].
        rewrite !nth_error_set_index.
        rewrite (proj2 (Nat.eqb_neq idx i)) by congruence. auto.
      * unfold count. simpl.
        rewrite (proj2 (Nat.eqb_neq i idx)) by congruence. simpl. lia.
  - rewrite train_net_skipped in H by assumption.
    injection H as <- <- <-. cbn [nets rand_calls time_calls].
    repeat split. intros i s Hs. exists s.
    split; [now destruct (i =? idx)%nat|]. split; [exact Hs|].
    unfold count. simpl. lia.
Qed.

(** ** The accumulators keep their lengths *)

Lemma foldM_Ok_invariant {S A} (P : S -> Prop) (f : S -> A -> M S) l :
  (forall s a (w w' : World) ev s',
     f s a w = (w', ev, Ok s') -> P s -> P s') ->
  forall s (w w' : World) ev s',
    foldM f l s w = (w', ev, Ok s') -> P s -> P s'.
Proof.
  intros Hf. induction l as [|a l IH]; intros s w w' ev s' H Hs.
  - now injection H as _ _ <-.
  - rewrite foldM_cons in H.
    apply bind_Ok in H as (w1 & ev1 & s1 & ev2 & H1 & H2 & _).
    eapply IH; [exact H2|]. eapply Hf; eassumption.
Qed.

Lemma train_net_lengths k iv lv wv acc idx (w w' : World) ev acc' :
  train_net uniform train_settings batch_use_prob iv lv wv acc idx w
    = (w', ev, Ok acc') ->
  length (fst acc) = k /\ length (snd acc) = k ->
  length (fst acc') = k /\ length (snd acc') = k.
Proof.
  intros H [H1 H2].
  destruct (uniform (rand_calls w) <? batch_use_prob)%float eqn:Hu.
  - apply train_net_taken in H as (n & loss_value & _ & _ & _ & Ha);
      [|assumption].
    apply accumulate_Ok in Ha as (bs & c & _ & _ & Hs & Hl).
    rewrite Hl, Hs, set_index_length. auto.
  - rewrite train_net_skipped in H by assumption.
    injection H as _ _ <-. auto.
Qed.

Lemma train_phase_lengths loader (w w' : World) ev losses examples :
  train_phase uniform loader train_settings batch_use_prob ni nl w
    = (w', ev, Ok (losses, examples)) ->
  length losses = length (nets w) /\ length examples = length (nets w).
Proof.
  intros H. unfold train_phase in H.
  apply bind_Ok in H as (w0 & ev0 & k & ev1 & H0 & H & ->).
  injection H0 as <- <- <-.
  apply (foldM_Ok_invariant
           (fun acc : Acc => length (fst acc) = length (nets w) /\
                             length (snd acc) = length (nets w))) in H;
    [exact H| |simpl; now rewrite !repeat_length].
  intros acc b w1 w2 ev2 acc2 Hb Hacc. unfold train_batch in Hb.
  apply bind_Ok in Hb as (w3 & ev3 & [[iv lv] wv] & ev4 & _ & Hb & _).
  apply bind_Ok in Hb as (w4 & ev5 & n & ev6 & _ & Hb & _).
  apply (foldM_Ok_invariant
           (fun acc : Acc => length (fst acc) = length (nets w) /\
                             length (snd acc) = length (nets w))) in Hb;
    [exact Hb| |exact Hacc].
  intros acc3 idx w5 w6 ev7 acc4. apply train_net_lengths.
Qed.

(** ** One batch, the models from position [k] on *)

Lemma train_inner_slot b iv lv wv m : forall k acc (w w' : World) ev acc',
  DataBatchToVariables b ni nl = Ok (iv, lv, wv) ->
  foldM (train_net uniform train_settings batch_use_prob iv lv wv)
        (seq k m) acc w = (w', ev, Ok acc') ->
  rand_calls w' = rand_calls w + m /\ time_calls w' = time_calls w /\
  length (nets w') = length (nets w) /\
  forall i s, slot w acc i s ->
    exists s',
      (if (k <=? i)%nat && (i <? k + m)%nat
       then if (uniform (rand_calls w + (i - k)) <? batch_use_prob)%float
            then step i b s else Ok s
       else Ok s) = Ok s' /\
      slot w' acc' i s' /\
      run_steps s' = run_steps s + count (is_step i) ev.
Proof.
  induction m as [|m IH]; intros k acc w w' ev acc' Hb H.
  - injection H as <- <- <-. repeat split; try lia.
    intros i s Hs. exists s. split; [|split; [exact Hs|]].
    + bool_cases; simpl; try reflexivity; lia.
    + unfold count. simpl. lia.
  - simpl seq in H. rewrite foldM_cons in H.
    apply bind_Ok in H as (w1 & ev1 & acc1 & ev2 & H1 & H2 & ->).
    apply (train_net_slot b) in H1 as (Hr1 & Ht1 & Hl1 & Hs1); [|assumption].
    apply IH in H2 as (Hr2 & Ht2 & Hl2 & Hs2); [|assumption].
    repeat split; try lia.
    intros i s Hs.
    destruct (Hs1 i s Hs) as (s1 & E1 & Hslot1 & Hsteps1).
    destruct (Hs2 i s1 Hslot1) as (s2 & E2 & Hslot2 & Hsteps2).
    exists s2. split; [|split; [exact Hslot2|]].
    + destruct (Nat.eqb_spec i k) as [->|Hne].
      * replace ((S k <=? k)%nat && (k <? S k + m)%nat) with false in E2
          by (bool_cases; simpl; try reflexivity; lia).
        replace ((k <=? k)%nat && (k <? k + S m)%nat) with true
          by (bool_cases; simpl; try reflexivity; lia).
        rewrite Nat.sub_diag, Nat.add_0_r. congruence.
      * injection E1 as <-.
        replace ((k <=? i)%nat && (i <? k + S m)%nat)
          with ((S k <=? i)%nat && (i <? S k + m)%nat)
          by (bool_cases; simpl; try reflexivity; lia).
        destruct ((S k <=? i)%nat && (i <? S k + m)%nat) eqn:Er;
          [|exact E2].
        replace (rand_calls w + (i - k)) with (rand_calls w1 + (i - S k));
          [exact E2|].
        apply andb_prop in Er as [Er _]. apply Nat.leb_le in Er. lia.
    + rewrite count_app. lia.
Qed.

(** ** One batch, all models *)

Lemma train_batch_slot acc b (w w' : World) ev acc' :
  train_batch uniform train_settings batch_use_prob ni nl acc b w
    = (w', ev, Ok acc') ->
  rand_calls w' = rand_calls w + length (nets w) /\
  time_calls w' = time_calls w /\
  length (nets w') = length (nets w) /\
  forall i s, slot w acc i s ->
    exists s',
      (if (uniform (rand_calls w + i) <? batch_use_prob)%float
       then step i b s else Ok s) = Ok s' /\
      slot w' acc' i s' /\
      run_steps s' = run_steps s + count (is_step i) ev.
Proof.
  intros H. unfold train_batch in H.
  apply bind_Ok in H as (w1 & ev1 & [[iv lv] wv] & ev2 & H1 & H2 & ->).
  apply lift_run in H1 as (-> & -> & Hb). symmetry in Hb.
  apply bind_Ok in H2 as (w2 & ev3 & n & ev4 & H2 & H3 & ->).
  injection H2 as <- <- <-.
  apply (train_inner_slot b) in H3 as (Hr & Ht & Hl & Hs); [|assumption].
  repeat split; try assumption.
  intros i s Hslot. destruct (Hs i s Hslot) as (s' & E & Hslot' & Hsteps).
  exists s'. split; [|split; assumption].
  assert (Hi : i < length (nets w)).
  { apply nth_error_Some. destruct Hslot as (Hn & _). congruence. }
  simpl in E. rewrite (proj2 (Nat.ltb_lt _ _) Hi), Nat.sub_0_r in E.
  exact E.
Qed.

(** ** All batches *)

Lemma train_loop_slot loader : forall acc (w w' : World) ev acc',
  foldM (train_batch uniform train_settings batch_use_prob ni nl)
        loader acc w = (w', ev, Ok acc') ->
  rand_calls w' = rand_calls w + length loader * length (nets w) /\
  time_calls w' = time_calls w /\
  length (nets w') = length (nets w) /\
  forall i s, slot w acc i s ->
    exists s',
      alone (length (nets w)) i (rand_calls w) loader s = Ok s' /\
      slot w' acc' i s' /\
      run_steps s' = run_steps s + count (is_step i) ev.
Proof.
  induction loader as [|b loader IH]; intros acc w w' ev acc' H.
  - injection H as <- <- <-. repeat split; try (simpl; lia).
    intros i s Hs. exists s. repeat split; try apply Hs.
    unfold count. simpl. lia.
  - rewrite foldM_cons in H.
    apply bind_Ok in H as (w1 & ev1 & acc1 & ev2 & H1 & H2 & ->).
    apply train_batch_slot in H1 as (Hr1 & Ht1 & Hl1 & Hs1).
    apply IH in H2 as (Hr2 & Ht2 & Hl2 & Hs2).
    repeat split; [simpl; nia | lia | lia |].
    intros i s Hs.
    destruct (Hs1 i s Hs) as (s1 & E1 & Hslot1 & Hsteps1).
    destruct (Hs2 i s1 Hslot1) as (s2 & E2 & Hslot2 & Hsteps2).
    exists s2. split; [|split; [exact Hslot2|]].
    + cbn [train_alone]. rewrite E1. cbn [rbind].
      rewrite <- Hr1, <- Hl1. exact E2.
    + rewrite count_app. lia.
Qed.

(** A completed training phase, model by model. *)
Lemma train_phase_alone train_loader (w w' : World) ev losses examples :
  train_phase uniform train_loader train_settings batch_use_prob ni nl w
    = (w', ev, Ok (losses, examples)) ->
  rand_calls w' = rand_calls w + length train_loader * length (nets w) /\
  time_calls w' = time_calls w /\
  length (nets w') = length (nets w) /\
  length losses = length (nets w) /\ length examples = length (nets w) /\
  forall i n, nth_error (nets w) i = Some n ->
    exists s,
      alone (length (nets w)) i (rand_calls w) train_loader
            (mkModelRun n 0%float 0%Z 0) = Ok s /\
      nth_error (nets w') i = Some (run_net s) /\
      nth_error losses i = Some (run_loss s) /\
      nth_error examples i = Some (run_examples s) /\
      count (is_step i) ev = run_steps s.
Proof.
  intros H. destruct (train_phase_lengths _ _ _ _ _ _ H) as [Hg1 Hg2].
  unfold train_phase in H.
  apply bind_Ok in H as (w0 & ev0 & k & ev1 & H0 & H & ->).
  injection H0 as <- <- <-.
  apply train_loop_slot in H as (Hr & Ht & Hl & Hs).
  repeat split; try assumption.
  intros i n Hn.
  assert (Hi : i < length (nets w)) by (apply nth_error_Some; congruence).
  destruct (Hs i (mkModelRun n 0%float 0%Z 0)) as (s & E & (S1 & S2 & S3) & Hk).
  { repeat split; cbn [fst snd run_net run_loss run_examples];
      [assumption | now apply nth_error_repeat..]. }
  exists s. cbn [fst snd run_steps] in *. repeat split; try assumption.
  simpl. lia.
Qed.

(** X7. Training the models in lock step is training each of them
    alone: in a completed training pass (lines 96-113) over [n] models,
    model [i] ends as [train_alone] leaves it, which walks the batches
    with that model only and takes batch [k] exactly when draw number
    [r + k * n + i] is below [batch_use_prob]; the running loss, the
    example count and the number of optimizer steps of model [i] are
    those of that walk.  The pass makes one draw for every batch and
    model, reads no clock, and keeps the number of models. *)
Theorem lockstep_training_is_per_model train_loader (w w' : World) ev
  losses examples :
  train_phase uniform train_loader train_settings batch_use_prob ni nl w
    = (w', ev, Ok (losses, examples)) ->
  rand_calls w' = rand_calls w + length train_loader * length (nets w) /\
  time_calls w' = time_calls w /\
  length (nets w') = length (nets w) /\
  length losses = length (nets w) /\ length examples = length (nets w) /\
  forall i n, nth_error (nets w) i = Some n ->
    exists s,
      alone (length (nets w)) i (rand_calls w) train_loader
            (mkModelRun n 0%float 0%Z 0) = Ok s /\
      nth_error (nets w') i = Some (run_net s) /\
      nth_error losses i = Some (run_loss s) /\
      nth_error examples i = Some (run_examples s) /\
      count (is_step i) ev = run_steps s.
Proof. apply train_phase_alone. Qed.

End Train.
End WithParams.

(** The theorem at a training phase of two models over two batches of 2
    and 3 examples, where the first model takes the first batch only and
    the second model the second batch only. *)
Lemma lockstep_training_is_per_model_witness :
  exists w' ev losses,
    train_phase Scenario.thirds [Example.batch_a; Example.batch_b]
      [Example.settings 1; Example.settings 1] 0.5 1 1
      (mkWorld [Example.a_net; Example.a_net] 0 0)
    = (w', ev, Ok (losses, [2; 3]%Z)) /\
    rand_calls w' = 4 /\
    exists s,
      train_alone Scenario.thirds [Example.settings 1; Example.settings 1]
        0.5 1 1 2 1 0 [Example.batch_a; Example.batch_b]
        (mkModelRun Example.a_net 0 0 0) = Ok s /\
      nth_error (nets w') 1 = Some (run_net s) /\
      run_examples s = 3%Z /\
      count (is_step 1) ev = run_steps s.
Proof.
  assert (E : exists w' ev losses,
    train_phase Scenario.thirds [Example.batch_a; Example.batch_b]
      [Example.settings 1; Example.settings 1] 0.5 1 1
      (mkWorld [Example.a_net; Example.a_net] 0 0)
    = (w', ev, Ok (losses, [2; 3]%Z)))
    by (vm_compute; do 3 eexists; reflexivity).
  destruct E as (w' & ev & losses & E).
  exists w', ev, losses. split; [exact E|].
  destruct (lockstep_training_is_per_model _ _ _ _ _ _ _ _ _ _ _ _ E)
    as (Hr & _ & _ & _ & _ & Hs).
  split; [exact Hr|].
  destruct (Hs 1 Example.a_net eq_refl) as (s & Hal & Hn & _ & He & Hk).
  exists s. repeat split; try assumption.
  simpl in He. now injection He.
Defined.

End AloneFacts.

(* ================================================================== *)
(** * What an epoch needs to complete *)
(* ================================================================== *)

Module EpochFacts.
Import Engine Observations Outcomes Alone BaseFacts MonadFacts MetricsFacts.
Import PassFacts TrainFacts ValFacts CheckpointFacts RunFacts.
Import FinalFacts FrameFacts AloneFacts.

Section WithParams.
Variable Params : Type.
Local Abbreviation M := (Engine.M Params).
Local Abbreviation World := (Engine.World Params).
Local Abbreviation Event := (Engine.Event Params).

Lemma sum_int_from (l : list Z) : forall a,
  fold_left Z.add l a = (a + sum_int l)%Z.
Proof.
  unfold sum_int. induction l as [|x l IH]; intros a; simpl; [lia|].
  rewrite IH, (IH x). lia.
Qed.

Lemma sum_int_all_zero (l : list Z) :
  (forall i c, nth_error l i = Some c -> c = 0%Z) -> sum_int l = 0%Z.
Proof.
  induction l as [|x l IH]; intros H; [reflexivity|].
  unfold sum_int. simpl. rewrite sum_int_from.
  rewrite (H 0 x eq_refl), IH; [reflexivity|].
  intros i c Hc. exact (H (S i) c Hc).
Qed.

Section Run.
Variable uniform clock : nat -> float.
Variable train_loader val_loader : list (list Tensor).
Variable train_settings : list (TrainSettings Params).
Variable out_prefix : string.
Variable batch_use_prob : float.
Variable print_log : bool.
Variable log_dir : string.

Local Abbreviation epoch_body :=
  (run_epoch uniform clock train_loader val_loader train_settings
     out_prefix batch_use_prob print_log log_dir).

(** The statements of a completed epoch, one by one. *)
Lemma run_epoch_inv ni nl st epoch (w w' : World) ev st' :
  epoch_body ni nl st epoch w = (w', ev, Ok st') ->
  exists w_t ev_t losses examples eps avg w_v ev_v vacc vavg vavgl ev_c,
    train_phase uniform train_loader train_settings batch_use_prob ni nl
      (mkWorld (nets w) (rand_calls w) (S (time_calls w)))
      = (w_t, ev_t, Ok (losses, examples)) /\
    truediv_int_float (sum_int examples)
      (clock (time_calls w_t) - clock (time_calls w))%float = Ok eps /\
    pooled_average losses examples = Ok avg /\
    val_phase val_loader train_settings ni nl
      (mkWorld (nets w_t) (rand_calls w_t) (S (time_calls w_t)))
      = (w_v, ev_v, Ok vacc) /\
    AverageLosses (fst vacc) (snd vacc) = Ok vavg /\
    pooled_average (fst vacc) (snd vacc) = Ok vavgl /\
    checkpoint_best out_prefix vavg (min_validation_losses st) w_v
      = (w', ev_c, Ok (min_validation_losses st')) /\
    train_log st'
    = train_log st
      ++ [mkEpochMetrics avg vavgl
            (clock (time_calls w_t) - clock (time_calls w))%float eps] /\
    exists marker,
      ev = map EvZeroGrad (seq 0 (length train_settings)) ++ ev_t ++ ev_v
           ++ ev_c
           ++ (if print_log
               then [EvPrint epoch
                       (mkEpochMetrics avg vavgl
                          (clock (time_calls w_t) - clock (time_calls w))%float
                          eps) marker]
               else [])
           ++ (if negb (log_dir =? "")%string
               then [EvLogValue "train_loss" avg epoch;
                     EvLogValue "val_loss" vavgl epoch]
               else []).
Proof.
  intros H. unfold run_epoch in H.
  apply bind_Ok in H as (w1 & ev1 & [] & ev1' & H1 & H & ->).
  rewrite forM_emit in H1. injection H1 as <- <-.
  apply bind_Ok in H as (w2 & ev2 & t0 & ev2' & H1 & H & ->).
  injection H1 as <- <- <-.
  apply bind_Ok in H as (w3 & ev3 & [rl te] & ev3' & Htrain & H & ->).
  apply bind_Ok in H as (w4 & ev4 & t1 & ev4' & H1 & H & ->).
  injection H1 as <- <- <-.
  apply bind_Ok in H as (w5 & ev5 & eps & ev5' & H1 & H & ->).
  apply lift_run in H1 as (-> & -> & Heps). symmetry in Heps.
  apply bind_Ok in H as (w6 & ev6 & avg & ev6' & H1 & H & ->).
  apply lift_run in H1 as (-> & -> & Havg).
  apply bind_Ok in H as (w7 & ev7 & avgl & ev7' & H1 & H & ->).
  apply lift_run in H1 as (-> & -> & Havgl). symmetry in Havgl.
  apply bind_Ok in H as (w8 & ev8 & [vl ve] & ev8' & Hval & H & ->).
  apply bind_Ok in H as (w9 & ev9 & vavg & ev9' & H1 & H & ->).
  apply lift_run in H1 as (-> & -> & Hvavg). symmetry in Hvavg.
  apply bind_Ok in H as (w10 & ev10 & vavgl & ev10' & H1 & H & ->).
  apply lift_run in H1 as (-> & -> & Hvavgl). symmetry in Hvavgl.
  apply bind_Ok in H as (w11 & ev11 & mins & ev11' & Hck & H & ->).
  apply bind_Ok in H as (w12 & ev12 & [] & ev12' & Hprint & H & ->).
  apply bind_Ok in H as (w13 & ev13 & [] & ev13' & Hlog & H & ->).
  injection H as <- <- <-.
  set (metrics := mkEpochMetrics avgl vavgl _ eps) in *.
  set (marker := if (vavgl <? min_validation_loss st)%float
                 then " **"%string else ""%string) in *.
  assert (Hp : w12 = w11 /\
               ev12 = if print_log then [EvPrint epoch metrics marker]
                      else []).
  { destruct print_log; simpl in Hprint; injection Hprint as <- <-; auto. }
  destruct Hp as [-> ->].
  assert (Hl : w13 = w11 /\
               ev13 = if negb (log_dir =? "")%string
                      then [EvLogValue "train_loss" avgl epoch;
                            EvLogValue "val_loss" vavgl epoch]
                      else []).
  { destruct (negb (log_dir =? "")%string); simpl in Hlog;
      injection Hlog as <- <-; auto. }
  destruct Hl as [-> ->].
  exists w3, ev3, rl, te, eps, avgl, w8, ev8, (vl, ve), vavg, vavgl, ev11.
  cbn [fst snd min_validation_losses train_log time_calls].
  repeat split; try assumption.
  cbn [app]. rewrite ?app_nil_r, <- ?app_assoc. exists marker. reflexivity.
Qed.

(** ** The two external streams *)

Lemma checkpoint_best_streams avg mins r t :
  always (fun w : World => rand_calls w = r /\ time_calls w = t)
         (fun _ => True) (checkpoint_best out_prefix avg mins).
Proof.
  always_tac ltac:(first [ exact I | intros; exact I
                         | intros ? ? H ?; exact H ]).
Qed.

Lemma run_epoch_streams ni nl st epoch (w w' : World) ev st' :
  epoch_body ni nl st epoch w = (w', ev, Ok st') ->
  rand_calls w' = rand_calls w + length train_loader * length (nets w) /\
  time_calls w' = time_calls w + 2 /\
  length (nets w') = length (nets w) /\
  length (train_log st') = S (length (train_log st)).
Proof.
  intros H. apply run_epoch_inv in H
    as (w_t & ev_t & losses & examples & eps & avg & w_v & ev_v & vacc & vavg
        & vavgl & ev_c & Ht & _ & _ & Hv & _ & _ & Hc & Hlog & _).
  apply train_phase_alone in Ht as (Hr1 & Ht1 & Hl1 & _).
  apply val_phase_frame in Hv as (Hn2 & Hr2 & Ht2 & _).
  destruct (checkpoint_best_streams _ _ _ _ _ _ _ _ (conj eq_refl eq_refl) Hc)
    as [[Hr3 Ht3] _].
  apply checkpoint_best_Ok in Hc as (Hl3 & _).
  cbn [nets rand_calls time_calls] in *.
  rewrite Hn2, length_map in Hl3.
  rewrite Hlog, length_app. simpl. repeat split; lia.
Qed.

Lemma run_epochs_streams ni nl : forall l st (w w' : World) ev st',
  foldM (epoch_body ni nl) l st w = (w', ev, Ok st') ->
  rand_calls w'
  = rand_calls w + length l * (length train_loader * length (nets w)) /\
  time_calls w' = time_calls w + 2 * length l /\
  length (nets w') = length (nets w) /\
  length (train_log st') = length (train_log st) + length l.
Proof.
  induction l as [|e l IH]; intros st w w' ev st' H.
  - injection H as <- <- <-. simpl. repeat split; lia.
  - rewrite foldM_cons in H.
    apply bind_Ok in H as (w1 & ev1 & st1 & ev2 & H1 & H2 & ->).
    apply run_epoch_streams in H1 as (Hr1 & Ht1 & Hl1 & Hg1).
    apply IH in H2 as (Hr2 & Ht2 & Hl2 & Hg2).
    rewrite Hl1 in Hr2. simpl length. repeat split; lia.
Qed.

(** X8. A run that returns the log [log] has made
    [len(train_loader) * len(nets)] draws of [random.uniform] in each of
    its [len(log)] epochs, whatever [batch_use_prob] is, and has read
    the clock twice in each epoch. *)
Theorem draws_and_clock_readings (w w' : World) ev log :
  TrainModels_body uniform clock train_loader val_loader train_settings
    out_prefix batch_use_prob print_log log_dir w = (w', ev, Ok log) ->
  rand_calls w'
  = rand_calls w + length log * (length train_loader * length (nets w)) /\
  time_calls w' = time_calls w + 2 * length log.
Proof.
  rewrite DependenceFacts.TrainModels_body_unfold.
  destruct (index (nets w) 0) as [net0|e]; [|discriminate].
  destruct (index train_settings 0) as [ts0|e]; [|discriminate].
  cbv zeta.
  destruct (bind _ _ w) as [[w2 ev2] r] eqn:E.
  intros H. injection H as <- <- ->.
  apply bind_Ok in E as (w1 & ev1 & st & ev3 & H1 & H2 & ->).
  rewrite (bind_step _ _ _ _ _ _ _ (save_last_run _ _ w1)) in H2.
  injection H2 as <- _ <-. cbn [rand_calls time_calls].
  unfold run_epochs in H1.
  apply run_epochs_streams in H1 as (Hr & Ht & _ & Hg).
  simpl in Hg. rewrite Hg. lia.
Qed.

(** ** Settings for every model *)

Lemma run_epoch_needs_settings ni nl st epoch (w w' : World) ev st' :
  epoch_body ni nl st epoch w = (w', ev, Ok st') ->
  length (nets w) <= length train_settings.
Proof.
  intros H. apply run_epoch_inv in H
    as (w_t & ev_t & losses & examples & eps & avg & w_v & ev_v & [vl ve]
        & vavg & vavgl & ev_c & Ht & _ & _ & Hv & _ & Hpool & _).
  apply train_phase_alone in Ht as (_ & _ & Hl1 & _).
  pose proof (val_phase_Ok _ _ _ _ _ _ _ _ _ _ Hv)
    as (_ & _ & _ & _ & Hve & _).
  pose proof (val_phase_losses _ _ _ _ _ _ _ _ _ _ Hv) as Hloss.
  apply pooled_average_nonzero in Hpool as [Hnz _].
  cbn [fst snd nets] in *.
  destruct val_loader as [|b rest].
  { exfalso. apply Hnz. rewrite Hve. apply PooledFacts.sum_int_zeros. }
  destruct (Nat.le_gt_cases (length (nets w)) (length train_settings))
    as [Hle|Hgt]; [exact Hle|exfalso].
  assert (Hi : length train_settings < length (nets w_t)) by lia.
  apply nth_error_Some in Hi.
  destruct (nth_error (nets w_t) (length train_settings)) as [n|] eqn:En;
    [|contradiction].
  destruct (Hloss _ n En) as (cs & _ & Hcs).
  inversion Hcs as [|? c ? cs' (ts & Hts & _) _]; subst.
  assert (Hlt : length train_settings < length train_settings)
    by (apply nth_error_Some; congruence).
  lia.
Qed.

Lemma first_epoch_of_run nets0 nets' ev log :
  TrainModels uniform clock train_loader val_loader train_settings
    out_prefix batch_use_prob print_log log_dir nets0 = (nets', ev, Ok log) ->
  log <> [] ->
  exists net0 st1 w1 ev1,
    nth_error nets0 0 = Some net0 /\
    epoch_body (length (input_names net0)) (length (label_names net0))
      (initial_state (length nets0)) 0 (mkWorld nets0 0 0)
    = (w1, ev1, Ok st1).
Proof.
  intros H Hlog. apply TrainModels_Ok in H
    as (ts0 & net0 & w1 & w2 & ev_run & st & ev_last & _ & Hn0 & Hrun & _
        & _ & _ & ->).
  unfold run_epochs in Hrun.
  destruct (Z.to_nat (epochs ts0)) as [|k].
  - injection Hrun as _ _ <-. now contradiction Hlog.
  - simpl seq in Hrun. rewrite foldM_cons in Hrun.
    apply bind_Ok in Hrun as (w3 & ev3 & st3 & ev4 & H1 & _ & _).
    exists net0, st3, w3, ev3. auto.
Qed.

(** X11. A call that completes at least one epoch has settings for
    every model, [len(nets) <= len(train_settings)]: for a model without
    settings [train_settings[net_idx]] raises in the first epoch, in
    training (line 104) or at the latest in validation (line 133). *)
Theorem every_model_needs_settings nets0 nets' ev log :
  TrainModels uniform clock train_loader val_loader train_settings
    out_prefix batch_use_prob print_log log_dir nets0 = (nets', ev, Ok log) ->
  log <> [] ->
  length nets0 <= length train_settings.
Proof.
  intros H Hlog.
  apply first_epoch_of_run in H
    as (net0 & st1 & w1 & ev1 & _ & H1); [|assumption].
  now apply run_epoch_needs_settings in H1.
Qed.

(** ** The clock *)

(** X9. An epoch that completes appends one entry to the log; its
    duration is the difference of the two clock readings of the epoch
    (lines 95 and 114), and this difference is not zero: with two equal
    readings the division of line 117 raises. *)
Theorem epoch_needs_clock_progress ni nl st epoch (w w' : World) ev st' :
  epoch_body ni nl st epoch w = (w', ev, Ok st') ->
  exists m,
    train_log st' = train_log st ++ [m] /\
    epoch_duration_sec m
    = (clock (S (time_calls w)) - clock (time_calls w))%float /\
    (epoch_duration_sec m =? 0)%float = false.
Proof.
  intros H. apply run_epoch_inv in H
    as (w_t & ev_t & losses & examples & eps & avg & w_v & ev_v & vacc & vavg
        & vavgl & ev_c & Ht & Heps & _ & _ & _ & _ & _ & Hlog & _).
  apply train_phase_alone in Ht as (_ & Ht1 & _).
  cbn [time_calls] in Ht1. rewrite Ht1 in *.
  eexists. split; [exact Hlog|]. cbn [epoch_duration_sec].
  split; [reflexivity|].
  unfold truediv_int_float in Heps.
  apply rbind_Ok in Heps as (fx & _ & Heps).
  destruct (_ =? 0)%float; [discriminate Heps | reflexivity].
Qed.

(** ** Models without inputs *)

Lemma model_step_without_inputs nl i b (s : ModelRun Params) :
  exists e, model_step train_settings 0 nl i b s = Raise e.
Proof.
  unfold model_step.
  destruct (DataBatchToVariables b 0 nl) as [[[iv lv] wv]|e] eqn:Hb;
    [|eexists; reflexivity].
  apply DataBatchToVariables_inputs in Hb. simpl in Hb. subst iv.
  cbn [rbind].
  destruct (net_forward _ _ _ _) as [out|e]; [|eexists; reflexivity]. cbn [rbind].
  destruct (index train_settings i) as [ts|e]; [|eexists; reflexivity]. cbn [rbind].
  destruct (loss ts out lv wv) as [lval|e]; [|eexists; reflexivity]. cbn [rbind].
  eexists. reflexivity.
Qed.

Lemma train_alone_without_steps ni nl n i loader :
  (forall b s, exists e, model_step train_settings ni nl i b s = Raise e) ->
  forall r s s',
    train_alone uniform train_settings batch_use_prob ni nl n i r loader s
      = Ok s' -> s' = s.
Proof.
  intros Hstep. induction loader as [|b loader IH]; intros r s s' H.
  - now injection H.
  - cbn [train_alone] in H. apply rbind_Ok in H as (s1 & H1 & H).
    apply IH in H. subst s'.
    destruct (_ <? _)%float; [|now injection H1].
    destruct (Hstep b s) as [e He].
    rewrite He in H1. discriminate H1.
Qed.

(** An epoch in which no model can take a batch does not complete: line
    119 divides by the total count 0. *)
Lemma run_epoch_needs_a_step ni nl st epoch (w w' : World) ev st' :
  (forall i b s, exists e, model_step train_settings ni nl i b s = Raise e) ->
  epoch_body ni nl st epoch w = (w', ev, Ok st') -> False.
Proof.
  intros Hstep H. apply run_epoch_inv in H
    as (w_t & ev_t & losses & examples & eps & avg & w_v & ev_v & vacc & vavg
        & vavgl & ev_c & Ht & _ & Hpool & _).
  apply pooled_average_nonzero in Hpool as [Hnz _]. apply Hnz.
  apply train_phase_alone in Ht as (_ & _ & _ & _ & Hlen & Hs).
  cbn [nets rand_calls] in *.
  apply sum_int_all_zero. intros i c Hc.
  assert (Hi : i < length (nets w))
    by (rewrite <- Hlen; apply nth_error_Some; congruence).
  apply nth_error_Some in Hi.
  destruct (nth_error (nets w) i) as [n|] eqn:En; [|contradiction].
  destruct (Hs i n En) as (s & Hal & _ & _ & He & _).
  apply train_alone_without_steps in Hal; [|apply Hstep]. subst s.
  cbn [run_examples] in He. congruence.
Qed.

(** X12. A call that completes at least one epoch has a first model
    with at least one input name: without one, [input_vars[0]] raises
    for the first batch that is processed (lines 111 and 136), and
    without such a batch line 119 divides by zero. *)
Theorem models_need_input_names nets0 nets' ev log :
  TrainModels uniform clock train_loader val_loader train_settings
    out_prefix batch_use_prob print_log log_dir nets0 = (nets', ev, Ok log) ->
  log <> [] ->
  exists net0, nth_error nets0 0 = Some net0 /\ input_names net0 <> [].
Proof.
  intros H Hlog.
  apply first_epoch_of_run in H
    as (net0 & st1 & w1 & ev1 & Hn0 & H1); [|assumption].
  exists net0. split; [assumption|]. intros Hnames.
  rewrite Hnames in H1. cbn [length] in H1.
  apply run_epoch_needs_a_step in H1; [assumption|].
  intros i b s. apply model_step_without_inputs.
Qed.

End Run.
End WithParams.

(** The theorem at the body of the run of two models for two epochs over
    two training batches. *)
Lemma draws_and_clock_readings_witness :
  exists w' ev m1 m2,
    TrainModels_body Example.half Example.ticks
      [Example.batch_a; Example.batch_b] [Example.batch_b]
      [Example.settings 2; Example.settings 7] "out" 1 true ""
      (mkWorld [Example.a_net; Example.a_net] 0 0)
    = (w', ev, Ok [m1; m2]) /\
    rand_calls w' = 8 /\ time_calls w' = 4.
Proof.
  assert (E : exists w' ev m1 m2,
    TrainModels_body Example.half Example.ticks
      [Example.batch_a; Example.batch_b] [Example.batch_b]
      [Example.settings 2; Example.settings 7] "out" 1 true ""
      (mkWorld [Example.a_net; Example.a_net] 0 0)
    = (w', ev, Ok [m1; m2]))
    by (vm_compute; do 4 eexists; reflexivity).
  destruct E as (w' & ev & m1 & m2 & E).
  exists w', ev, m1, m2. split; [exact E|].
  exact (draws_and_clock_readings _ _ _ _ _ _ _ _ _ _ _ _ _ _ E).
Defined.

(** The theorem at the run of two models for two epochs. *)
Lemma every_model_needs_settings_witness :
  exists nets' ev m log,
    Example.a_run = (nets', ev, Ok (m :: log)) /\
    length [Example.a_net; Example.a_net]
    <= length [Example.settings 2; Example.settings 7].
Proof.
  assert (E : exists nets' ev m log,
    Example.a_run = (nets', ev, Ok (m :: log)))
    by (vm_compute; do 4 eexists; reflexivity).
  destruct E as (nets' & ev & m & log & E).
  exists nets', ev, m, log. split; [exact E|].
  apply (every_model_needs_settings _ _ _ _ _ _ _ _ _ _ _ _ _ _ E).
  discriminate.
Defined.

(** The theorem at the first epoch of the run of two models, between
    the clock readings 0.0 and 1.0. *)
Lemma epoch_needs_clock_progress_witness :
  exists w' ev st' m,
    Scenario.an_epoch = (w', ev, Ok st') /\
    train_log st' = [] ++ [m] /\
    epoch_duration_sec m = (Example.ticks 1 - Example.ticks 0)%float /\
    (epoch_duration_sec m =? 0)%float = false.
Proof.
  assert (E : exists w' ev st', Scenario.an_epoch = (w', ev, Ok st'))
    by (vm_compute; do 3 eexists; reflexivity).
  destruct E as (w' & ev & st' & E).
  destruct (epoch_needs_clock_progress _ _ _ _ _ _ _ _ _ _ _ _ _ _ _ _ _ _ E)
    as (m & Hm).
  exists w', ev, st', m. split; [exact E | exact Hm].
Defined.

(** The theorem at the run of two models for two epochs. *)
Lemma models_need_input_names_witness :
  exists nets' ev m log,
    Example.a_run = (nets', ev, Ok (m :: log)) /\
    exists net0, nth_error [Example.a_net; Example.a_net] 0 = Some net0 /\
                 input_names net0 <> [].
Proof.
  assert (E : exists nets' ev m log,
    Example.a_run = (nets', ev, Ok (m :: log)))
    by (vm_compute; do 4 eexists; reflexivity).
  destruct E as (nets' & ev & m & log & E).
  exists nets', ev, m, log. split; [exact E|].
  apply (models_need_input_names _ _ _ _ _ _ _ _ _ _ _ _ _ _ E).
  discriminate.
Defined.

End EpochFacts.

(* ================================================================== *)
(** * The metrics sink *)
(* ================================================================== *)

Module SinkFacts.
Import Engine Observations Outcomes Hooks Sink Alone.
Import BaseFacts MonadFacts MetricsFacts.
Import PassFacts TrainFacts ValFacts CheckpointFacts RunFacts.
Import FinalFacts FrameFacts HookFacts AloneFacts EpochFacts.

Section WithParams.
Variable Params : Type.
Local Abbreviation M := (Engine.M Params).
Local Abbreviation World := (Engine.World Params).
Local Abbreviation Event := (Engine.Event Params).

Lemma logged_app name (a b : list Event) :
  logged name (a ++ b) = logged name a ++ logged name b.
Proof.
  induction a as [|e a IH]; [reflexivity|].
  destruct e; simpl; try assumption.
  destruct (_ =? _)%string; simpl; now rewrite IH.
Qed.

Lemma configured_app (a b : list Event) :
  configured (a ++ b) = configured a ++ configured b.
Proof.
  induction a as [|e a IH]; [reflexivity|].
  destruct e; simpl; try assumption. now rewrite IH.
Qed.

Lemma no_hook_no_sink (ev : list Event) :
  Forall (fun e => is_hook e = false) ev ->
  configured ev = [] /\ forall name, logged name ev = [].
Proof.
  induction 1 as [|e ev He _ [IH1 IH2]]; [auto|].
  destruct e; simpl in *; try discriminate He; auto.
Qed.

Section Run.
Variable uniform clock : nat -> float.
Variable train_loader val_loader : list (list Tensor).
Variable train_settings : list (TrainSettings Params).
Variable out_prefix : string.
Variable batch_use_prob : float.
Variable print_log : bool.
Variable log_dir : string.

Local Abbreviation epoch_body :=
  (run_epoch uniform clock train_loader val_loader train_settings
     out_prefix batch_use_prob print_log log_dir).

Lemma train_phase_no_hooks ni nl :
  always (fun _ : World => True) (fun e => is_hook e = false)
    (train_phase uniform train_loader train_settings batch_use_prob ni nl).
Proof.
  always_tac ltac:(first [ exact I | intros; exact I | reflexivity
                         | intros; reflexivity ]).
Qed.

Lemma val_phase_no_hooks ni nl :
  always (fun _ : World => True) (fun e => is_hook e = false)
    (val_phase val_loader train_settings ni nl).
Proof.
  always_tac ltac:(first [ exact I | intros; exact I | reflexivity
                         | intros; reflexivity ]).
Qed.

Lemma checkpoint_best_no_hooks avg mins :
  always (fun _ : World => True) (fun e => is_hook e = false)
    (checkpoint_best out_prefix avg mins).
Proof.
  always_tac ltac:(first [ exact I | intros; exact I | reflexivity
                         | intros; reflexivity ]).
Qed.

(** The values one epoch sends to the logger. *)
Lemma run_epoch_logged ni nl st epoch (w w' : World) ev st' :
  epoch_body ni nl st epoch w = (w', ev, Ok st') ->
  exists m,
    train_log st' = train_log st ++ [m] /\
    configured ev = [] /\
    logged "train_loss" ev
    = (if negb (log_dir =? "")%string then [(epoch, train_loss m)] else []) /\
    logged "val_loss" ev
    = (if negb (log_dir =? "")%string then [(epoch, val_loss m)] else []).
Proof.
  intros H. apply run_epoch_inv in H
    as (w_t & ev_t & losses & examples & eps & avg & w_v & ev_v & vacc & vavg
        & vavgl & ev_c & Ht & _ & _ & Hv & _ & _ & Hc & Hlog & marker & ->).
  apply (train_phase_no_hooks _ _ _ _ _ _ I) in Ht as [_ Ht].
  apply (val_phase_no_hooks _ _ _ _ _ _ I) in Hv as [_ Hv].
  apply (checkpoint_best_no_hooks _ _ _ _ _ _ I) in Hc as [_ Hc].
  apply no_hook_no_sink in Ht as [Ht1 Ht2], Hv as [Hv1 Hv2], Hc as [Hc1 Hc2].
  assert (Hz : Forall (fun e : Event => is_hook e = false)
                 (map EvZeroGrad (seq 0 (length train_settings)))).
  { apply Forall_forall. intros e He.
    apply in_map_iff in He as (i & <- & _). reflexivity. }
  apply no_hook_no_sink in Hz as [Hz1 Hz2].
  eexists. split; [exact Hlog|].
  rewrite !configured_app, !logged_app, Hz1, !Hz2, Ht1, !Ht2, Hv1, !Hv2,
    Hc1, !Hc2.
  cbn [train_loss val_loss].
  destruct print_log, (negb (log_dir =? "")%string); repeat split;
    reflexivity.
Qed.

Lemma run_epochs_logged ni nl : forall l st (w w' : World) ev st',
  foldM (epoch_body ni nl) l st w = (w', ev, Ok st') ->
  exists ms,
    train_log st' = train_log st ++ ms /\ length ms = length l /\
    configured ev = [] /\
    logged "train_loss" ev
    = (if negb (log_dir =? "")%string
       then combine l (map (fun m => train_loss m) ms) else []) /\
    logged "val_loss" ev
    = (if negb (log_dir =? "")%string
       then combine l (map (fun m => val_loss m) ms) else []).
Proof.
  induction l as [|e l IH]; intros st w w' ev st' H.
  - injection H as <- <- <-. exists []. rewrite app_nil_r.
    destruct (negb (log_dir =? "")%string); repeat split; reflexivity.
  - rewrite foldM_cons in H.
    apply bind_Ok in H as (w1 & ev1 & st1 & ev2 & H1 & H2 & ->).
    apply run_epoch_logged in H1 as (m & Hm & Hc1 & Ht1 & Hv1).
    apply IH in H2 as (ms & Hms & Hlen & Hc2 & Ht2 & Hv2).
    exists (m :: ms). rewrite Hms, Hm, <- app_assoc.
    rewrite configured_app, !logged_app, Hc1, Hc2, Ht1, Ht2, Hv1, Hv2.
    destruct (negb (log_dir =? "")%string); simpl; repeat split; congruence.
Qed.

Lemma last_checkpoints_no_hooks (ns : list (Net Params)) :
  Forall (fun e : Event => is_hook e = false)
         (last_checkpoints out_prefix ns).
Proof.
  unfold last_checkpoints. generalize (seq 0 (length ns)).
  induction ns as [|n ns IH]; intros [|i l]; simpl; try constructor.
  - reflexivity.
  - repeat (constructor; [reflexivity|]). apply IH.
Qed.

(** X15. What a call that returns [log] sends to tensorboard: with a
    non-empty [log_dir] the logger is configured once, with [log_dir],
    as the first thing the call does, and the series "train_loss" and
    "val_loss" hold at the steps 0, 1, ... the values of the entries of
    [log] in order; with an empty [log_dir] nothing is configured and
    nothing is logged. *)
Theorem tensorboard_series nets0 nets' ev log :
  TrainModels uniform clock train_loader val_loader train_settings
    out_prefix batch_use_prob print_log log_dir nets0 = (nets', ev, Ok log) ->
  configured ev = (if negb (log_dir =? "")%string then [log_dir] else []) /\
  logged "train_loss" ev
  = (if negb (log_dir =? "")%string
     then combine (seq 0 (length log)) (map (fun m => train_loss m) log)
     else []) /\
  logged "val_loss" ev
  = (if negb (log_dir =? "")%string
     then combine (seq 0 (length log)) (map (fun m => val_loss m) log)
     else []) /\
  (log_dir <> ""%string -> exists rest, ev = EvConfigure log_dir :: rest).
Proof.
  rewrite TrainModels_cases.
  destruct (index nets0 0) as [net0|e]; [|discriminate].
  destruct (index train_settings 0) as [ts0|e]; [|discriminate].
  destruct (run_epochs _ _ _ _ _ _ _ _ _ _ _ _ _ _)
    as [[w1 ev_run] [st|e]] eqn:E; [|discriminate].
  intros H. injection H as <- <- <-.
  unfold run_epochs in E.
  apply run_epochs_logged in E as (ms & Hms & Hlen & Hc & Ht & Hv).
  simpl in Hms. subst ms. rewrite length_seq in Hlen.
  destruct (no_hook_no_sink _ (last_checkpoints_no_hooks (nets w1)))
    as [Hl1 Hl2].
  rewrite !configured_app, !logged_app, Hc, Ht, Hv, Hl1, !Hl2, !app_nil_r.
  rewrite Hlen. unfold configure_events.
  destruct (String.eqb_spec log_dir "") as [->|Hne]; simpl;
    repeat split; try reflexivity; try congruence.
  intros _. eexists. reflexivity.
Qed.

End Run.
End WithParams.

(** The theorem at the run of two models for two epochs with the logger
    on. *)
Lemma tensorboard_series_witness :
  exists nets' ev m1 m2,
    Scenario.a_logged_run = (nets', ev, Ok [m1; m2]) /\
    configured ev = ["tb"%string] /\
    logged "train_loss" ev = [(0, train_loss m1); (1, train_loss m2)] /\
    logged "val_loss" ev = [(0, val_loss m1); (1, val_loss m2)].
Proof.
  assert (E : exists nets' ev m1 m2,
    Scenario.a_logged_run = (nets', ev, Ok [m1; m2]))
    by (vm_compute; do 4 eexists; reflexivity).
  destruct E as (nets' & ev & m1 & m2 & E).
  exists nets', ev, m1, m2. split; [exact E|].
  destruct (tensorboard_series _ _ _ _ _ _ _ _ _ _ _ _ _ _ E)
    as (Hc & Ht & Hv & _).
  auto.
Defined.

End SinkFacts.

(* ================================================================== *)
(** * The single-label adapter *)
(* ================================================================== *)

Module AdapterFacts.
Import Engine Observations Outcomes Alone Loss.
Import BaseFacts MonadFacts MetricsFacts.
Import PassFacts TrainFacts ValFacts CheckpointFacts RunFacts.
Import FinalFacts FrameFacts AloneFacts EpochFacts.

Lemma SingleLabelLoss_cases {T W R : Type}
  (base_loss : T -> T -> W -> result R)
  (predicted labels : list T) (weights : W) :
  (forall p l, predicted = [p] -> labels = [l] ->
     SingleLabelLoss base_loss predicted labels weights
     = base_loss p l weights) /\
  (length predicted <> 1 \/ length labels <> 1 ->
     SingleLabelLoss base_loss predicted labels weights
     = Raise AssertionError).
Proof.
  unfold SingleLabelLoss. split.
  - intros p l -> ->. reflexivity.
  - intros [H | H].
    + now rewrite (proj2 (Nat.eqb_neq _ _) H).
    + rewrite (proj2 (Nat.eqb_neq (length labels) 1) H).
      now destruct (negb _).
Qed.

Section Run.
Variable Params : Type.
Local Abbreviation World := (Engine.World Params).

Variable uniform clock : nat -> float.
Variable train_loader val_loader : list (list Tensor).
Variable train_settings : list (TrainSettings Params).
Variable out_prefix : string.
Variable batch_use_prob : float.
Variable print_log : bool.
Variable log_dir : string.

Lemma DataBatchToVariables_labels batch ni nl iv lv wv :
  DataBatchToVariables batch ni nl = Ok (iv, lv, wv) -> length lv = nl.
Proof.
  unfold DataBatchToVariables.
  destruct (Nat.eqb_spec (length batch) (ni + nl + 1)) as [E|E];
    [|discriminate].
  simpl negb. cbv iota. intros H.
  apply rbind_Ok in H as (w & _ & H). injection H as _ <- _.
  rewrite length_map, length_firstn, length_skipn. lia.
Qed.

Lemma model_step_single_label ni nl i b (s : ModelRun Params) :
  (forall ts, In ts train_settings ->
     exists base_loss, loss ts = SingleLabelLoss base_loss) ->
  nl <> 1 ->
  exists e, model_step train_settings ni nl i b s = Raise e.
Proof.
  intros Hsingle Hnl. unfold model_step.
  destruct (DataBatchToVariables b ni nl) as [[[iv lv] wv]|e] eqn:Hb;
    [|eexists; reflexivity].
  apply DataBatchToVariables_labels in Hb. cbn [rbind].
  destruct (net_forward _ _ _ _) as [out|e]; [|eexists; reflexivity].
  cbn [rbind].
  destruct (index train_settings i) as [ts|e] eqn:Hts;
    [|eexists; reflexivity].
  cbn [rbind]. apply index_Ok in Hts. apply nth_error_In in Hts.
  destruct (Hsingle ts Hts) as [base_loss ->].
  rewrite (proj2 (SingleLabelLoss_cases base_loss out lv wv));
    [eexists; reflexivity|].
  right. congruence.
Qed.

(** X1. With every loss a [SingleLabelLoss], a call that completes at
    least one epoch has a first model with exactly one label name:
    with any other number the assertion of line 28 fails on the first
    batch that is processed. *)
Theorem single_label_loss_needs_one_label nets0 nets' ev log :
  (forall ts, In ts train_settings ->
     exists base_loss, loss ts = SingleLabelLoss base_loss) ->
  TrainModels uniform clock train_loader val_loader train_settings
    out_prefix batch_use_prob print_log log_dir nets0 = (nets', ev, Ok log) ->
  log <> [] ->
  exists net0, nth_error nets0 0 = Some net0 /\
               length (label_names net0) = 1.
Proof.
  intros Hsingle H Hlog.
  apply first_epoch_of_run in H
    as (net0 & st1 & w1 & ev1 & Hn0 & H1); [|assumption].
  exists net0. split; [assumption|].
  destruct (Nat.eq_dec (length (label_names net0)) 1) as [E|Hnl];
    [exact E|exfalso].
  apply run_epoch_needs_a_step in H1; [assumption|].
  intros i b s. now apply model_step_single_label.
Qed.

End Run.

(** The theorem at the run of two models for two epochs, whose settings
    both wrap the weighted MSE loss. *)
Lemma single_label_loss_needs_one_label_witness :
  exists nets' ev m log,
    Example.a_run = (nets', ev, Ok (m :: log)) /\
    exists net0, nth_error [Example.a_net; Example.a_net] 0 = Some net0 /\
                 length (label_names net0) = 1.
Proof.
  assert (E : exists nets' ev m log,
    Example.a_run = (nets', ev, Ok (m :: log)))
    by (vm_compute; do 4 eexists; reflexivity).
  destruct E as (nets' & ev & m & log & E).
  exists nets', ev, m, log. split; [exact E|].
  apply (fun H => single_label_loss_needs_one_label _ _ _ _ _ _ _ _ _ _ _
                    _ _ _ H E).
  - intros ts [<- | [<- | []]]; eexists; reflexivity.
  - discriminate.
Defined.

End AdapterFacts.

(* ================================================================== *)
(** * The weighted MSE loss on tensors of different sizes *)
(* ================================================================== *)

Module BroadcastFacts.
Import Loss SpecWords LossFacts.

Lemma concat_repeat_singleton {A} (x : A) n :
  concat (repeat [x] n) = repeat x n.
Proof. induction n as [|n IH]; simpl; [reflexivity | now rewrite IH]. Qed.

Lemma expand_data_one n x : expand_data [1] [n] [x] = Some (repeat x n).
Proof.
  cbn [expand_data]. destruct (Nat.eqb_spec 1 n) as [<-|Hn].
  - reflexivity.
  - cbn. now rewrite concat_repeat_singleton.
Qed.

Lemma chunks_singletons (d : list float) :
  chunks (length d) 1 d = map (fun x => [x]) d.
Proof. induction d as [|x d IH]; simpl; [reflexivity | now rewrite IH]. Qed.

Lemma sequence_opt_map_total {A B} (g : A -> B) (l : list A) :
  sequence_opt (map (fun c => Some (g c)) l) = Some (map g l).
Proof. induction l as [|c l IH]; simpl; [reflexivity | now rewrite IH]. Qed.

Lemma expand_data_column d :
  expand_data [length d; 1] [length d; length d] d
  = Some (flat_map (fun x => repeat x (length d)) d).
Proof.
  change (expand_data [length d; 1] [length d; length d] d)
    with (if (length d =? length d)%nat
          then option_map (@concat float)
                 (sequence_opt
                    (map (expand_data [1] [length d])
                         (chunks (length d) (numel [1]) d)))
          else if (length d =? 1)%nat
               then option_map (fun r => concat (repeat r (length d)))
                      (expand_data [1] [length d] d)
               else None).
  rewrite Nat.eqb_refl. replace (numel [1]) with 1 by reflexivity.
  rewrite chunks_singletons, map_map.
  rewrite (map_ext _ (fun x => Some (repeat x (length d))))
    by (intros x; apply expand_data_one).
  rewrite sequence_opt_map_total. cbn [option_map].
  now rewrite flat_map_concat_map.
Qed.

(** A column of [n] elements expanded to [n] columns: every element [n]
    times. *)
Lemma expand_column n d :
  length d = n ->
  expand (mkTensor [n; 1] d) [n; n]
  = Ok (mkTensor [n; n] (flat_map (fun x => repeat x n) d)).
Proof.
  intros <-. unfold expand. cbn [shape data length Nat.ltb Nat.leb Nat.sub
                                  skipn firstn numel fold_right].
  rewrite expand_data_column. cbn [repeat concat].
  now rewrite app_nil_r.
Qed.

(** A row of [n] elements expanded to [n] rows: the row [n] times. *)
Lemma expand_row n d :
  length d = n ->
  expand (mkTensor [n] d) [n; n]
  = Ok (mkTensor [n; n] (concat (repeat d n))).
Proof.
  intros Hd. unfold expand. cbn [shape data length Nat.ltb Nat.leb Nat.sub
                                  skipn firstn numel fold_right].
  rewrite expand_data_same by (simpl; lia).
  now rewrite Nat.mul_1_r.
Qed.

Lemma broadcast_column_row n : broadcast_shapes [n; 1] [n] = Ok [n; n].
Proof.
  unfold broadcast_shapes. cbn [rev app broadcast_rev].
  destruct (Nat.eqb_spec 1 n) as [<-|Hn]; reflexivity.
Qed.

Lemma broadcast_square_row n : broadcast_shapes [n; n] [n] = Ok [n; n].
Proof.
  unfold broadcast_shapes. cbn [rev app broadcast_rev].
  now rewrite Nat.eqb_refl.
Qed.

Lemma zip_with_app f a1 : forall b1 a2 b2,
  length a1 = length b1 ->
  zip_with f (a1 ++ a2) (b1 ++ b2) = zip_with f a1 b1 ++ zip_with f a2 b2.
Proof.
  induction a1 as [|x a1 IH]; intros [|y b1] a2 b2 H; try discriminate H.
  - reflexivity.
  - simpl. f_equal. apply IH. now injection H.
Qed.

(** Every prediction against the whole row of labels. *)
Lemma all_pairs_fusion n ls ws :
  length ls = n -> length ws = n ->
  forall ps,
    zip_with PrimFloat.mul
      (map (fun x => (x * x)%float)
         (zip_with PrimFloat.add
            (flat_map (fun p => repeat p n) ps)
            (concat (repeat (map PrimFloat.opp ls) (length ps)))))
      (concat (repeat ws (length ps)))
    = flat_map (fun p => weighted_squares (repeat p n) ls ws) ps.
Proof.
  intros Hl Hw. induction ps as [|p ps IH]; [reflexivity|].
  cbn [flat_map length repeat concat].
  rewrite zip_with_app by (now rewrite repeat_length, length_map).
  rewrite map_app, zip_with_app.
  - now rewrite weighted_squares_fusion, IH.
  - rewrite length_map, zip_with_length;
      rewrite repeat_length; [congruence | now rewrite length_map].
Qed.

Lemma expand_to_own_sizes sizes d :
  length d = numel sizes ->
  expand (mkTensor sizes d) sizes = Ok (mkTensor sizes d).
Proof. intros H. exact (expand_same (mkTensor sizes d) H). Qed.

(** An elementwise operation on a column and a row of [n] elements. *)
Lemma binary_column_row f n a b :
  length a = n -> length b = n ->
  binary f (mkTensor [n; 1] a) (mkTensor [n] b)
  = Ok (mkTensor [n; n]
          (zip_with f (flat_map (fun x => repeat x n) a)
                      (concat (repeat b n)))).
Proof.
  intros Ha Hb. unfold binary. cbn [shape].
  rewrite broadcast_column_row. cbn [rbind].
  rewrite (expand_column n a Ha). cbn [rbind].
  rewrite (expand_row n b Hb). reflexivity.
Qed.

(** An elementwise operation on [n] rows and one row of [n] elements. *)
Lemma binary_square_row f n a b :
  length a = n * n -> length b = n ->
  binary f (mkTensor [n; n] a) (mkTensor [n] b)
  = Ok (mkTensor [n; n] (zip_with f a (concat (repeat b n)))).
Proof.
  intros Ha Hb. unfold binary. cbn [shape].
  rewrite broadcast_square_row. cbn [rbind].
  rewrite expand_to_own_sizes by (simpl; lia). cbn [rbind].
  rewrite (expand_row n b Hb). reflexivity.
Qed.

(** X2. [WeightedMSELoss] on predictions of sizes [n; 1] (a column)
    against labels and weights of size [n] does not raise: broadcasting
    pairs every prediction with every label, and the result is the mean
    of the [n * n] weighted squares [(p_i - l_j)^2 * w_j], not of the
    [n] squares of the matching pairs. *)
Theorem WeightedMSELoss_column_against_row n ps ls ws :
  length ps = n -> length ls = n -> length ws = n ->
  WeightedMSELoss (mkTensor [n; 1] ps) (mkTensor [n] ls) (mkTensor [n] ws)
  = Ok (mkTensor [1]
          [mean_list
             (flat_map (fun p => weighted_squares (repeat p n) ls ws) ps)]) /\
  length (flat_map (fun p => weighted_squares (repeat p n) ls ws) ps)
  = n * n.
Proof.
  intros Hp Hl Hw.
  assert (Hsq : length (flat_map (fun p => repeat p n) ps) = n * n).
  { rewrite flat_map_concat_map.
    rewrite (concat_length_uniform n), length_map; [now rewrite Hp|].
    apply Forall_forall. intros c Hc. apply in_map_iff in Hc as (p & <- & _).
    apply repeat_length. }
  assert (Hrow : forall d : list float, length d = n ->
                   length (concat (repeat d n)) = n * n)
    by (intros d Hd; now rewrite concat_repeat_length, Hd).
  assert (Hdiff : length (zip_with PrimFloat.add
                            (flat_map (fun p => repeat p n) ps)
                            (concat (repeat (map PrimFloat.opp ls) n)))
                  = n * n).
  { rewrite zip_with_length; [exact Hsq|].
    rewrite Hsq, Hrow; [reflexivity | now rewrite length_map]. }
  pose proof (all_pairs_fusion n ls ws Hl Hw ps) as Hf. rewrite Hp in Hf.
  split.
  - unfold WeightedMSELoss, add, mul, neg, pow2, unary, expand_as.
    cbn [shape data].
    rewrite (binary_column_row _ n) by (now rewrite ?length_map).
    cbn [rbind shape data].
    rewrite expand_to_own_sizes by (simpl; lia). cbn [rbind].
    rewrite (binary_square_row _ n) by (now rewrite ?length_map).
    cbn [rbind]. unfold mean. cbn [data].
    now rewrite Hf.
  - rewrite <- Hf.
    rewrite zip_with_length; rewrite length_map, Hdiff;
      [reflexivity | now rewrite Hrow].
Qed.

(** The theorem at predictions [[1], [2]] against the labels [0, 2] with
    the weights [2, 1]: the pairs give 2, 1, 8 and 0, and the loss is
    11/4, where the same values as tensors of equal sizes give 1.0. *)
Lemma WeightedMSELoss_column_against_row_witness :
  WeightedMSELoss (mkTensor [2; 1] [1; 2]%float) (mkTensor [2] [0; 2]%float)
                  (mkTensor [2] [2; 1]%float)
  = Ok (mkTensor [1] [2.75%float]) /\
  length (flat_map (fun p => weighted_squares (repeat p 2) [0; 2]%float
                                              [2; 1]%float) [1; 2]%float)
  = 2 * 2.
Proof.
  exact (WeightedMSELoss_column_against_row 2 [1; 2]%float [0; 2]%float
           [2; 1]%float eq_refl eq_refl eq_refl).
Defined.

End BroadcastFacts.

(* ================================================================== *)
(** * The conversion of example counts to floats *)
(* ================================================================== *)

Module CountFacts.
Import MetricsFacts.

(** ** Integers of at most 53 bits are floats *)

Lemma digits2_pos_iter_xO p k :
  digits2_pos (Pos.iter xO p k) = (digits2_pos p + k)%positive.
Proof.
  induction k as [|k IH] using Pos.peano_ind.
  - simpl. now rewrite Pos.add_1_r.
  - rewrite Pos.iter_succ. simpl. rewrite IH. now rewrite Pos.add_succ_r.
Qed.

Lemma digits2_pos_lower p :
  (2 ^ (Zpos (digits2_pos p) - 1) <= Zpos p)%Z.
Proof.
  induction p as [p IH|p IH|]; simpl digits2_pos.
  - rewrite Pos2Z.inj_succ.
    replace (Z.succ (Zpos (digits2_pos p)) - 1)%Z
      with (Z.succ (Zpos (digits2_pos p) - 1))%Z by lia.
    rewrite Z.pow_succ_r by lia. lia.
  - rewrite Pos2Z.inj_succ.
    replace (Z.succ (Zpos (digits2_pos p)) - 1)%Z
      with (Z.succ (Zpos (digits2_pos p) - 1))%Z by lia.
    rewrite Z.pow_succ_r by lia. lia.
  - simpl. lia.
Qed.

Lemma digits2_pos_small p :
  (Zpos p < 2 ^ 53)%Z -> (Zpos (digits2_pos p) <= 53)%Z.
Proof.
  intros H. destruct (Z.le_gt_cases (Zpos (digits2_pos p)) 53) as [|Hgt];
    [assumption|exfalso].
  pose proof (digits2_pos_lower p) as Hl.
  assert (2 ^ 53 <= 2 ^ (Zpos (digits2_pos p) - 1))%Z
    by (apply Z.pow_le_mono_r; lia).
  lia.
Qed.

(** A mantissa that is already in the format is left as it is. *)
Lemma binary_round_aux_canonical s m e :
  canonical_mantissa prec emax m e = true ->
  (e <= emax - prec)%Z ->
  binary_round_aux prec emax s (Zpos m) e loc_Exact = S754_finite s m e.
Proof.
  intros Hc He. unfold canonical_mantissa in Hc. apply Z.eqb_eq in Hc.
  unfold binary_round_aux, shr_fexp. cbn [Zdigits2 shr_record_of_loc].
  rewrite Hc, Z.sub_diag. cbn [shr shr_m loc_of_shr_record
                               round_nearest_even Zdigits2 shr_record_of_loc].
  rewrite Hc, Z.sub_diag. cbn [shr shr_m].
  now rewrite (proj2 (Z.leb_le _ _) He).
Qed.

Lemma binary_normalize_small p :
  (Zpos p < 2 ^ 53)%Z ->
  exists m e,
    binary_normalize prec emax (Zpos p) 0 false = S754_finite false m e /\
    valid_binary (S754_finite false m e) = true.
Proof.
  intros Hp. apply digits2_pos_small in Hp.
  unfold binary_normalize, binary_round, shl_align.
  assert (Hf : fexp prec emax (Zpos (digits2_pos p) + 0)
               = (Zpos (digits2_pos p) - 53)%Z)
    by (unfold fexp, SpecFloat.emin, prec, emax; lia).
  rewrite Hf. rewrite Z.sub_0_r.
  destruct (Zpos (digits2_pos p) - 53)%Z as [|q|k] eqn:E; [| lia |].
  - assert (Hc : canonical_mantissa prec emax p 0 = true).
    { unfold canonical_mantissa. apply Z.eqb_eq. exact Hf. }
    exists p, 0%Z. split.
    + apply binary_round_aux_canonical; [exact Hc | unfold emax, prec; lia].
    + unfold valid_binary, bounded. rewrite Hc. reflexivity.
  - assert (Hc : canonical_mantissa prec emax (Pos.iter xO p k) (Zneg k)
                 = true).
    { unfold canonical_mantissa. apply Z.eqb_eq.
      rewrite digits2_pos_iter_xO.
      unfold fexp, SpecFloat.emin, prec, emax. lia. }
    exists (Pos.iter xO p k), (Zneg k). split.
    + apply binary_round_aux_canonical; [exact Hc | unfold emax, prec; lia].
    + unfold valid_binary, bounded. rewrite Hc. reflexivity.
Qed.

(** [float(y)] for a count [0 < y < 2^53]: a float that is not zero. *)
Lemma float_of_int_small y :
  (0 < y < 2 ^ 53)%Z ->
  exists f, float_of_int y = Ok f /\ (f =? 0)%float = false.
Proof.
  intros [H0 H1]. destruct y as [|p|p]; try lia.
  destruct (binary_normalize_small p H1) as (m & e & Hn & Hv).
  unfold float_of_int. rewrite Hn.
  pose proof (Prim2SF_SF2Prim _ Hv) as Hs.
  assert (Hi : is_infinity (SF2Prim (S754_finite false m e)) = false).
  { unfold is_infinity. rewrite eqb_spec, abs_spec, Hs. reflexivity. }
  rewrite Hi. eexists. split; [reflexivity|].
  rewrite eqb_spec, Hs. reflexivity.
Qed.

Lemma average_loss_small x y :
  (y < 2 ^ 53)%Z -> exists q, average_loss x y = Ok q.
Proof.
  intros Hy. unfold average_loss.
  destruct (Z.gtb_spec y 0) as [Hpos|_]; [|eauto].
  destruct (float_of_int_small y) as (f & Hf & Hz); [lia|].
  unfold truediv_float_int. rewrite Hf. cbn [rbind]. rewrite Hz. eauto.
Qed.

(** X4. [AverageLosses] does not raise for example counts below 2^53,
    zero and negative counts included: it returns one average for every
    pair of [zip(total_losses, total_examples)]. *)
Theorem AverageLosses_returns_for_counts_below_2_53 xs ys :
  Forall (fun y => (y < 2 ^ 53)%Z) ys ->
  exists qs, AverageLosses xs ys = Ok qs /\
             length qs = Nat.min (length xs) (length ys).
Proof.
  intros H. revert xs. induction H as [|y ys Hy _ IH]; intros [|x xs];
    try (exists []; split; reflexivity).
  destruct (average_loss_small x y Hy) as [q Hq].
  destruct (IH xs) as (qs & Hqs & Hlen).
  exists (q :: qs). rewrite AverageLosses_cons, Hq. cbn [rbind].
  rewrite Hqs. cbn [rbind]. split; [reflexivity|]. simpl. now rewrite Hlen.
Qed.

(** The theorem at the counts 5, 0 and -1. *)
Lemma AverageLosses_returns_for_counts_below_2_53_witness :
  exists qs,
    AverageLosses [10; 3; 3]%float [5; 0; -1]%Z = Ok qs /\
    length qs = Nat.min (length [10; 3; 3]%float) (length [5; 0; -1]%Z).
Proof.
  apply (AverageLosses_returns_for_counts_below_2_53).
  repeat constructor.
Defined.

End CountFacts.

(* ================================================================== *)
(** * The sign of the weighted MSE loss *)
(* ================================================================== *)

Module SignFacts.
Import Loss Signs.

(** ** Signs of the binary64 operations *)

Lemma ltb_zero x :
  (x <? 0)%float = negb (not_below_zero (Prim2SF x)).
Proof.
  rewrite ltb_spec. change (Prim2SF 0) with (S754_zero false).
  destruct (Prim2SF x) as [s|s| |s m e]; try destruct s; reflexivity.
Qed.

Lemma has_sign_not_below_zero x :
  has_sign false x = true -> not_below_zero x = true.
Proof. destruct x as [s|s| |s m e]; try destruct s; auto. Qed.

Lemma binary_round_aux_sign s m e l :
  has_sign s (binary_round_aux prec emax s m e l) = true.
Proof.
  unfold binary_round_aux.
  destruct (shr_fexp prec emax m e l) as [mrs' e'].
  destruct (shr_fexp prec emax _ e' loc_Exact) as [mrs'' e''].
  destruct (shr_m mrs''); [| destruct (Z.leb _ _) |];
    cbn [has_sign]; auto using eqb_reflx.
Qed.

Lemma binary_round_sign s m e :
  has_sign s (binary_round prec emax s m e) = true.
Proof.
  unfold binary_round. destruct (shl_align _ _ _) as [mz ez].
  apply binary_round_aux_sign.
Qed.

Lemma binary_normalize_sign m e :
  (0 <= m)%Z -> has_sign false (binary_normalize prec emax m e false) = true.
Proof.
  intros H. destruct m as [|p|p]; [reflexivity | | lia].
  apply binary_round_sign.
Qed.

Lemma SFldexp_sign s x e :
  has_sign s x = true -> has_sign s (SFldexp prec emax x e) = true.
Proof.
  destruct x as [s'|s'| |s' m' e']; cbn [SFldexp]; auto.
  cbn [has_sign]. intros H. apply eqb_prop in H. subst s'.
  apply binary_round_sign.
Qed.

(** A square has a clear sign bit. *)
Lemma SFmul_square x : has_sign false (SFmul prec emax x x) = true.
Proof.
  destruct x as [s|s| |s m e]; cbn [SFmul has_sign];
    rewrite ?xorb_nilpotent; try reflexivity.
  apply binary_round_aux_sign.
Qed.

Lemma SFmul_not_below_zero x y :
  has_sign false x = true -> not_below_zero y = true ->
  not_below_zero (SFmul prec emax x y) = true.
Proof.
  destruct x as [s|s| |s m e]; destruct y as [s'|s'| |s' m' e'];
    cbn [SFmul has_sign not_below_zero]; intros Hx Hy; try reflexivity;
    try (apply eqb_prop in Hx; subst s);
    try (apply negb_true_iff in Hy; subst s');
    try reflexivity.
  apply has_sign_not_below_zero, binary_round_aux_sign.
Qed.

Lemma SFadd_not_below_zero x y :
  not_below_zero x = true -> not_below_zero y = true ->
  not_below_zero (SFadd prec emax x y) = true.
Proof.
  destruct x as [s|s| |s m e]; destruct y as [s'|s'| |s' m' e'];
    cbn [SFadd not_below_zero]; intros Hx Hy; try reflexivity;
    try assumption;
    try (apply negb_true_iff in Hx; subst s);
    try (apply negb_true_iff in Hy; subst s');
    try reflexivity;
    try (destruct s; reflexivity);
    try (destruct s, s'; reflexivity).
  apply has_sign_not_below_zero. cbn [cond_Zopp].
  apply binary_normalize_sign. lia.
Qed.

Lemma SFdiv_not_below_zero x y :
  not_below_zero x = true -> has_sign false y = true ->
  not_below_zero (SFdiv prec emax x y) = true.
Proof.
  destruct x as [s|s| |s m e]; destruct y as [s'|s'| |s' m' e'];
    cbn [SFdiv has_sign not_below_zero]; intros Hx Hy; try reflexivity;
    try (apply negb_true_iff in Hx; subst s);
    try (apply eqb_prop in Hy; subst s');
    try reflexivity.
  destruct (SFdiv_core_binary _ _ _ _ _ _) as [[mz ez] lz].
  apply has_sign_not_below_zero, binary_round_aux_sign.
Qed.

(** The float of a size has a clear sign bit (for every size, also one
    too large for the format). *)
Lemma float_of_size_sign n :
  has_sign false (Prim2SF (float_of_size n)) = true.
Proof.
  unfold float_of_size.
  pose proof (binary_normalize_sign (Z.of_nat n) 0 (Nat2Z.is_nonneg n)) as H.
  destruct (binary_normalize prec emax (Z.of_nat n) 0 false)
    as [s|s| |s m e]; cbn [has_sign] in H;
    try (apply eqb_prop in H; subst s); try reflexivity.
  cbn [SF2Prim]. cbv zeta. rewrite Z_ldexp_spec.
  apply SFldexp_sign. rewrite of_uint63_spec.
  apply binary_normalize_sign.
  apply Stdlib.Numbers.Cyclic.Int63.Uint63.to_Z_bounded.
Qed.

(** ** Elementwise on lists and tensors *)

Local Abbreviation nb := (fun x : float => not_below_zero (Prim2SF x) = true).
Local Abbreviation clear :=
  (fun x : float => has_sign false (Prim2SF x) = true).

Lemma nonneg_nb x : (x <? 0)%float = false <-> nb x.
Proof. rewrite ltb_zero. apply negb_false_iff. Qed.

Lemma square_clear x : clear (x * x)%float.
Proof. cbv beta. rewrite mul_spec. apply SFmul_square. Qed.

Lemma mul_nb x y : clear x -> nb y -> nb (x * y)%float.
Proof. cbv beta. rewrite mul_spec. apply SFmul_not_below_zero. Qed.

Lemma add_nb x y : nb x -> nb y -> nb (x + y)%float.
Proof. cbv beta. rewrite add_spec. apply SFadd_not_below_zero. Qed.

Lemma fold_add_nb l : forall a,
  nb a -> Forall nb l -> nb (fold_left PrimFloat.add l a).
Proof.
  induction l as [|x l IH]; intros a Ha Hl; [exact Ha|].
  inversion Hl; subst. simpl. apply IH; [|assumption]. now apply add_nb.
Qed.

Lemma mean_list_nb l : Forall nb l -> nb (mean_list l).
Proof.
  intros H. unfold mean_list. cbv beta. rewrite div_spec.
  apply SFdiv_not_below_zero.
  - apply (fold_add_nb l 0%float); [reflexivity | exact H].
  - apply float_of_size_sign.
Qed.

Section Elements.
Variable P : float -> Prop.

Lemma Forall_firstn_P k (d : list float) :
  Forall P d -> Forall P (firstn k d).
Proof.
  intros H. rewrite <- (firstn_skipn k d) in H.
  now apply Forall_app in H.
Qed.

Lemma Forall_skipn_P k (d : list float) :
  Forall P d -> Forall P (skipn k d).
Proof.
  intros H. rewrite <- (firstn_skipn k d) in H.
  now apply Forall_app in H.
Qed.

Lemma Forall_concat_repeat (r : list float) n :
  Forall P r -> Forall P (concat (repeat r n)).
Proof.
  intros H. induction n as [|n IH]; simpl; [constructor|].
  apply Forall_app. auto.
Qed.

Lemma sequence_opt_chunks (f : list float -> option (list float)) :
  (forall c r, Forall P c -> f c = Some r -> Forall P r) ->
  forall n k d rs,
    Forall P d ->
    sequence_opt (map f (chunks n k d)) = Some rs ->
    Forall P (concat rs).
Proof.
  intros Hf. induction n as [|n IH]; intros k d rs Hd H.
  - simpl in H. injection H as <-. constructor.
  - cbn [chunks map sequence_opt] in H.
    destruct (f (firstn k d)) as [r|] eqn:Er; [|discriminate].
    destruct (sequence_opt (map f (chunks n k (skipn k d)))) as [rs'|] eqn:Es;
      [|discriminate].
    injection H as <-. cbn [concat]. apply Forall_app. split.
    + eapply Hf; [|exact Er]. now apply Forall_firstn_P.
    + eapply IH; [|exact Es]. now apply Forall_skipn_P.
Qed.

(** The elements of an expansion are elements of the tensor expanded. *)
Lemma expand_data_Forall src : forall tgt d r,
  Forall P d -> expand_data src tgt d = Some r -> Forall P r.
Proof.
  induction src as [|s ss IH]; intros [|t ts] d r Hd H;
    cbn [expand_data] in H; try discriminate.
  - now injection H as <-.
  - destruct (s =? t)%nat.
    + destruct (sequence_opt _) as [rs|] eqn:Es; [|discriminate].
      injection H as <-.
      eapply sequence_opt_chunks; [|exact Hd|exact Es].
      intros c r Hc Hr. eapply IH; eauto.
    + destruct (s =? 1)%nat; [|discriminate].
      destruct (expand_data ss ts d) as [r'|] eqn:Er; [|discriminate].
      injection H as <-. apply Forall_concat_repeat. eapply IH; eauto.
Qed.

Lemma expand_Forall t tgt t' :
  Forall P (data t) -> expand t tgt = Ok t' -> Forall P (data t').
Proof.
  unfold expand. intros Hd H.
  destruct (_ <? _)%nat; [discriminate|].
  destruct (expand_data _ _ _) as [r|] eqn:Er; [|discriminate].
  injection H as <-. cbn [data]. apply Forall_concat_repeat.
  eapply expand_data_Forall; eauto.
Qed.

End Elements.

Lemma zip_with_Forall (P Q R : float -> Prop) f :
  (forall x y, P x -> Q y -> R (f x y)) ->
  forall a b, Forall P a -> Forall Q b -> Forall R (zip_with f a b).
Proof.
  intros Hf a. induction a as [|x a IH]; intros [|y b] Ha Hb;
    simpl; try constructor;
    inversion Ha; inversion Hb; subst; auto.
Qed.

Lemma WeightedMSELoss_mean predicted labels weights v :
  WeightedMSELoss predicted labels weights = Ok v ->
  exists d, v = mkTensor [1] [mean_list d] /\
            (Forall nb (data weights) -> Forall nb d).
Proof.
  unfold WeightedMSELoss. intros H.
  destruct (add predicted (neg labels)) as [s|e] eqn:Es; [|discriminate].
  cbn [rbind] in H.
  destruct (expand_as weights labels) as [w|e] eqn:Ew; [|discriminate].
  cbn [rbind] in H.
  destruct (mul (pow2 s) w) as [p|e] eqn:Ep; [|discriminate].
  cbn [rbind] in H. injection H as <-.
  exists (data p). split; [reflexivity|]. intros Hw.
  unfold mul, binary in Ep.
  destruct (broadcast_shapes _ _) as [sh|e]; [|discriminate].
  cbn [rbind] in Ep.
  destruct (expand (pow2 s) sh) as [a'|e] eqn:Ea; [|discriminate].
  cbn [rbind] in Ep.
  destruct (expand w sh) as [b'|e] eqn:Eb; [|discriminate].
  cbn [rbind] in Ep. injection Ep as <-. cbn [data].
  apply (zip_with_Forall clear nb nb); [exact mul_nb | |].
  - apply (expand_Forall clear _ _ _) in Ea; [exact Ea|].
    unfold pow2, unary. cbn [data]. apply Forall_forall.
    intros x Hx. apply in_map_iff in Hx as (y & <- & _). apply square_clear.
  - apply (expand_Forall nb _ _ _) in Eb; [exact Eb|].
    unfold expand_as in Ew. apply (expand_Forall nb _ _ _) in Ew; assumption.
Qed.

(** X3. [WeightedMSELoss] is never negative for weights none of which
    is negative: whenever it returns, for tensors of any sizes, its
    result is a tensor of one element that is not below zero (the
    element may be infinite or not a number). *)
Theorem WeightedMSELoss_is_never_negative predicted labels weights v :
  Forall (fun x => (x <? 0)%float = false) (data weights) ->
  WeightedMSELoss predicted labels weights = Ok v ->
  exists x, v = mkTensor [1] [x] /\ (x <? 0)%float = false.
Proof.
  intros Hw H. apply WeightedMSELoss_mean in H as (d & -> & Hd).
  eexists. split; [reflexivity|]. apply nonneg_nb, mean_list_nb, Hd.
  eapply Forall_impl; [|exact Hw]. intros x. apply nonneg_nb.
Qed.

(** The theorem at two predictions, two labels and the weights 0.5
    and 2. *)
Lemma WeightedMSELoss_is_never_negative_witness :
  exists x, mkTensor [1] [10%float] = mkTensor [1] [x] /\
            (x <? 0)%float = false.
Proof.
  apply (WeightedMSELoss_is_never_negative
           (Example.vec [1; 2]%float) (Example.vec [3; 5]%float)
           (Example.vec [0.5; 2]%float));
    [repeat constructor | reflexivity].
Defined.

End SignFacts.

(* ================================================================== *)
(** * The weighted MSE loss on tensors of any sizes *)
(* ================================================================== *)

Module GeneralLossFacts.
Import Loss SpecWords LossWords LossFacts.

(** ** Expansion and elementwise maps *)






(** ** Broadcasting twice *)



(** ** The only exception is that of sizes that do not fit *)




(** ** The loss *)



(** On predicted and labels of the same sizes the words are position by
    position. *)
Lemma weighted_mse_same_sizes predicted labels weights w :
  wf predicted -> wf labels -> wf weights ->
  shape predicted = shape labels ->
  expand_as weights labels = Ok w ->
  weighted_mse predicted labels weights
  = Ok (mean_list (weighted_squares (data predicted) (data labels)
                                    (data w))).
Proof.
  intros Hp Hl Hw Hs Ew.
  destruct (expand_wf _ _ _ Hw Ew) as [Hws Hwwf].
  unfold weighted_mse. rewrite Ew. cbn [rbind].
  rewrite Hs, broadcast_shapes_same. cbn [rbind].
  rewrite <- Hs at 1. rewrite (expand_same _ Hp). cbn [rbind].
  rewrite (expand_same _ Hl). cbn [rbind].
  rewrite <- Hws, (expand_same _ Hwwf). reflexivity.
Qed.




End GeneralLossFacts.

(* ================================================================== *)
(** * Failures before the final loop *)
(* ================================================================== *)

Module BeforeLastFacts.
Import Engine Observations Outcomes BeforeLast BaseFacts MonadFacts.
Import CheckpointFacts RunFacts FinalFacts.

Section Run.
Variable Params : Type.
Local Abbreviation World := (Engine.World Params).
Local Abbreviation Event := (Engine.Event Params).

Variable uniform clock : nat -> float.
Variable train_loader val_loader : list (list Tensor).
Variable train_settings : list (TrainSettings Params).
Variable out_prefix : string.
Variable batch_use_prob : float.
Variable print_log : bool.
Variable log_dir : string.

Local Abbreviation run :=
  (TrainModels uniform clock train_loader val_loader train_settings
     out_prefix batch_use_prob print_log log_dir).
Local Abbreviation before_last :=
  (TrainModels_epochs uniform clock train_loader val_loader train_settings
     out_prefix batch_use_prob print_log log_dir).

(** The statements before the final loop, by the outcome of the two
    subscripts of line 87 and line 89 and of the epoch loop. *)
Lemma TrainModels_epochs_cases (w : World) :
  before_last w =
  match index (nets w) 0, index train_settings 0 with
  | Ok net0, Ok ts0 =>
      let '(w1, ev_run, r) :=
        run_epochs uniform clock train_loader val_loader train_settings
          out_prefix batch_use_prob print_log log_dir
          (length (input_names net0)) (length (label_names net0))
          (epochs ts0) (initial_state (length (nets w))) w in
      (w1, configure_events log_dir ++ ev_run, r)
  | Ok _, Raise e => (w, configure_events log_dir, Raise e)
  | Raise e, _ => (w, configure_events log_dir, Raise e)
  end.
Proof.
  unfold TrainModels_epochs, configure_events.
  unfold bind at 1. unfold when, emit, ret.
  destruct (negb (log_dir =? "")%string);
    (unfold bind at 1; unfold num_nets;
     unfold bind at 1; unfold get_net;
     destruct (index (nets w) 0) as [net0|e]; [|reflexivity];
     unfold bind at 1; unfold lift;
     destruct (index train_settings 0) as [ts0|e]; [|reflexivity];
     cbv zeta;
     destruct (run_epochs _ _ _ _ _ _ _ _ _ _ _ _ _ _) as [[w1 ev_run] r];
     reflexivity).
Qed.

(** X17. The statements of a call before its final loop (lines
    81-176) write no "last" checkpoint, whatever their outcome; when
    they raise, the call raises the same exception, with the models and
    the events as they are at that point.  So a call that fails before
    the final loop leaves no "last" file of any model. *)
Theorem failure_before_final_loop_writes_no_last_checkpoint nets0
  (w' : World) ev r :
  before_last (mkWorld nets0 0 0) = (w', ev, r) ->
  (forall i, count (is_save (last_path out_prefix i)) ev = 0) /\
  (forall e, r = Raise e -> run nets0 = (nets w', ev, Raise e)).
Proof.
  rewrite TrainModels_epochs_cases, TrainModels_cases. cbn [nets].
  intros H.
  assert (Hcfg : Forall (writes_no_last (Params:=Params) out_prefix)
                        (configure_events log_dir)).
  { unfold configure_events. destruct (negb _); repeat constructor. }
  destruct (index nets0 0) as [net0|e0].
  2:{ injection H as <- <- <-. split.
      - now apply writes_no_last_count.
      - intros e [= ->]. reflexivity. }
  destruct (index train_settings 0) as [ts0|e0].
  2:{ injection H as <- <- <-. split.
      - now apply writes_no_last_count.
      - intros e [= ->]. reflexivity. }
  destruct (run_epochs _ _ _ _ _ _ _ _ _ _ _ _ _ _)
    as [[w1 ev_run] r1] eqn:E.
  injection H as <- <- <-. split.
  - apply writes_no_last_count, Forall_app. split; [exact Hcfg|].
    now apply (run_epochs_writes_no_last _ _ _ _ _ _ _ _ _ _ _ _ _ _ _ _ _ _ I E).
  - intros e ->. reflexivity.
Qed.

End Run.

(** The theorem at the run with an empty validation data source, which
    raises in its first epoch. *)
Lemma failure_before_final_loop_writes_no_last_checkpoint_witness :
  exists w' ev,
    TrainModels_epochs Example.half Example.ticks
      [Example.batch_a; Example.batch_b] []
      [Example.settings 2; Example.settings 7] "out" 1 true ""
      (mkWorld [Example.a_net; Example.a_net] 0 0)
    = (w', ev, Raise ZeroDivisionError) /\
    (forall i, count (is_save (last_path "out" i)) ev = 0) /\
    Example.a_run_without_validation = (nets w', ev, Raise ZeroDivisionError).
Proof.
  assert (E : exists w' ev,
    TrainModels_epochs Example.half Example.ticks
      [Example.batch_a; Example.batch_b] []
      [Example.settings 2; Example.settings 7] "out" 1 true ""
      (mkWorld [Example.a_net; Example.a_net] 0 0)
    = (w', ev, Raise ZeroDivisionError))
    by (vm_compute; do 2 eexists; reflexivity).
  destruct E as (w' & ev & E).
  exists w', ev. split; [exact E|].
  destruct (failure_before_final_loop_writes_no_last_checkpoint
              _ _ _ _ _ _ _ _ _ _ _ _ _ _ E) as [Hn Hr].
  split; [exact Hn | exact (Hr _ eq_refl)].
Defined.

End BeforeLastFacts.
